(** * JobHuntAI: file-sync reconciliation, roster sorting and smart-entry
      finalization, embedded from [App] and [ActivityModal].

    The React components are modelled by explicit state passing.  A handler
    reads the values captured by the last render and issues a batch of
    [setState] calls; the batch is committed as one render, and the effects
    whose dependencies changed then run, in the order they are declared,
    on the committed state.  The one-second debounce of the auto-save
    effect is a pending timeout that the environment fires.

    [App.commit] and [App.dispatch] give the state transition of a commit
    whose render completes.  [Render.render] decides whether it does, on
    the values the collections hold, and [Render.step] is an event on the
    mounted application: a render that throws removes the application
    before any effect runs.  On states that render the two agree
    ([step_dispatch]).

    Values read from a file are untyped JavaScript values, and the three
    collections of [App] hold whatever a file put there.  Strings are
    sequences of bytes.  The builtins the code calls ([JSON.parse],
    [JSON.stringify], the numeric coercion behind [>], [toLowerCase],
    [trim]) form a class [Host]; general statements hold for every host,
    and a reference host runs the model on concrete texts.  The copies of
    the collections kept in local storage are not modelled. *)

From Stdlib Require Import String Ascii List ZArith Bool Arith.
Import ListNotations.
Local Open Scope string_scope.
Set Warnings "-register-all".

(** ** JavaScript values as produced by [JSON.parse] *)

Module JS.

(** A number is kept as its IEEE-754 binary64 bit pattern. *)
Inductive value : Type :=
| JNull
| JBool (b : bool)
| JNum (bits : Z)
| JStr (s : string)
| JArr (items : list value)
| JObj (fields : list (string * value)).

Inductive exn : Type := TypeError.

Inductive result (A : Type) : Type :=
| Ok (a : A)
| Throw (e : exn).
Arguments Ok {A} a.
Arguments Throw {A} e.

Definition bind {A B : Type} (m : result A) (k : A -> result B) : result B :=
  match m with
  | Ok a => k a
  | Throw e => Throw e
  end.

Notation "x <- m ;; k" := (bind m (fun x => k))
  (at level 61, m at next level, right associativity).

(** Sign and magnitude of a binary64 pattern. *)
Definition double_magnitude (bits : Z) : Z := Z.land bits (Z.ones 63).
Definition double_negative (bits : Z) : bool := Z.testbit bits 63.
Definition double_is_nan (bits : Z) : bool :=
  (Z.shiftl 2047 52 <? double_magnitude bits)%Z.
Definition double_is_zero (bits : Z) : bool :=
  (double_magnitude bits =? 0)%Z.

(** [x > 0] on a number. *)
Definition double_gt_zero (bits : Z) : bool :=
  negb (double_negative bits) && negb (double_is_zero bits)
  && negb (double_is_nan bits).

(** ToBoolean. *)
Definition truthy (v : value) : bool :=
  match v with
  | JNull => false
  | JBool b => b
  | JNum bits => negb (double_is_zero bits) && negb (double_is_nan bits)
  | JStr s => negb (s =? "")
  | JArr _ => true
  | JObj _ => true
  end.

Definition truthy_opt (v : option value) : bool :=
  match v with
  | Some x => truthy x
  | None => false
  end.

(** Own-property lookup in a parsed object (keys are unique there). *)
Fixpoint lookup (k : string) (fields : list (string * value)) : option value :=
  match fields with
  | [] => None
  | (k', v) :: rest => if k =? k' then Some v else lookup k rest
  end.

(** [v.k] for the keys the application reads from file data; none of them
    is a property of a prototype, so only own properties of objects answer.
    Reading a property of [null] throws. *)
Definition get (v : value) (k : string) : result (option value) :=
  match v with
  | JNull => Throw TypeError
  | JObj fields => Ok (lookup k fields)
  | _ => Ok None
  end.

(** [a || b] on possibly-undefined values. *)
Definition or_else (a b : option value) : option value :=
  if truthy_opt a then a else b.

(** [a || []]. *)
Definition or_empty (a : option value) : value :=
  match or_else a (Some (JArr [])) with
  | Some v => v
  | None => JArr []
  end.

(** Object.is on the values a state variable can hold: arrays and objects
    coming out of a parse or a literal are always fresh references. *)
Definition Object_is (old new : value) : bool :=
  match old, new with
  | JNull, JNull => true
  | JBool a, JBool b => Bool.eqb a b
  | JNum a, JNum b => (a =? b)%Z && negb (double_is_nan a)
                      || double_is_nan a && double_is_nan b
  | JStr a, JStr b => (a =? b)%string
  | _, _ => false
  end.

End JS.
Import JS.

(** ** The host: the builtins the application calls *)

Class Host : Type := {
  (** [JSON.parse]; [None] is a SyntaxError. *)
  JSON_parse : string -> option value;
  (** [JSON.stringify(v, null, 2)]. *)
  JSON_stringify : value -> string;
  (** ToNumber on a string, an array or an object; [None] is a TypeError. *)
  ToNumber : value -> option Z;
  (** [String.prototype.toLowerCase] and [String.prototype.trim]. *)
  toLowerCase : string -> string;
  trim : string -> string;
  (** The empty text is not JSON. *)
  JSON_parse_empty : JSON_parse "" = None
}.

(** ** The application component [App]: file-sync state and handlers *)

Module App.

Record FileSystemFileHandle : Type := { name : string }.

Inductive SyncStatus : Type := idle | saving | saved | error.

(** The state variables of [App] that the file-sync logic reads or writes,
    the pending timeout of the auto-save effect, and the texts written to
    the connected file so far (latest first). *)
Record State : Type := {
  opportunities : value;
  activities : value;
  contacts : value;
  fileHandle : option FileSystemFileHandle;
  syncStatus : SyncStatus;
  hasUnsavedChanges : bool;
  conflictData : option value;
  saveTimer : bool;
  written : list string
}.

Inductive update : Type :=
| setOpportunities (v : value)
| setActivities (v : value)
| setContacts (v : value)
| setFileHandle (h : option FileSystemFileHandle)
| setSyncStatus (s : SyncStatus)
| setHasUnsavedChanges (b : bool)
| setConflictData (d : option value).

(** Which effect dependencies differ from the previous render. *)
Record Touched : Type := {
  t_opportunities : bool;
  t_activities : bool;
  t_contacts : bool;
  t_fileHandle : bool;
  t_conflictData : bool
}.

Definition untouched : Touched :=
  {| t_opportunities := false; t_activities := false; t_contacts := false;
     t_fileHandle := false; t_conflictData := false |}.

Definition changed_opt (old new : option value) : bool :=
  match old, new with
  | None, None => false
  | Some o, Some n => negb (Object_is o n)
  | _, _ => true
  end.

(** A handle obtained from the picker is a fresh object. *)
Definition changed_handle (old new : option FileSystemFileHandle) : bool :=
  match new with
  | Some _ => true
  | None =>
      match old with
      | Some _ => true
      | None => false
      end
  end.

Definition apply_update (acc : State * Touched) (u : update) : State * Touched :=
  let (st, t) := acc in
  match u with
  | setOpportunities v =>
      ({| opportunities := v; activities := activities st;
          contacts := contacts st; fileHandle := fileHandle st;
          syncStatus := syncStatus st;
          hasUnsavedChanges := hasUnsavedChanges st;
          conflictData := conflictData st; saveTimer := saveTimer st;
          written := written st |},
       {| t_opportunities :=
            t_opportunities t || negb (Object_is (opportunities st) v);
          t_activities := t_activities t; t_contacts := t_contacts t;
          t_fileHandle := t_fileHandle t;
          t_conflictData := t_conflictData t |})
  | setActivities v =>
      ({| opportunities := opportunities st; activities := v;
          contacts := contacts st; fileHandle := fileHandle st;
          syncStatus := syncStatus st;
          hasUnsavedChanges := hasUnsavedChanges st;
          conflictData := conflictData st; saveTimer := saveTimer st;
          written := written st |},
       {| t_opportunities := t_opportunities t;
          t_activities :=
            t_activities t || negb (Object_is (activities st) v);
          t_contacts := t_contacts t; t_fileHandle := t_fileHandle t;
          t_conflictData := t_conflictData t |})
  | setContacts v =>
      ({| opportunities := opportunities st; activities := activities st;
          contacts := v; fileHandle := fileHandle st;
          syncStatus := syncStatus st;
          hasUnsavedChanges := hasUnsavedChanges st;
          conflictData := conflictData st; saveTimer := saveTimer st;
          written := written st |},
       {| t_opportunities := t_opportunities t;
          t_activities := t_activities t;
          t_contacts := t_contacts t || negb (Object_is (contacts st) v);
          t_fileHandle := t_fileHandle t;
          t_conflictData := t_conflictData t |})
  | setFileHandle h =>
      ({| opportunities := opportunities st; activities := activities st;
          contacts := contacts st; fileHandle := h;
          syncStatus := syncStatus st;
          hasUnsavedChanges := hasUnsavedChanges st;
          conflictData := conflictData st; saveTimer := saveTimer st;
          written := written st |},
       {| t_opportunities := t_opportunities t;
          t_activities := t_activities t; t_contacts := t_contacts t;
          t_fileHandle :=
            t_fileHandle t || changed_handle (fileHandle st) h;
          t_conflictData := t_conflictData t |})
  | setSyncStatus s =>
      ({| opportunities := opportunities st; activities := activities st;
          contacts := contacts st; fileHandle := fileHandle st;
          syncStatus := s;
          hasUnsavedChanges := hasUnsavedChanges st;
          conflictData := conflictData st; saveTimer := saveTimer st;
          written := written st |}, t)
  | setHasUnsavedChanges b =>
      ({| opportunities := opportunities st; activities := activities st;
          contacts := contacts st; fileHandle := fileHandle st;
          syncStatus := syncStatus st;
          hasUnsavedChanges := b;
          conflictData := conflictData st; saveTimer := saveTimer st;
          written := written st |}, t)
  | setConflictData d =>
      ({| opportunities := opportunities st; activities := activities st;
          contacts := contacts st; fileHandle := fileHandle st;
          syncStatus := syncStatus st;
          hasUnsavedChanges := hasUnsavedChanges st;
          conflictData := d; saveTimer := saveTimer st;
          written := written st |},
       {| t_opportunities := t_opportunities t;
          t_activities := t_activities t; t_contacts := t_contacts t;
          t_fileHandle := t_fileHandle t;
          t_conflictData :=
            t_conflictData t || changed_opt (conflictData st) d |})
  end.

Definition apply_updates (st : State) (us : list update) : State * Touched :=
  fold_left apply_update us (st, untouched).

Definition with_timer (st : State) (b : bool) : State :=
  {| opportunities := opportunities st; activities := activities st;
     contacts := contacts st; fileHandle := fileHandle st;
     syncStatus := syncStatus st;
     hasUnsavedChanges := hasUnsavedChanges st;
     conflictData := conflictData st; saveTimer := b;
     written := written st |}.

Section Handlers.
Context {host : Host}.

(** [x > 0]. *)
Definition gt_zero (x : value) : result bool :=
  match x with
  | JNull => Ok false
  | JBool b => Ok b
  | JNum bits => Ok (double_gt_zero bits)
  | _ =>
      match ToNumber x with
      | Some bits => Ok (double_gt_zero bits)
      | None => Throw TypeError
      end
  end.

(** [v.length > 0]. *)
Definition length_gt_zero (v : value) : result bool :=
  match v with
  | JNull => Throw TypeError
  | JArr items => Ok (0 <? List.length items)%nat
  | JStr s => Ok (negb (s =? ""))
  | JObj fields =>
      match lookup "length" fields with
      | Some x => gt_zero x
      | None => Ok false
      end
  | _ => Ok false
  end.

(** [v && v.length > 0] as a condition. *)
Definition has_items (v : option value) : result bool :=
  match v with
  | Some x => if truthy x then length_gt_zero x else Ok false
  | None => Ok false
  end.

Definition emptyFileData : value :=
  JObj [("opportunities", JArr []); ("activities", JArr []);
        ("contacts", JArr [])].

(** The [try]/[catch] around [JSON.parse] in [processFileContent]. *)
Definition parseFileText (text : string) : value :=
  if negb (text =? "") then
    match JSON_parse text with
    | Some v => v
    | None => emptyFileData
    end
  else emptyFileData.

Definition connected (handle : option FileSystemFileHandle)
  (us : list update) : list update :=
  match handle with
  | Some h => us
  | None => []
  end.

(** The updates of the adopting branch of [processFileContent]. *)
Definition adoption (v1 v2 v3 : value)
  (handle : option FileSystemFileHandle) : list update :=
  ([ setOpportunities v1; setActivities v2; setContacts v3;
     setHasUnsavedChanges false ]
   ++ connected handle [ setFileHandle handle; setSyncStatus saved ])%list.

(** The constant [fileHasData] of [processFileContent]. *)
Definition fileHasData (fileData : value) : result bool :=
  fOpportunities <- get fileData "opportunities" ;;
  a <- has_items fOpportunities ;;
  if a then Ok true
  else fOps <- get fileData "ops" ;; has_items fOps.

Definition processFileContent (st : State) (text : string)
  (handle : option FileSystemFileHandle) : result (list update) :=
  let fileData := parseFileText text in
  hasData <- fileHasData fileData ;;
  localHasData <- length_gt_zero (opportunities st) ;;
  if negb localHasData && hasData then
    fOpportunities <- get fileData "opportunities" ;;
    fOps <- get fileData "ops" ;;
    fActivities <- get fileData "activities" ;;
    fActs <- get fileData "acts" ;;
    fContacts <- get fileData "contacts" ;;
    Ok (adoption (or_empty (or_else fOpportunities fOps))
          (or_empty (or_else fActivities fActs))
          (or_empty fContacts) handle)
  else if localHasData then
    Ok ([ setConflictData (Some fileData) ]
        ++ connected handle [ setFileHandle handle ])%list
  else
    Ok (connected handle
          [ setFileHandle handle; setSyncStatus saved;
            setHasUnsavedChanges false ]).

Definition handleKeepLocal (st : State) : list update :=
  [ setConflictData None ].

Definition conflict_truthy (d : option value) : bool := truthy_opt d.

Definition handleImportFile (st : State) : result (list update) :=
  match conflictData st with
  | Some d =>
      if truthy d then
        cOps <- get d "ops" ;;
        cOpportunities <- get d "opportunities" ;;
        cActs <- get d "acts" ;;
        cActivities <- get d "activities" ;;
        cContacts <- get d "contacts" ;;
        Ok [ setOpportunities (or_empty (or_else cOps cOpportunities));
             setActivities (or_empty (or_else cActs cActivities));
             setContacts (or_empty cContacts);
             setConflictData None;
             setHasUnsavedChanges false ]
      else Ok []
  | None => Ok []
  end.

(** [onCancel] of the conflict modal. *)
Definition handleCancel (st : State) : list update :=
  [ setConflictData None; setFileHandle None ].

(** The effect tracking unsaved changes; dependencies
    [opportunities, activities, contacts]. *)
Definition unsavedEffect (t : Touched) (st : State) : result (list update) :=
  if t_opportunities t || t_activities t || t_contacts t then
    a <- length_gt_zero (opportunities st) ;;
    b <- (if a then Ok true else length_gt_zero (activities st)) ;;
    Ok (if b then [ setHasUnsavedChanges true ] else [])
  else Ok [].

(** The auto-save effect; dependencies
    [opportunities, activities, contacts, fileHandle, conflictData].  Its
    cleanup clears the pending timeout, its body arms a new one unless no
    file is connected or a conflict is pending. *)
Definition autoSaveEffect (t : Touched) (st : State) : State :=
  if t_opportunities t || t_activities t || t_contacts t
     || t_fileHandle t || t_conflictData t then
    match fileHandle st with
    | None => with_timer st false
    | Some _ =>
        if conflict_truthy (conflictData st) then with_timer st false
        else with_timer st true
    end
  else st.

(** Commit a batch of updates and run the effects of the render that
    follows, given that this render completes; [Render.present] is the
    commit with the render in it. *)
Definition commit (st : State) (us : list update) : result State :=
  let (st1, t) := apply_updates st us in
  us' <- unsavedEffect t st1 ;;
  let st2 := autoSaveEffect t st1 in
  Ok (fst (apply_updates st2 us')).

Definition snapshot (st : State) : value :=
  JObj [("opportunities", opportunities st);
        ("activities", activities st);
        ("contacts", contacts st)].

(** [saveData], run when the armed timeout fires; [ok] tells whether the
    file accepted the write. *)
Definition saveData (st : State) (ok : bool) : State :=
  if saveTimer st then
    if ok then
      {| opportunities := opportunities st; activities := activities st;
         contacts := contacts st; fileHandle := fileHandle st;
         syncStatus := saved; hasUnsavedChanges := false;
         conflictData := conflictData st; saveTimer := false;
         written := JSON_stringify (snapshot st) :: written st |}
    else
      {| opportunities := opportunities st; activities := activities st;
         contacts := contacts st; fileHandle := fileHandle st;
         syncStatus := error;
         hasUnsavedChanges := hasUnsavedChanges st;
         conflictData := conflictData st; saveTimer := false;
         written := written st |}
  else st.

(** What the user or the environment can do to the sync engine. *)
Inductive event : Type :=
| ConnectFile (text : string) (handle : FileSystemFileHandle)
| ManualImport (text : string)
| KeepLocal
| ImportFile
| Cancel
| TimerFired (ok : bool).

(** [handleConnectFile] catches what [processFileContent] throws and only
    logs it; in [handleManualImport] the exception escapes the reader
    callback.  Either way no update is committed. *)
Definition dispatch (st : State) (e : event) : result State :=
  match e with
  | ConnectFile text handle =>
      match processFileContent st text (Some handle) with
      | Ok us => commit st us
      | Throw _ => Ok st
      end
  | ManualImport text =>
      us <- processFileContent st text None ;; commit st us
  | KeepLocal => commit st (handleKeepLocal st)
  | ImportFile => us <- handleImportFile st ;; commit st us
  | Cancel => commit st (handleCancel st)
  | TimerFired ok => Ok (saveData st ok)
  end.

(** [x.length] as it is handed to the conflict modal: a number, or for an
    object whatever its member [length] holds. *)
Inductive shown : Type :=
| ShownCount (n : nat)
| ShownStringLength (s : string)
| ShownValue (v : option value).

Definition length_of (v : value) : shown :=
  match v with
  | JArr items => ShownCount (List.length items)
  | JStr s => ShownStringLength s
  | JObj fields => ShownValue (lookup "length" fields)
  | _ => ShownValue None
  end.

(** The props [localStats] and [fileStats] that [App] hands to the
    conflict modal; the modal is part of the page only while
    [conflictData] is truthy. *)
Definition localStats (st : State) : shown * shown :=
  (length_of (opportunities st), length_of (activities st)).

Definition stat_or_zero (s : shown) : shown :=
  match s with
  | ShownCount n => ShownCount n
  | ShownStringLength x => if x =? "" then ShownCount 0 else s
  | ShownValue (Some v) => if truthy v then s else ShownCount 0
  | ShownValue None => ShownCount 0
  end.

Definition fileStat (d : value) (legacy modern : string) : shown :=
  match d with
  | JObj fields =>
      match lookup legacy fields with
      | Some x =>
          if truthy x then length_of x
          else match lookup modern fields with
               | Some y => stat_or_zero (length_of y)
               | None => ShownCount 0
               end
      | None =>
          match lookup modern fields with
          | Some y => stat_or_zero (length_of y)
          | None => ShownCount 0
          end
      end
  | _ => ShownCount 0
  end.

Definition fileStats (d : value) : shown * shown :=
  (fileStat d "ops" "opportunities", fileStat d "acts" "activities").

(** The element [ConflictModal] of the page, with its props; whether the
    component renders them is [Render.ConflictModal]. *)
Definition conflictModal (st : State) : option ((shown * shown) * (shown * shown)) :=
  match conflictData st with
  | Some d => if truthy d then Some (localStats st, fileStats d) else None
  | None => None
  end.

(** The states of the sync engine, read off the component state of the
    mounted application: a conflict prompt is on screen, or a file is
    connected with none pending, or neither. *)
Inductive SyncState : Type := Unconnected | AwaitingUserChoice | Converged.

Definition syncState (st : State) : SyncState :=
  match conflictModal st with
  | Some _ => AwaitingUserChoice
  | None =>
      match fileHandle st with
      | Some _ => Converged
      | None => Unconnected
      end
  end.

Definition collections (st : State) : value * value * value :=
  (opportunities st, activities st, contacts st).

(** File data the reconciliation can read: it is truthy, and evaluating
    [fileHasData] on it does not throw. *)
Definition readable (fileData : value) : Prop :=
  truthy fileData = true /\ exists b, fileHasData fileData = Ok b.

(** A member that is absent or an array. *)
Definition array_or_absent (m : option value) : Prop :=
  match m with
  | None => True
  | Some (JArr _) => True
  | Some _ => False
  end.

(** Selecting a file: through the picker, which grants a live handle, or
    through the file input, which grants none. *)
Definition connect (text : string) (handle : option FileSystemFileHandle)
  : event :=
  match handle with
  | Some h => ConnectFile text h
  | None => ManualImport text
  end.

End Handlers.

End App.

(** ** The opportunity roster: sort toggle *)

Module Roster.

Inductive SortKey : Type := employer | role | status | lastActivity.
Inductive Direction : Type := asc | desc.

Record SortConfig : Type := { key : SortKey; direction : Direction }.

Definition SortKey_eqb (a b : SortKey) : bool :=
  match a, b with
  | employer, employer | role, role | status, status
  | lastActivity, lastActivity => true
  | _, _ => false
  end.

Definition Direction_eqb (a b : Direction) : bool :=
  match a, b with
  | asc, asc | desc, desc => true
  | _, _ => false
  end.

(** The initial [sortConfig] of [App]. *)
Definition initialSortConfig : SortConfig :=
  {| key := lastActivity; direction := desc |}.

Definition flip (d : Direction) : Direction :=
  match d with
  | asc => desc
  | desc => asc
  end.

Definition requestSort (sortConfig : SortConfig) (k : SortKey) : SortConfig :=
  let d :=
    if SortKey_eqb (key sortConfig) k
       && Direction_eqb (direction sortConfig) asc
    then desc else asc in
  {| key := k; direction := d |}.

End Roster.

(** ** Domain records *)

Module Contact.
Record t : Type := {
  id : string; name : string; role : string;
  email : option string; phone : option string;
  company : string; notes : option string
}.
(** [Partial<Contact>] as the extraction returns it. *)
Record partial : Type := {
  p_name : option string; p_role : option string;
  p_email : option string; p_company : option string
}.
End Contact.

Module Opportunity.
Record t : Type := {
  id : string; position : string; role : string; employer : string;
  description : option string; status : string;
  createdAt : string; updatedAt : string
}.
Record partial : Type := {
  p_employer : option string; p_position : option string;
  p_role : option string; p_status : option string
}.
End Opportunity.

Module Activity.
(** [type] is copied from the form data uncast, so it is whatever the form
    held, possibly nothing. *)
Record t : Type := {
  id : string; opportunityId : string; title : string;
  type : option string; date : string; contactIds : list string; description : string;
  followUpAction : option string; followUpDate : option string
}.
(** [Partial<Activity>]: the form data, and the extracted draft. *)
Record partial : Type := {
  p_title : option string; p_type : option string; p_date : option string;
  p_contactIds : option (list string); p_description : option string;
  p_followUpAction : option string; p_followUpDate : option string
}.
End Activity.

(** The members of the two enumerations the modal refers to. *)
Module ActivityType.
Definition OTHER : string := "Other".
End ActivityType.

Module OpportunityStatus.
Definition IDENTIFIED : string := "Identified".
End OpportunityStatus.

(** ** The component [ActivityModal]: smart entry *)

Module ActivityModal.

(** The extraction result, [ParsedActivity], every member optional. *)
Record ParsedActivity : Type := {
  isNewOpportunity : bool;
  opportunityMatchId : option string;
  opportunityData : option Opportunity.partial;
  activityData : option Activity.partial;
  contacts : option (list Contact.partial)
}.

Record NewOpData : Type := {
  employer : string; position : string; role : string; status : string
}.

Record Props : Type := {
  existingContacts : list Contact.t;
  initialActivity : option Activity.t;
  opportunityId : option string;
  opportunities : list Opportunity.t
}.

Record State : Type := {
  formData : Activity.partial;
  isNewOp : bool;
  selectedOpId : string;
  newOpData : NewOpData;
  stagedContacts : list Contact.partial
}.

(** Truthiness of an optional string. *)
Definition truthy_str (s : option string) : bool :=
  match s with
  | Some x => negb (x =? "")
  | None => false
  end.

(** [a || b] and [a || ''] on optional strings. *)
Definition or_str (a b : option string) : option string :=
  if truthy_str a then a else b.

Definition or_lit (a : option string) (d : string) : string :=
  match a with
  | Some x => if x =? "" then d else x
  | None => d
  end.

Definition emptyNewOpData : NewOpData :=
  {| employer := ""; position := ""; role := "";
     status := OpportunityStatus.IDENTIFIED |}.

Definition blankForm (today : string) : Activity.partial :=
  {| Activity.p_title := Some ""; Activity.p_type := Some ActivityType.OTHER;
     Activity.p_date := Some today; Activity.p_contactIds := Some [];
     Activity.p_description := Some "";
     Activity.p_followUpAction := Some "";
     Activity.p_followUpDate := Some "" |}.

(** The initialization effect for a new activity ([initialActivity] is
    null): the form is blank and the selection is the locked opportunity,
    if any. *)
Definition initNew (today : string) (props : Props) : State :=
  {| formData := blankForm today;
     isNewOp := false;
     selectedOpId := or_lit (opportunityId props) "";
     newOpData := emptyNewOpData;
     stagedContacts := [] |}.

(** Elements in order of first occurrence, as [Array.from(new Set(l))]. *)
Fixpoint uniq_from (seen l : list string) : list string :=
  match l with
  | [] => []
  | x :: rest =>
      if existsb (String.eqb x) seen then uniq_from seen rest
      else x :: uniq_from (x :: seen) rest
  end.

Definition uniq (l : list string) : list string := uniq_from [] l.

Section Logic.
Context {host : Host}.

(** [contacts.find(existing => existing.name.toLowerCase() ===
    c.name.toLowerCase())]: the callback runs once per existing contact
    until it answers true, and throws when [c.name] is absent. *)
Definition findMatch (existing : list Contact.t) (c : Contact.partial)
  : result (option Contact.t) :=
  match existing with
  | [] => Ok None
  | _ :: _ =>
      match Contact.p_name c with
      | None => Throw TypeError
      | Some n =>
          Ok (find (fun e => toLowerCase (Contact.name e) =? toLowerCase n)
                existing)
      end
  end.

(** The existing contact a named candidate matches: the first one whose
    name equals the candidate's, case-insensitively. *)
Definition matchOf (existing : list Contact.t) (c : Contact.partial)
  : option Contact.t :=
  match Contact.p_name c with
  | Some n =>
      find (fun e => toLowerCase (Contact.name e) =? toLowerCase n) existing
  | None => None
  end.

Definition named (c : Contact.partial) : Prop := Contact.p_name c <> None.

Definition matchedIds (existing : list Contact.t) (cs : list Contact.partial)
  : list string :=
  flat_map (fun c => match matchOf existing c with
                     | Some e => [Contact.id e]
                     | None => []
                     end) cs.

Definition unmatched (existing : list Contact.t) (cs : list Contact.partial)
  : list Contact.partial :=
  filter (fun c => match matchOf existing c with
                   | Some _ => false
                   | None => true
                   end) cs.

(** The [forEach] over the extracted contacts: identifiers of the matches
    and the candidates to stage. *)
Fixpoint sortContacts (existing : list Contact.t) (cs : list Contact.partial)
  (ids : list string) (staged : list Contact.partial)
  : result (list string * list Contact.partial) :=
  match cs with
  | [] => Ok (ids, staged)
  | c :: rest =>
      m <- findMatch existing c ;;
      match m with
      | Some e => sortContacts existing rest (ids ++ [Contact.id e])%list staged
      | None => sortContacts existing rest ids (staged ++ [c])%list
      end
  end.

(** Step 1 of [handleAutoFill]. *)
Definition opportunityLogic (props : Props) (r : ParsedActivity) (s : State)
  : State :=
  if truthy_str (opportunityId props) then s
  else if isNewOpportunity r then
    {| formData := formData s;
       isNewOp := true;
       selectedOpId := "";
       newOpData :=
         {| employer :=
              or_lit (match opportunityData r with
                      | Some d => Opportunity.p_employer d | None => None
                      end) "";
            position :=
              or_lit (match opportunityData r with
                      | Some d => Opportunity.p_position d | None => None
                      end) "Unknown Position";
            role :=
              or_lit (match opportunityData r with
                      | Some d => Opportunity.p_role d | None => None
                      end) "";
            status :=
              or_lit (match opportunityData r with
                      | Some d => Opportunity.p_status d | None => None
                      end) OpportunityStatus.IDENTIFIED |};
       stagedContacts := stagedContacts s |}
  else if truthy_str (opportunityMatchId r) then
    {| formData := formData s;
       isNewOp := false;
       selectedOpId := or_lit (opportunityMatchId r) "";
       newOpData := newOpData s;
       stagedContacts := stagedContacts s |}
  else s.

(** Step 2 of [handleAutoFill], the updater of the form data. *)
Definition activityLogic (today : string) (a : Activity.partial)
  (prev : Activity.partial) : Activity.partial :=
  {| Activity.p_title :=
       Some (or_lit (or_str (Activity.p_title prev) (Activity.p_title a)) "");
     Activity.p_type :=
       match Activity.p_type prev with
       | Some t =>
           if (t =? ActivityType.OTHER) && truthy_str (Activity.p_type a)
           then Activity.p_type a else Activity.p_type prev
       | None => None
       end;
     Activity.p_date :=
       match Activity.p_date prev with
       | Some d =>
           if (d =? today) && truthy_str (Activity.p_date a)
           then Activity.p_date a else Activity.p_date prev
       | None => None
       end;
     Activity.p_contactIds := Activity.p_contactIds prev;
     Activity.p_description := Activity.p_description prev;
     Activity.p_followUpAction :=
       Some (or_lit (or_str (Activity.p_followUpAction prev)
                       (Activity.p_followUpAction a)) "");
     Activity.p_followUpDate :=
       Some (or_lit (or_str (Activity.p_followUpDate prev)
                       (Activity.p_followUpDate a)) "") |}.

Definition with_formData (s : State) (f : Activity.partial) : State :=
  {| formData := f; isNewOp := isNewOp s; selectedOpId := selectedOpId s;
     newOpData := newOpData s; stagedContacts := stagedContacts s |}.

Definition with_contactIds (f : Activity.partial) (ids : list string)
  : Activity.partial :=
  {| Activity.p_title := Activity.p_title f;
     Activity.p_type := Activity.p_type f;
     Activity.p_date := Activity.p_date f;
     Activity.p_contactIds := Some ids;
     Activity.p_description := Activity.p_description f;
     Activity.p_followUpAction := Activity.p_followUpAction f;
     Activity.p_followUpDate := Activity.p_followUpDate f |}.

Definition or_nil (l : option (list string)) : list string :=
  match l with
  | Some x => x
  | None => []
  end.

(** Step 3 of [handleAutoFill]; an exception thrown by the [forEach] is
    caught by the handler before any update of this step is issued. *)
Definition contactLogic (props : Props) (r : ParsedActivity) (s : State)
  : State :=
  match contacts r with
  | Some (c :: cs) =>
      match sortContacts (existingContacts props) (c :: cs) [] [] with
      | Ok (existingIdsToSelect, newStaged) =>
          {| formData :=
               with_contactIds (formData s)
                 (uniq (or_nil (Activity.p_contactIds (formData s))
                        ++ existingIdsToSelect)%list);
             isNewOp := isNewOp s;
             selectedOpId := selectedOpId s;
             newOpData := newOpData s;
             stagedContacts := (stagedContacts s ++ newStaged)%list |}
      | Throw _ => s
      end
  | _ => s
  end.

(** [handleAutoFill]; [response] is what the extraction call resolved to
    ([None] when it rejected).  The updater of step 2 reads
    [result.activityData.title] when the next render applies it, so a
    result without [activityData] fails the render: [Throw]. *)
Definition handleAutoFill (today : string) (props : Props)
  (response : option ParsedActivity) (s : State) : result State :=
  match Activity.p_description (formData s) with
  | None => Ok s
  | Some d =>
      if trim d =? "" then Ok s
      else
        match response with
        | None => Ok s
        | Some r =>
            let s1 := opportunityLogic props r s in
            match activityData r with
            | None => Throw TypeError
            | Some a =>
                let s2 := with_formData s1 (activityLogic today a (formData s1)) in
                Ok (contactLogic props r s2)
            end
        end
  end.

End Logic.

(** What [handleSave] hands to [onSave]. *)
Record SavePayload : Type := {
  activity : Activity.t;
  newOpportunity : option Opportunity.t;
  newContacts : list Contact.t
}.

(** [stagedContacts.map(c => ...)]; [k] counts the calls of [uuidv4] made
    so far. *)
Fixpoint promote (uuidv4 : nat -> string) (k : nat) (company : string)
  (cs : list Contact.partial) : list Contact.t :=
  match cs with
  | [] => []
  | c :: rest =>
      {| Contact.id := uuidv4 k;
         Contact.name := or_lit (Contact.p_name c) "Unknown";
         Contact.role := or_lit (Contact.p_role c) "Contact";
         Contact.email := Contact.p_email c;
         Contact.phone := None;
         Contact.company := or_lit (Contact.p_company c) company;
         Contact.notes := Some "Auto-created" |}
      :: promote uuidv4 (S k) company rest
  end.

(** [handleSave]; the [n]-th call of [uuidv4] returns [uuidv4 n], [None]
    is a return without calling [onSave]. *)
Definition handleSave (uuidv4 : nat -> string) (today : string)
  (props : Props) (s : State) : option SavePayload :=
  let f := formData s in
  if negb (truthy_str (Activity.p_title f))
     || negb (truthy_str (Activity.p_date f)) then None
  else if negb (isNewOp s) && (selectedOpId s =? "")
          && negb (truthy_str (opportunityId props)) then None
  else if isNewOp s && (employer (newOpData s) =? "") then None
  else
    let creating := isNewOp s && negb (truthy_str (opportunityId props)) in
    let finalOpId :=
      if creating then uuidv4 0
      else or_lit (opportunityId props) (selectedOpId s) in
    let k := if creating then 1 else 0 in
    let newOp :=
      if creating then
        Some {| Opportunity.id := finalOpId;
                Opportunity.position := position (newOpData s);
                Opportunity.role := role (newOpData s);
                Opportunity.employer := employer (newOpData s);
                Opportunity.description := Some "Created via Smart Log";
                Opportunity.status := status (newOpData s);
                Opportunity.createdAt := today;
                Opportunity.updatedAt := today |}
      else None in
    let finalNewContacts :=
      promote uuidv4 k
        (if creating then employer (newOpData s) else "Unknown")
        (stagedContacts s) in
    let fresh := uuidv4 (k + List.length (stagedContacts s)) in
    Some {| activity :=
              {| Activity.id :=
                   match initialActivity props with
                   | Some a =>
                       if Activity.id a =? "" then fresh else Activity.id a
                   | None => fresh
                   end;
                 Activity.opportunityId := finalOpId;
                 Activity.title := or_lit (Activity.p_title f) "";
                 Activity.type := Activity.p_type f;
                 Activity.date := or_lit (Activity.p_date f) "";
                 Activity.contactIds :=
                   (or_nil (Activity.p_contactIds f)
                    ++ map Contact.id finalNewContacts)%list;
                 Activity.description := or_lit (Activity.p_description f) "";
                 Activity.followUpAction := Activity.p_followUpAction f;
                 Activity.followUpDate := Activity.p_followUpDate f |};
            newOpportunity := newOp;
            newContacts := finalNewContacts |}.

(** The three collections of [App], as records. *)
Record Store : Type := {
  storeOpportunities : list Opportunity.t;
  storeActivities : list Activity.t;
  storeContacts : list Contact.t
}.

(** [handleSaveActivity] of [App]; [editingActivity] is the activity the
    modal was opened on. *)
Definition handleSaveActivity (editingActivity : option Activity.t)
  (data : SavePayload) (st : Store) : Store :=
  {| storeOpportunities :=
       match newOpportunity data with
       | Some o => (storeOpportunities st ++ [o])%list
       | None => storeOpportunities st
       end;
     storeActivities :=
       match editingActivity with
       | Some _ =>
           map (fun a =>
                  if Activity.id a =? Activity.id (activity data)
                  then activity data else a)
             (storeActivities st)
       | None => (storeActivities st ++ [activity data])%list
       end;
     storeContacts := (storeContacts st ++ newContacts data)%list |}.

(** Pressing save in the modal: [handleSave], then [onSave] if it is
    reached. *)
Definition save (uuidv4 : nat -> string) (today : string) (props : Props)
  (s : State) (st : Store) : Store :=
  match handleSave uuidv4 today props s with
  | Some data => handleSaveActivity (initialActivity props) data st
  | None => st
  end.

(** The mandatory-field check fails: the title or the date is missing, or
    no existing opportunity is selected, no new opportunity is staged with
    its employer, and the context is not locked. *)
Definition mandatory_check_fails (props : Props) (s : State) : Prop :=
  truthy_str (Activity.p_title (formData s)) = false
  \/ truthy_str (Activity.p_date (formData s)) = false
  \/ ((isNewOp s = true \/ selectedOpId s = "")
      /\ (isNewOp s = false \/ employer (newOpData s) = "")
      /\ truthy_str (opportunityId props) = false).

(** [handleSave] creates an opportunity: one is staged and the context is
    not locked. *)
Definition creating (props : Props) (s : State) : bool :=
  isNewOp s && negb (truthy_str (opportunityId props)).

(** The context is locked to opportunity [o]. *)
Definition locked (props : Props) (o : string) : Prop :=
  opportunityId props = Some o /\ o <> "".

End ActivityModal.

(** ** A reference host

    An executable instance of [Host] on the ASCII fragment of JSON with
    integer numbers of magnitude below 2^53, used to run the model on
    concrete file texts. *)

Module RefHost.

Definition dquote : ascii := ascii_of_nat 34.
Definition backslash : ascii := ascii_of_nat 92.

Definition is_ws (c : ascii) : bool :=
  let n := nat_of_ascii c in
  (n =? 32)%nat || (n =? 9)%nat || (n =? 10)%nat || (n =? 13)%nat.

Fixpoint skip_ws (s : string) : string :=
  match s with
  | String c rest => if is_ws c then skip_ws rest else s
  | EmptyString => s
  end.

Definition is_digit (c : ascii) : bool :=
  let n := nat_of_ascii c in (48 <=? n)%nat && (n <=? 57)%nat.

(** The binary64 pattern of a natural number below 2^53. *)
Definition double_of_N (n : Z) : option Z :=
  if (n =? 0)%Z then Some 0%Z
  else if (n <? 2 ^ 53)%Z then
    let e := Z.log2 n in
    Some (Z.lor (Z.shiftl (e + 1023) 52)
                (Z.shiftl n (52 - e) - 2 ^ 52))%Z
  else None.

Definition negate_double (bits : Z) : Z := Z.lor bits (Z.shiftl 1 63).

(** The natural number a binary64 pattern stands for, if it is one below
    2^53. *)
Definition N_of_double (bits : Z) : option Z :=
  let m := double_magnitude bits in
  if (m =? 0)%Z then Some 0%Z
  else
    let e := (Z.shiftr m 52 - 1023)%Z in
    let frac := (Z.land m (Z.ones 52) + 2 ^ 52)%Z in
    if (0 <=? e)%Z && (e <=? 52)%Z
       && (Z.land frac (Z.ones (52 - e)) =? 0)%Z
    then Some (Z.shiftr frac (52 - e))
    else None.

Fixpoint read_digits (s : string) (acc : Z) : Z * string :=
  match s with
  | String c rest =>
      if is_digit c
      then read_digits rest (acc * 10 + Z.of_nat (nat_of_ascii c - 48))%Z
      else (acc, s)
  | EmptyString => (acc, s)
  end.

(** An integer literal: no leading zero, no fraction, no exponent. *)
Definition read_int (s : string) : option (Z * string) :=
  match s with
  | String c rest =>
      if is_digit c then
        let (n, r) := read_digits s 0%Z in
        let leading_zero :=
          (nat_of_ascii c =? 48)%nat
          && match rest with
             | String d _ => is_digit d
             | EmptyString => false
             end in
        let continues :=
          match r with
          | String d _ =>
              let k := nat_of_ascii d in
              (k =? 46)%nat || (k =? 101)%nat || (k =? 69)%nat
          | EmptyString => false
          end in
        if leading_zero || continues then None else Some (n, r)
      else None
  | EmptyString => None
  end.

Definition read_number (s : string) : option (value * string) :=
  match s with
  | String c rest =>
      if (nat_of_ascii c =? 45)%nat then
        match read_int rest with
        | Some (n, r) =>
            match double_of_N n with
            | Some bits => Some (JNum (negate_double bits), r)
            | None => None
            end
        | None => None
        end
      else
        match read_int s with
        | Some (n, r) =>
            match double_of_N n with
            | Some bits => Some (JNum bits, r)
            | None => None
            end
        | None => None
        end
  | EmptyString => None
  end.

Definition hex_digit (c : ascii) : option nat :=
  let n := nat_of_ascii c in
  if (48 <=? n)%nat && (n <=? 57)%nat then Some (n - 48)
  else if (97 <=? n)%nat && (n <=? 102)%nat then Some (n - 87)
  else if (65 <=? n)%nat && (n <=? 70)%nat then Some (n - 55)
  else None.

Definition unescape (c : ascii) : option ascii :=
  let n := nat_of_ascii c in
  if (n =? 34)%nat || (n =? 92)%nat || (n =? 47)%nat then Some c
  else if (n =? 98)%nat then Some (ascii_of_nat 8)
  else if (n =? 102)%nat then Some (ascii_of_nat 12)
  else if (n =? 110)%nat then Some (ascii_of_nat 10)
  else if (n =? 114)%nat then Some (ascii_of_nat 13)
  else if (n =? 116)%nat then Some (ascii_of_nat 9)
  else None.

(** The characters of a string literal after its opening quote; [acc] is
    reversed. *)
Fixpoint read_string (s : string) (acc : list ascii)
  : option (string * string) :=
  match s with
  | EmptyString => None
  | String c rest =>
      if Ascii.eqb c dquote
      then Some (string_of_list_ascii (rev acc), rest)
      else if Ascii.eqb c backslash then
        match rest with
        | String e rest' =>
            if (nat_of_ascii e =? 117)%nat then
              match rest' with
              | String h1 (String h2 (String h3 (String h4 rest''))) =>
                  match hex_digit h1, hex_digit h2,
                        hex_digit h3, hex_digit h4 with
                  | Some 0, Some 0, Some a, Some b =>
                      if (a <? 8)%nat
                      then read_string rest'' (ascii_of_nat (16 * a + b) :: acc)
                      else None
                  | _, _, _, _ => None
                  end
              | _ => None
              end
            else
              match unescape e with
              | Some x => read_string rest' (x :: acc)
              | None => None
              end
        | EmptyString => None
        end
      else if (nat_of_ascii c <? 32)%nat then None
      else read_string rest (c :: acc)
  end.

Fixpoint expect (lit s : string) : option string :=
  match lit, s with
  | EmptyString, _ => Some s
  | String a lit', String b s' => if Ascii.eqb a b then expect lit' s' else None
  | String _ _, EmptyString => None
  end.

(** A later member of the same name replaces the value of the earlier one
    in place. *)
Fixpoint set_field (k : string) (v : value) (fields : list (string * value))
  : list (string * value) :=
  match fields with
  | [] => [(k, v)]
  | (k', v') :: rest =>
      if k =? k' then (k', v) :: rest else (k', v') :: set_field k v rest
  end.

Definition head_is (n : nat) (s : string) : bool :=
  match s with
  | String c _ => (nat_of_ascii c =? n)%nat
  | EmptyString => false
  end.

Definition tail (s : string) : string :=
  match s with
  | String _ rest => rest
  | EmptyString => s
  end.

(** Recursive descent; every call consumes fuel, and the length of the
    text is enough of it. *)
Fixpoint parse_value (fuel : nat) (s : string) : option (value * string) :=
  match fuel with
  | O => None
  | S fuel' =>
      let s := skip_ws s in
      if head_is 110 s then
        match expect "null" s with
        | Some r => Some (JNull, r) | None => None end
      else if head_is 116 s then
        match expect "true" s with
        | Some r => Some (JBool true, r) | None => None end
      else if head_is 102 s then
        match expect "false" s with
        | Some r => Some (JBool false, r) | None => None end
      else if head_is 34 s then
        match read_string (tail s) [] with
        | Some (x, r) => Some (JStr x, r) | None => None end
      else if head_is 91 s then
        if head_is 93 (skip_ws (tail s))
        then Some (JArr [], tail (skip_ws (tail s)))
        else parse_elements fuel' (tail s) []
      else if head_is 123 s then
        if head_is 125 (skip_ws (tail s))
        then Some (JObj [], tail (skip_ws (tail s)))
        else parse_members fuel' (tail s) []
      else read_number s
  end
with parse_elements (fuel : nat) (s : string) (acc : list value)
  : option (value * string) :=
  match fuel with
  | O => None
  | S fuel' =>
      match parse_value fuel' s with
      | Some (v, r) =>
          let r := skip_ws r in
          if head_is 44 r then parse_elements fuel' (tail r) (acc ++ [v])
          else if head_is 93 r then Some (JArr (acc ++ [v]), tail r)
          else None
      | None => None
      end
  end
with parse_members (fuel : nat) (s : string) (acc : list (string * value))
  : option (value * string) :=
  match fuel with
  | O => None
  | S fuel' =>
      let s := skip_ws s in
      if head_is 34 s then
        match read_string (tail s) [] with
        | Some (k, r) =>
            let r := skip_ws r in
            if head_is 58 r then
              match parse_value fuel' (tail r) with
              | Some (v, r') =>
                  let r' := skip_ws r' in
                  if head_is 44 r'
                  then parse_members fuel' (tail r') (set_field k v acc)
                  else if head_is 125 r'
                  then Some (JObj (set_field k v acc), tail r')
                  else None
              | None => None
              end
            else None
        | None => None
        end
      else None
  end.

Definition parse (text : string) : option value :=
  match parse_value (2 * String.length text + 2) text with
  | Some (v, r) =>
      match skip_ws r with
      | EmptyString => Some v
      | String _ _ => None
      end
  | None => None
  end.

(** Printing. *)
Definition hex_char (n : nat) : ascii :=
  if (n <? 10)%nat then ascii_of_nat (48 + n) else ascii_of_nat (87 + n).

Definition escape_char (c : ascii) : string :=
  let n := nat_of_ascii c in
  if (n =? 34)%nat then String backslash (String dquote EmptyString)
  else if (n =? 92)%nat then String backslash (String backslash EmptyString)
  else if (n =? 8)%nat then String backslash "b"
  else if (n =? 12)%nat then String backslash "f"
  else if (n =? 10)%nat then String backslash "n"
  else if (n =? 13)%nat then String backslash "r"
  else if (n =? 9)%nat then String backslash "t"
  else if (n <? 32)%nat then
    String backslash
      ("u00" ++ String (hex_char (n / 16)) (String (hex_char (n mod 16)) EmptyString))
  else String c EmptyString.

Fixpoint escape (s : string) : string :=
  match s with
  | EmptyString => EmptyString
  | String c rest => escape_char c ++ escape rest
  end.

Definition quote (s : string) : string :=
  String dquote (escape s ++ String dquote EmptyString).

Fixpoint digits_of (fuel : nat) (n : Z) (acc : string) : string :=
  match fuel with
  | O => acc
  | S fuel' =>
      let acc' := String (ascii_of_nat (48 + Z.to_nat (n mod 10))) acc in
      if (n <? 10)%Z then acc' else digits_of fuel' (n / 10)%Z acc'
  end.

Definition print_number (bits : Z) : string :=
  match N_of_double bits with
  | Some n =>
      if double_negative bits && negb (n =? 0)%Z
      then "-" ++ digits_of 20 n EmptyString
      else digits_of 20 n EmptyString
  | None => "null"
  end.

Fixpoint spaces (n : nat) : string :=
  match n with
  | O => EmptyString
  | S k => String " " (spaces k)
  end.

Definition newline : string := String (ascii_of_nat 10) EmptyString.

Fixpoint join (sep : string) (l : list string) : string :=
  match l with
  | [] => EmptyString
  | [x] => x
  | x :: rest => x ++ sep ++ join sep rest
  end.

(** [JSON.stringify(v, null, 2)] at nesting depth [ind]. *)
Fixpoint print (ind : nat) (v : value) : string :=
  match v with
  | JNull => "null"
  | JBool true => "true"
  | JBool false => "false"
  | JNum bits => print_number bits
  | JStr s => quote s
  | JArr [] => "[]"
  | JArr items =>
      "[" ++ newline ++ spaces (ind + 2)
      ++ join ("," ++ newline ++ spaces (ind + 2))
           (map (print (ind + 2)) items)
      ++ newline ++ spaces ind ++ "]"
  | JObj [] => "{}"
  | JObj fields =>
      "{" ++ newline ++ spaces (ind + 2)
      ++ join ("," ++ newline ++ spaces (ind + 2))
           (map (fun kv => quote (fst kv) ++ ": " ++ print (ind + 2) (snd kv))
              fields)
      ++ newline ++ spaces ind ++ "}"
  end.

Definition lower_char (c : ascii) : ascii :=
  let n := nat_of_ascii c in
  if (65 <=? n)%nat && (n <=? 90)%nat then ascii_of_nat (n + 32) else c.

Fixpoint lower (s : string) : string :=
  match s with
  | EmptyString => EmptyString
  | String c rest => String (lower_char c) (lower rest)
  end.

Definition is_space (c : ascii) : bool :=
  let n := nat_of_ascii c in
  (n =? 32)%nat || ((9 <=? n)%nat && (n <=? 13)%nat).

Fixpoint trim_start (s : string) : string :=
  match s with
  | String c rest => if is_space c then trim_start rest else s
  | EmptyString => s
  end.

Fixpoint trim_end (s : string) : string :=
  match s with
  | EmptyString => EmptyString
  | String c rest =>
      match trim_end rest with
      | EmptyString => if is_space c then EmptyString else String c EmptyString
      | r => String c r
      end
  end.

Definition strip (s : string) : string := trim_end (trim_start s).

Definition NaN : Z := Z.shiftl 4095 51.

(** ToNumber on strings holding an integer literal, on the empty array and
    on objects; everything else in the fragment is not a number. *)
Definition to_number (v : value) : option Z :=
  match v with
  | JStr s =>
      match strip s with
      | EmptyString => Some 0%Z
      | t =>
          match read_number t with
          | Some (JNum bits, EmptyString) => Some bits
          | _ => Some NaN
          end
      end
  | JArr [] => Some 0%Z
  | JObj fields =>
      match lookup "valueOf" fields, lookup "toString" fields with
      | None, None => Some NaN
      | _, Some _ => None
      | Some _, None => Some NaN
      end
  | _ => Some NaN
  end.

#[export] Instance host : Host := {|
  JSON_parse := parse;
  JSON_stringify := print 0;
  ToNumber := to_number;
  toLowerCase := lower;
  trim := strip;
  JSON_parse_empty := eq_refl
|}.

End RefHost.

(** ** Sample data *)

Module Samples.
Import App.

Definition acme : value :=
  JObj [("id", JStr "o1"); ("employer", JStr "Acme");
        ("position", JStr "Engineer")].

Definition call : value :=
  JObj [("id", JStr "a1"); ("opportunityId", JStr "o1");
        ("title", JStr "Screening call")].


Definition store (ops acts cs : list value) : State :=
  {| opportunities := JArr ops; activities := JArr acts;
     contacts := JArr cs; fileHandle := None; syncStatus := idle;
     hasUnsavedChanges := false; conflictData := None;
     saveTimer := false; written := [] |}.

Definition handle : FileSystemFileHandle := {| name := "job-hunt.json" |}.

(** The text [saveData] writes for a store. *)
Definition fileOf (st : State) : string := RefHost.print 0 (snapshot st).

(** A file whose [opportunities] member is a string. *)
Definition misshapen : string :=
  RefHost.print 0 (JObj [("opportunities", JStr "x")]).

(** Smart-entry samples. *)
Definition today : string := "2025-01-15".

Definition uuid (n : nat) : string :=
  "uuid-" ++ String (ascii_of_nat (48 + n)) EmptyString.

Definition sarahContact : Contact.t :=
  {| Contact.id := "c1"; Contact.name := "sarah";
     Contact.role := "Recruiter"; Contact.email := None;
     Contact.phone := None; Contact.company := "Acme";
     Contact.notes := None |}.

Definition candidate (n r : option string) : Contact.partial :=
  {| Contact.p_name := n; Contact.p_role := r;
     Contact.p_email := None; Contact.p_company := None |}.

Definition draft (t : option string) : Activity.partial :=
  {| Activity.p_title := t; Activity.p_type := None;
     Activity.p_date := None; Activity.p_contactIds := None;
     Activity.p_description := None; Activity.p_followUpAction := None;
     Activity.p_followUpDate := None |}.

Definition props (lock : option string) (cs : list Contact.t)
  : ActivityModal.Props :=
  {| ActivityModal.existingContacts := cs;
     ActivityModal.initialActivity := None;
     ActivityModal.opportunityId := lock;
     ActivityModal.opportunities := [] |}.

(** The form of a new activity after the user typed a description. *)
Definition typed (lock : option string) (cs : list Contact.t)
  : ActivityModal.State :=
  let s := ActivityModal.initNew today (props lock cs) in
  ActivityModal.with_formData s
    {| Activity.p_title := Some ""; Activity.p_type := Some ActivityType.OTHER;
       Activity.p_date := Some today; Activity.p_contactIds := Some [];
       Activity.p_description := Some "Screening call with Sarah";
       Activity.p_followUpAction := Some "";
       Activity.p_followUpDate := Some "" |}.

Definition extraction (isNew : bool) (matchId : option string)
  (cs : list Contact.partial) : ActivityModal.ParsedActivity :=
  {| ActivityModal.isNewOpportunity := isNew;
     ActivityModal.opportunityMatchId := matchId;
     ActivityModal.opportunityData := None;
     ActivityModal.activityData := Some (draft (Some "Screening call"));
     ActivityModal.contacts := Some cs |}.

(** A form staging a new opportunity at Acme and two extracted contacts,
    the second with nothing but an email. *)
Definition stagedForm : ActivityModal.State :=
  {| ActivityModal.formData :=
       {| Activity.p_title := Some "Screening call";
          Activity.p_type := Some ActivityType.OTHER;
          Activity.p_date := Some today; Activity.p_contactIds := Some ["c1"];
          Activity.p_description := Some "Screening call with Sarah";
          Activity.p_followUpAction := Some "";
          Activity.p_followUpDate := Some "" |};
     ActivityModal.isNewOp := true;
     ActivityModal.selectedOpId := "";
     ActivityModal.newOpData :=
       {| ActivityModal.employer := "Acme";
          ActivityModal.position := "Engineer";
          ActivityModal.role := "";
          ActivityModal.status := OpportunityStatus.IDENTIFIED |};
     ActivityModal.stagedContacts :=
       [ candidate (Some "Lee") (Some "Recruiter");
         {| Contact.p_name := None; Contact.p_role := None;
            Contact.p_email := Some "kim@acme.test";
            Contact.p_company := None |} ] |}.

Definition emptyStore : ActivityModal.Store :=
  {| ActivityModal.storeOpportunities := [];
     ActivityModal.storeActivities := [];
     ActivityModal.storeContacts := [sarahContact] |}.

End Samples.

(** ** Runs of the sync engine *)

Module Sync.
Import App.

Section Runs.
Context {host : Host}.

(** The events of a session, one after the other, for as long as no
    exception escapes. *)
Fixpoint run (st : State) (es : list event) : result State :=
  match es with
  | [] => Ok st
  | e :: rest => st' <- dispatch st e ;; run st' rest
  end.

End Runs.

(** A save is armed only on a connected file with no conflict pending. *)
Definition armed_ok (st : State) : Prop :=
  saveTimer st = true ->
  fileHandle st <> None /\ conflict_truthy (conflictData st) = false.

Definition is_connect (e : event) : bool :=
  match e with
  | ConnectFile _ _ => true
  | _ => false
  end.

(** The state of a fresh session: nothing connected, nothing pending. *)
Definition offline (st : State) : Prop :=
  fileHandle st = None /\ saveTimer st = false.

(** File data whose collections, where present, are arrays. *)
Definition array_shaped (fields : list (string * value)) : Prop :=
  array_or_absent (lookup "opportunities" fields)
  /\ array_or_absent (lookup "ops" fields)
  /\ array_or_absent (lookup "activities" fields)
  /\ array_or_absent (lookup "acts" fields)
  /\ array_or_absent (lookup "contacts" fields).


(** The elements of a member that is an array. *)
Definition items_of (m : option value) : list value :=
  match m with
  | Some (JArr l) => l
  | _ => []
  end.

(** [a || b || []] on members that are arrays or absent: an array, even an
    empty one, is truthy. *)
Definition first_present (a b : option value) : list value :=
  match a with
  | Some (JArr l) => l
  | _ => items_of b
  end.

End Sync.

(** ** Bookkeeping for runs *)

Module SyncAux.
Import App.

(** An update that connects a file. *)
Definition connects (u : update) : bool :=
  match u with
  | setFileHandle (Some _) => true
  | _ => false
  end.

(** What a batch of updates leaves alone unless it is flagged as touched:
    the timer always, the handle and the truthiness of the conflict data
    while their dependency is untouched. *)
Definition tracks (st0 : State) (acc : State * Touched) : Prop :=
  saveTimer (fst acc) = saveTimer st0
  /\ written (fst acc) = written st0
  /\ (t_fileHandle (snd acc) = false -> fileHandle (fst acc) = fileHandle st0)
  /\ (t_conflictData (snd acc) = false ->
      conflict_truthy (conflictData (fst acc))
      = conflict_truthy (conflictData st0)).

End SyncAux.

(** ** Sample conflicts *)

Module SyncSamples.
Import App Samples.

Definition globex : value :=
  JObj [("id", JStr "o2"); ("employer", JStr "Globex")].

Definition globexFile : list (string * value) :=
  [("opportunities", JArr [globex]); ("activities", JArr []);
   ("contacts", JArr [])].


(** The store holds Acme, the file Globex, and the prompt is up. *)
Definition conflicted (h : option FileSystemFileHandle)
  (fields : list (string * value)) : State :=
  {| opportunities := JArr [acme]; activities := JArr [call];
     contacts := JArr []; fileHandle := h; syncStatus := idle;
     hasUnsavedChanges := true; conflictData := Some (JObj fields);
     saveTimer := false; written := [] |}.

(** A connected store with a save armed. *)
Definition armed : State :=
  {| opportunities := JArr [acme]; activities := JArr [];
     contacts := JArr []; fileHandle := Some handle; syncStatus := saved;
     hasUnsavedChanges := true; conflictData := None;
     saveTimer := true; written := [] |}.

End SyncSamples.

(** ** [App]: edits of the contact and activity collections *)

Module AppData.
Import ActivityModal.

(** [handleSaveContact]: replace by identifier, or append. *)
Definition handleSaveContact (contact : Contact.t) (prev : list Contact.t)
  : list Contact.t :=
  match find (fun c => Contact.id c =? Contact.id contact) prev with
  | Some _ =>
      map (fun c => if Contact.id c =? Contact.id contact then contact else c)
        prev
  | None => (prev ++ [contact])%list
  end.

(** [handleDeleteContact] and [handleDeleteActivity]; [confirmed] is the
    answer to the confirmation dialog. *)
Definition handleDeleteContact (confirmed : bool) (id : string)
  (prev : list Contact.t) : list Contact.t :=
  if confirmed then filter (fun c => negb (Contact.id c =? id)) prev
  else prev.

Definition handleDeleteActivity (confirmed : bool) (id : string)
  (prev : list Activity.t) : list Activity.t :=
  if confirmed then filter (fun a => negb (Activity.id a =? id)) prev
  else prev.

(** The two deletions on the three collections. *)
Definition deleteContact (confirmed : bool) (id : string) (st : Store)
  : Store :=
  {| storeOpportunities := storeOpportunities st;
     storeActivities := storeActivities st;
     storeContacts := handleDeleteContact confirmed id (storeContacts st) |}.

Definition deleteActivity (confirmed : bool) (id : string) (st : Store)
  : Store :=
  {| storeOpportunities := storeOpportunities st;
     storeActivities := handleDeleteActivity confirmed id (storeActivities st);
     storeContacts := storeContacts st |}.

(** An activity refers to contact [id]. *)
Definition refersTo (id : string) (a : Activity.t) : Prop :=
  In id (Activity.contactIds a).

End AppData.

(** ** [ActivityModal]: form edits and the editing form *)

Module ModalEdits.
Import ActivityModal.

(** [toggleContact], the updater of the form data. *)
Definition toggleContact (contactId : string) (prev : Activity.partial)
  : Activity.partial :=
  let current := or_nil (Activity.p_contactIds prev) in
  if existsb (String.eqb contactId) current
  then with_contactIds prev
         (filter (fun id => negb (id =? contactId)) current)
  else with_contactIds prev (current ++ [contactId])%list.

(** [l.filter((_, i) => f(i))], counting from [i]. *)
Fixpoint filter_index {A : Type} (f : nat -> bool) (i : nat) (l : list A)
  : list A :=
  match l with
  | [] => []
  | x :: rest =>
      if f i then x :: filter_index f (S i) rest
      else filter_index f (S i) rest
  end.

(** [removeStagedContact]. *)
Definition removeStagedContact (idx : nat) (prev : list Contact.partial)
  : list Contact.partial :=
  filter_index (fun i => negb (i =? idx)%nat) 0 prev.

(** [s.split('T')[0]]: the text before the first [T]. *)
Fixpoint beforeT (s : string) : string :=
  match s with
  | EmptyString => EmptyString
  | String c rest =>
      if (nat_of_ascii c =? 84)%nat then EmptyString
      else String c (beforeT rest)
  end.

Definition hasT (s : string) : bool :=
  negb (String.length (beforeT s) =? String.length s)%nat.

(** The state the modal is mounted with. *)
Definition mounted (today : string) : State :=
  {| formData := blankForm today; isNewOp := false; selectedOpId := "";
     newOpData := emptyNewOpData; stagedContacts := [] |}.

(** The initialization effect when an activity is edited: the form takes
    the activity, the date cut to its day. *)
Definition initEdit (a : Activity.t) (s : State) : State :=
  {| formData :=
       {| Activity.p_title := Some (Activity.title a);
          Activity.p_type := Activity.type a;
          Activity.p_date :=
            Some (if hasT (Activity.date a) then beforeT (Activity.date a)
                  else Activity.date a);
          Activity.p_contactIds := Some (Activity.contactIds a);
          Activity.p_description := Some (Activity.description a);
          Activity.p_followUpAction := Activity.followUpAction a;
          Activity.p_followUpDate := Activity.followUpDate a |};
     isNewOp := false;
     selectedOpId := Activity.opportunityId a;
     newOpData := newOpData s;
     stagedContacts := stagedContacts s |}.

(** [openEditActivity] of [App]: the modal is opened on the activity,
    locked to its opportunity. *)
Definition editProps (a : Activity.t) (cs : list Contact.t)
  (ops : list Opportunity.t) : Props :=
  {| existingContacts := cs; initialActivity := Some a;
     opportunityId := Some (Activity.opportunityId a);
     opportunities := ops |}.

(** The activity an unchanged editing form saves. *)
Definition redated (a : Activity.t) : Activity.t :=
  {| Activity.id := Activity.id a;
     Activity.opportunityId := Activity.opportunityId a;
     Activity.title := Activity.title a;
     Activity.type := Activity.type a;
     Activity.date := beforeT (Activity.date a);
     Activity.contactIds := Activity.contactIds a;
     Activity.description := Activity.description a;
     Activity.followUpAction := Activity.followUpAction a;
     Activity.followUpDate := Activity.followUpDate a |}.

(** A field of the extracted opportunity data, if there is any. *)
Definition extracted (r : ActivityModal.ParsedActivity)
  (f : Opportunity.partial -> option string) : option string :=
  match ActivityModal.opportunityData r with
  | Some d => f d
  | None => None
  end.

End ModalEdits.

(** ** The component [ContactsModal] *)

Module ContactsModal.

(** The form data, a [Partial<Contact>]. *)
Record Form : Type := {
  f_id : option string; f_name : option string; f_role : option string;
  f_email : option string; f_phone : option string;
  f_company : option string; f_notes : option string
}.

(** [handleAddNew] and [handleEdit]. *)
Definition handleAddNew : Form :=
  {| f_id := None; f_name := None; f_role := None; f_email := None;
     f_phone := None; f_company := None; f_notes := None |}.

Definition handleEdit (c : Contact.t) : Form :=
  {| f_id := Some (Contact.id c); f_name := Some (Contact.name c);
     f_role := Some (Contact.role c); f_email := Contact.email c;
     f_phone := Contact.phone c; f_company := Some (Contact.company c);
     f_notes := Contact.notes c |}.

(** [handleSave]: the contact handed to [onSave], if any. *)
Definition handleSave (uuidv4 : nat -> string) (formData : Form)
  : option Contact.t :=
  if ActivityModal.truthy_str (f_name formData)
     && ActivityModal.truthy_str (f_company formData)
  then Some {| Contact.id := ActivityModal.or_lit (f_id formData) (uuidv4 0);
               Contact.name := ActivityModal.or_lit (f_name formData) "";
               Contact.role := ActivityModal.or_lit (f_role formData) "Contact";
               Contact.email := f_email formData;
               Contact.phone := None;
               Contact.company := ActivityModal.or_lit (f_company formData) "";
               Contact.notes := f_notes formData |}
  else None.

(** The contact an unchanged editing form saves: the phone is not carried
    over, and an empty role becomes "Contact". *)
Definition resaved (c : Contact.t) : Contact.t :=
  {| Contact.id := Contact.id c; Contact.name := Contact.name c;
     Contact.role := if Contact.role c =? "" then "Contact"
                     else Contact.role c;
     Contact.email := Contact.email c; Contact.phone := None;
     Contact.company := Contact.company c; Contact.notes := Contact.notes c |}.

(** Pressing save: [handleSave], then [handleSaveContact] of [App]. *)
Definition save (uuidv4 : nat -> string) (formData : Form)
  (contacts : list Contact.t) : list Contact.t :=
  match handleSave uuidv4 formData with
  | Some c => AppData.handleSaveContact c contacts
  | None => contacts
  end.

End ContactsModal.

(** ** [App]: the derived views *)

Module Views.

(** [s.includes(sub)]. *)
Fixpoint includes (s sub : string) : bool :=
  String.prefix sub s
  || match s with
     | EmptyString => false
     | String _ rest => includes rest sub
     end.

(** [l.sort(cmp)] for a comparator that orders consistently: the sort is
    stable, so its result is the one of inserting the elements, last
    first, before the first element they do not come after. *)
Fixpoint insertBy {A : Type} (cmp : A -> A -> Z) (x : A) (l : list A)
  : list A :=
  match l with
  | [] => [x]
  | y :: rest =>
      if (cmp x y <=? 0)%Z then x :: y :: rest
      else y :: insertBy cmp x rest
  end.

Definition sortBy {A : Type} (cmp : A -> A -> Z) (l : list A) : list A :=
  fold_right (insertBy cmp) [] l.

Section Derived.
Context {host : Host}.
(** [String.prototype.localeCompare]. *)
Variable localeCompare : string -> string -> Z.

(** [(a, b) => b.date.localeCompare(a.date)]. *)
Definition newestFirst (a b : Activity.t) : Z :=
  localeCompare (Activity.date b) (Activity.date a).

Definition opportunityOf (opportunities : list Opportunity.t)
  (act : Activity.t) : option Opportunity.t :=
  find (fun o => Opportunity.id o =? Activity.opportunityId act)
    opportunities.

(** The filters of the top bar. *)
Record Filters : Type := {
  filterText : string;
  selectedEmployer : string;
  selectedContact : string
}.

Definition noFilters : Filters :=
  {| filterText := ""; selectedEmployer := "All"; selectedContact := "All" |}.

(** The predicate of [filteredActivities]. *)
Definition shown (opportunities : list Opportunity.t) (f : Filters)
  (act : Activity.t) : bool :=
  match opportunityOf opportunities act with
  | None => false
  | Some op =>
      let q := toLowerCase (filterText f) in
      let matchesText :=
        includes (toLowerCase (Activity.title act)) q
        || includes (toLowerCase (Opportunity.employer op)) q
        || includes (toLowerCase (Activity.description act)) q in
      let matchesEmployer :=
        (selectedEmployer f =? "All")
        || (Opportunity.employer op =? selectedEmployer f) in
      let matchesContact :=
        (selectedContact f =? "All")
        || existsb (String.eqb (selectedContact f))
             (Activity.contactIds act) in
      matchesText && matchesEmployer && matchesContact
  end.

Definition filteredActivities (opportunities : list Opportunity.t)
  (activities : list Activity.t) (f : Filters) : list Activity.t :=
  sortBy newestFirst (filter (shown opportunities f) activities).

(** [focusedOpportunity] and [focusedActivities]. *)
Definition focusedOpportunity (opportunities : list Opportunity.t)
  (focusedOpportunityId : option string) : option Opportunity.t :=
  match focusedOpportunityId with
  | Some id => find (fun o => Opportunity.id o =? id) opportunities
  | None => None
  end.

Definition focusedActivities (opportunities : list Opportunity.t)
  (activities : list Activity.t) (focusedOpportunityId : option string)
  : list Activity.t :=
  match focusedOpportunity opportunities focusedOpportunityId with
  | Some o =>
      sortBy newestFirst
        (filter (fun a => Activity.opportunityId a =? Opportunity.id o)
           activities)
  | None => []
  end.

(** [employers]: the facet values. *)
Definition employers (opportunities : list Opportunity.t) : list string :=
  "All" :: ActivityModal.uniq (map Opportunity.employer opportunities).

(** [uniqueContacts]: the contacts some activity refers to, by name. *)
Definition uniqueContacts (activities : list Activity.t)
  (contacts : list Contact.t) : list Contact.t :=
  sortBy (fun a b => localeCompare (Contact.name a) (Contact.name b))
    (filter (fun c =>
               existsb (String.eqb (Contact.id c))
                 (flat_map Activity.contactIds activities))
       contacts).

(** The date of the latest activity of an opportunity, ['0000'] without
    one. *)
Definition lastActivity (activities : list Activity.t) (o : Opportunity.t)
  : string :=
  match sortBy newestFirst
          (filter (fun ac => Activity.opportunityId ac =? Opportunity.id o)
             activities) with
  | a :: _ => if Activity.date a =? "" then "0000" else Activity.date a
  | [] => "0000"
  end.

(** The rows of the PDF log, the contact names not yet joined. *)
Record Row : Type := {
  r_date : string; r_title : string; r_type : option string;
  r_opportunity : string; r_notes : string; r_contacts : list string
}.

Definition tableData (opportunities : list Opportunity.t)
  (activities : list Activity.t) (contacts : list Contact.t) : list Row :=
  map (fun act =>
         {| r_date := ModalEdits.beforeT (Activity.date act);
            r_title := Activity.title act;
            r_type := Activity.type act;
            r_opportunity :=
              match opportunityOf opportunities act with
              | Some op =>
                  Opportunity.employer op ++ " - " ++ Opportunity.position op
              | None => "General"
              end;
            r_notes := Activity.description act;
            r_contacts :=
              map Contact.name
                (filter (fun c =>
                           existsb (String.eqb (Contact.id c))
                             (Activity.contactIds act))
                   contacts) |})
    (sortBy newestFirst activities).

End Derived.

(** [a] does not come after [b]. *)
Definition before {A : Type} (cmp : A -> A -> Z) (a b : A) : Prop :=
  (cmp a b <= 0)%Z.

(** A comparator orders consistently: any two elements are comparable,
    and coming before is transitive. *)
Definition consistent {A : Type} (cmp : A -> A -> Z) : Prop :=
  (forall a b, (cmp a b <= 0)%Z \/ (cmp b a <= 0)%Z)
  /\ (forall a b c, (cmp a b <= 0)%Z -> (cmp b c <= 0)%Z -> (cmp a c <= 0)%Z).

End Views.

(** ** [App]: the opportunity roster *)

Module RosterView.
Import Views Roster.

(** The per-column filters. *)
Record ColumnFilters : Type := {
  cf_employer : string; cf_role : string; cf_status : string
}.

Definition noColumnFilters : ColumnFilters :=
  {| cf_employer := ""; cf_role := ""; cf_status := "" |}.

(** [a[sortConfig.key]] for the three columns that are fields. *)
Definition field (k : SortKey) (o : Opportunity.t) : string :=
  match k with
  | employer => Opportunity.employer o
  | role => Opportunity.role o
  | status => Opportunity.status o
  | lastActivity => ""
  end.

(** A comparison result under a direction. *)
Definition directed (d : Direction) (z : Z) : Z :=
  match d with
  | asc => z
  | desc => (- z)%Z
  end.

Section Roster.
Context {host : Host}.
Variable localeCompare : string -> string -> Z.

(** The predicate of [filteredOpportunities]. *)
Definition listed (f : Filters) (cf : ColumnFilters) (op : Opportunity.t)
  : bool :=
  let q := toLowerCase (filterText f) in
  let matchesText :=
    includes (toLowerCase (Opportunity.employer op)) q
    || includes (toLowerCase (Opportunity.position op)) q in
  let matchesEmployer :=
    (selectedEmployer f =? "All")
    || (Opportunity.employer op =? selectedEmployer f) in
  let matchesColEmployer :=
    includes (toLowerCase (Opportunity.employer op))
      (toLowerCase (cf_employer cf)) in
  let matchesColRole :=
    includes (toLowerCase (Opportunity.role op)) (toLowerCase (cf_role cf)) in
  let matchesColStatus :=
    (cf_status cf =? "") || (Opportunity.status op =? cf_status cf) in
  matchesText && matchesEmployer && matchesColEmployer && matchesColRole
  && matchesColStatus.

(** The comparator of the roster sort; [<] and [>] on the lower-cased
    values compare them byte by byte. *)
Definition rosterCompare (activities : list Activity.t)
  (sortConfig : SortConfig) (a b : Opportunity.t) : Z :=
  match key sortConfig with
  | lastActivity =>
      let lastActA := Views.lastActivity localeCompare activities a in
      let lastActB := Views.lastActivity localeCompare activities b in
      match direction sortConfig with
      | asc => localeCompare lastActA lastActB
      | desc => localeCompare lastActB lastActA
      end
  | k =>
      let valA := toLowerCase (field k a) in
      let valB := toLowerCase (field k b) in
      if String.ltb valA valB then directed (direction sortConfig) (-1)
      else if String.ltb valB valA then directed (direction sortConfig) 1
      else 0%Z
  end.

Definition filteredOpportunities (opportunities : list Opportunity.t)
  (activities : list Activity.t) (f : Filters) (cf : ColumnFilters)
  (sortConfig : SortConfig) : list Opportunity.t :=
  sortBy (rosterCompare activities sortConfig)
    (filter (listed f cf) opportunities).

End Roster.

End RosterView.

(** ** Sample records *)

Module RecordSamples.
Import Samples.

(** Comparison of strings byte by byte, standing for [localeCompare]. *)
Definition byteCompare (a b : string) : Z :=
  match String.compare a b with
  | Lt => (-1)%Z
  | Eq => 0%Z
  | Gt => 1%Z
  end.

Definition acmeOpp : Opportunity.t :=
  {| Opportunity.id := "o1"; Opportunity.position := "Engineer";
     Opportunity.role := "Software Engineer"; Opportunity.employer := "Acme";
     Opportunity.description := None; Opportunity.status := "Applied";
     Opportunity.createdAt := "2025-01-02";
     Opportunity.updatedAt := "2025-01-02" |}.

Definition globexOpp : Opportunity.t :=
  {| Opportunity.id := "o2"; Opportunity.position := "Analyst";
     Opportunity.role := "Data Analyst"; Opportunity.employer := "globex";
     Opportunity.description := None; Opportunity.status := "Identified";
     Opportunity.createdAt := "2025-01-03";
     Opportunity.updatedAt := "2025-01-03" |}.

Definition activityOn (id opp date : string) (cs : list string)
  : Activity.t :=
  {| Activity.id := id; Activity.opportunityId := opp;
     Activity.title := "Call"; Activity.type := Some "Interview";
     Activity.date := date; Activity.contactIds := cs;
     Activity.description := "Spoke with the recruiter";
     Activity.followUpAction := None; Activity.followUpDate := None |}.

Definition screening : Activity.t := activityOn "a1" "o1" "2025-01-10" ["c1"].
Definition interview : Activity.t := activityOn "a2" "o1" "2025-01-14" [].
Definition orphan : Activity.t := activityOn "a3" "gone" "2025-01-12" [].

Definition withPhone : Contact.t :=
  {| Contact.id := "c2"; Contact.name := "Lee"; Contact.role := "";
     Contact.email := None; Contact.phone := Some "555-0100";
     Contact.company := "Globex"; Contact.notes := None |}.

Definition sampleStore : ActivityModal.Store :=
  {| ActivityModal.storeOpportunities := [acmeOpp];
     ActivityModal.storeActivities := [screening; interview];
     ActivityModal.storeContacts := [sarahContact] |}.

(** A form with a title, opened without a lock, an opportunity
    selected. *)
Definition selectedForm : ActivityModal.State :=
  {| ActivityModal.formData :=
       {| Activity.p_title := Some "Call"; Activity.p_type := Some "Other";
          Activity.p_date := Some today; Activity.p_contactIds := Some ["c1"];
          Activity.p_description := Some "Spoke with the recruiter";
          Activity.p_followUpAction := Some "";
          Activity.p_followUpDate := Some "" |};
     ActivityModal.isNewOp := false;
     ActivityModal.selectedOpId := "o1";
     ActivityModal.newOpData := ActivityModal.emptyNewOpData;
     ActivityModal.stagedContacts := [] |}.

(** The typed form after the extraction suggested the opportunity [m] as a
    match, on the reference host. *)
Definition suggested (m : string) : ActivityModal.State :=
  match @ActivityModal.handleAutoFill RefHost.host today
          (props None [sarahContact])
          (Some (extraction false (Some m) []))
          (typed None [sarahContact]) with
  | Ok s => s
  | Throw _ => typed None [sarahContact]
  end.

End RecordSamples.

(** ** [App]: the view state *)

Module UI.

Inductive ViewMode : Type := timeline | opportunities.

Inductive Layout : Type := list | grid.

(** The state variables of [App] that select what is shown.  The theme is
    one of [THEMES].  [ContactsModal] and [ActivityModal] cover the page
    while they are open, so both are closed whenever a file is selected or
    the conflict prompt is answered. *)
Record View : Type := {
  viewMode : ViewMode;
  opLayout : Layout;
  focusedOpportunityId : option string;
  filterText : string;
  selectedEmployer : string;
  selectedContact : string;
  sortConfig : Roster.SortConfig;
  columnFilters : RosterView.ColumnFilters
}.

(** The view [App] starts with. *)
Definition initial : View :=
  {| viewMode := timeline; opLayout := list; focusedOpportunityId := None;
     filterText := ""; selectedEmployer := "All"; selectedContact := "All";
     sortConfig := Roster.initialSortConfig;
     columnFilters := RosterView.noColumnFilters |}.

End UI.

(** ** [App]: the render

    Every commit is followed by a render of [App]: the memoised views are
    computed from the three collections, and the page is built from them.
    The collections hold what a file put there, so a method call on a
    value that lacks the method, a property read on [null], a conversion
    to text of an object with a member [toString], or an object used as
    the child of an element throws; no error boundary is mounted, so
    React then removes the application and no effect runs.

    The model keeps what a render comes to, not the page.  Where that
    depends on the host (which pairs [sort] hands to its comparator, which
    element it puts first, the digits of a number) the outcome is left
    unspecified. *)

Module Render.
Import App.

Inductive outcome (A : Type) : Type :=
| Done (a : A)
| Thrown
| Unspecified.
Arguments Done {A} a.
Arguments Thrown {A}.
Arguments Unspecified {A}.

Definition andThen {A B : Type} (m : outcome A) (k : A -> outcome B)
  : outcome B :=
  match m with
  | Done a => k a
  | Thrown => Thrown
  | Unspecified => Unspecified
  end.

Notation "x <~ m ;; k" := (andThen m (fun x => k))
  (at level 61, m at next level, right associativity).
Notation "'ensure' m ;; k" := (andThen m (fun _ => k))
  (at level 61, m at next level, right associativity).

Definition lift {A : Type} (r : result A) : outcome A :=
  match r with
  | Ok a => Done a
  | Throw _ => Thrown
  end.

Fixpoint mapM {A B : Type} (f : A -> outcome B) (l : list A)
  : outcome (list B) :=
  match l with
  | [] => Done []
  | x :: rest => y <~ f x ;; ys <~ mapM f rest ;; Done (y :: ys)
  end.

Fixpoint filterM {A : Type} (f : A -> outcome bool) (l : list A)
  : outcome (list A) :=
  match l with
  | [] => Done []
  | x :: rest =>
      b <~ f x ;; ys <~ filterM f rest ;; Done (if b then x :: ys else ys)
  end.

Fixpoint findM {A : Type} (f : A -> outcome bool) (l : list A)
  : outcome (option A) :=
  match l with
  | [] => Done None
  | x :: rest => b <~ f x ;; if b then Done (Some x) else findM f rest
  end.

Fixpoint forEach {A : Type} (f : A -> outcome unit) (l : list A)
  : outcome unit :=
  match l with
  | [] => Done tt
  | x :: rest => ensure f x ;; forEach f rest
  end.

(** *** Values *)

(** The receiver of [map], [filter], [find] or [flatMap]. *)
Definition items (v : value) : outcome (list value) :=
  match v with
  | JArr l => Done l
  | _ => Thrown
  end.

(** [v.k] for the fields of the three record types. *)
Definition prop (v : value) (k : string) : outcome (option value) :=
  lift (get v k).

(** The receiver of [toLowerCase], [charAt], [split] or [localeCompare]. *)
Definition asString (v : option value) : outcome string :=
  match v with
  | Some (JStr s) => Done s
  | _ => Thrown
  end.

Definition sameNumber (a b : Z) : bool :=
  negb (double_is_nan a) && negb (double_is_nan b)
  && ((a =? b)%Z || double_is_zero a && double_is_zero b).

(** [a === b] on values read from two records: arrays and objects are two
    references. *)
Definition strictEq (a b : option value) : bool :=
  match a, b with
  | None, None => true
  | Some JNull, Some JNull => true
  | Some (JBool x), Some (JBool y) => Bool.eqb x y
  | Some (JNum x), Some (JNum y) => sameNumber x y
  | Some (JStr x), Some (JStr y) => (x =? y)%string
  | _, _ => false
  end.

(** SameValueZero, the comparison of [Set] and of [Array.prototype.includes]. *)
Definition sameValueZero (a b : option value) : bool :=
  strictEq a b
  || match a, b with
     | Some (JNum x), Some (JNum y) => double_is_nan x && double_is_nan y
     | _, _ => false
     end.

(** A value converts to text unless it is, or as an array holds, an object
    with a member [toString]: that member is not a function, and
    [valueOf] answers the object itself. *)
Fixpoint stringable (v : value) : bool :=
  match v with
  | JArr l => forallb stringable l
  | JObj fields =>
      match lookup "toString" fields with
      | Some _ => false
      | None => true
      end
  | _ => true
  end.

(** ToString, where only its completion matters: a template literal, the
    argument of a string method or of [new Date], a [key], the [value] of
    an [option]. *)
Definition ToString (v : option value) : outcome unit :=
  match v with
  | Some x => if stringable x then Done tt else Thrown
  | None => Done tt
  end.

(** A child of an element: text, nothing, or an array of children; React
    throws on an object. *)
Fixpoint renderable (v : value) : bool :=
  match v with
  | JArr l => forallb renderable l
  | JObj _ => false
  | _ => true
  end.

Definition child (v : option value) : outcome unit :=
  match v with
  | Some x => if renderable x then Done tt else Thrown
  | None => Done tt
  end.

(** [{v.k}]. *)
Definition childProp (v : value) (k : string) : outcome unit :=
  x <~ prop v k ;; child x.

(** [key={v.id}]. *)
Definition keyProp (v : value) : outcome unit :=
  x <~ prop v "id" ;; ToString x.

(** [recv.includes(arg)]: a string searches for the text of [arg], an
    array for [arg] itself. *)
Definition includes (recv arg : option value) : outcome bool :=
  match recv with
  | Some (JStr s) =>
      match arg with
      | Some (JStr t) => Done (Views.includes s t)
      | _ => ensure ToString arg ;; Unspecified
      end
  | Some (JArr l) => Done (existsb (fun x => sameValueZero (Some x) arg) l)
  | _ => Thrown
  end.

Definition done {A : Type} (r : outcome A) : bool :=
  match r with
  | Done _ => true
  | _ => false
  end.

Definition thrown {A : Type} (r : outcome A) : bool :=
  match r with
  | Thrown => true
  | _ => false
  end.

(** What several possible runs come to, when they agree. *)
Definition agree (rs : list (outcome unit)) : outcome unit :=
  if forallb done rs then Done tt
  else if forallb thrown rs then Thrown
  else Unspecified.

(** [l.sort(cmp)], as far as the calls of [cmp] go: none below two
    elements, otherwise at least one, on pairs the host chooses. *)
Definition sort {A : Type} (cmp : A -> A -> outcome unit) (l : list A)
  : outcome (list A) :=
  match l with
  | [] | [_] => Done l
  | _ =>
      ensure agree (map (fun p => cmp (fst p) (snd p)) (list_prod l l)) ;;
      Done l
  end.

(** [sorted[0]] handed to [k]: the host chooses which element comes
    first. *)
Definition first {A : Type} (sorted : list A) (k : option A -> outcome unit)
  : outcome unit :=
  match sorted with
  | [] => k None
  | [x] => k (Some x)
  | _ => agree (map (fun x => k (Some x)) sorted)
  end.

(** [(a, b) => b.date.localeCompare(a.date)]. *)
Definition newestFirst (a b : value) : outcome unit :=
  bd <~ prop b "date" ;;
  ensure asString bd ;;
  ad <~ prop a "date" ;;
  ToString ad.

(** [d.includes('T') ? d : d + 'T00:00:00'] handed to [new Date]. *)
Definition isoDate (d : option value) : outcome unit :=
  ensure includes d (Some (JStr "T")) ;; ToString d.

(** [flatMap]: a result that is an array is spread, any other is kept. *)
Definition flat (vs : list (option value)) : list (option value) :=
  flat_map (fun v => match v with
                     | Some (JArr l) => map Some l
                     | _ => [v]
                     end) vs.

(** [Array.from(new Set(vs))]. *)
Fixpoint uniq (seen vs : list (option value)) : list (option value) :=
  match vs with
  | [] => []
  | v :: rest =>
      if existsb (sameValueZero v) seen then uniq seen rest
      else v :: uniq (v :: seen) rest
  end.

(** [activities.filter(a => a.opportunityId === o.id)]. *)
Definition activitiesOf (activities o : value) : outcome (list value) :=
  acts <~ items activities ;;
  filterM (fun a =>
             oid <~ prop a "opportunityId" ;;
             id <~ prop o "id" ;;
             Done (strictEq oid id)) acts.

Definition keyName (k : Roster.SortKey) : string :=
  match k with
  | Roster.employer => "employer"
  | Roster.role => "role"
  | Roster.status => "status"
  | Roster.lastActivity => "lastActivity"
  end.

(** A JSON value other than [null] without the members the reconciliation
    counts, such as an empty object, an array or a number. *)
Definition memberless (v : value) : Prop :=
  match v with
  | JNull => False
  | JObj fields =>
      lookup "opportunities" fields = None /\ lookup "ops" fields = None
      /\ lookup "activities" fields = None /\ lookup "acts" fields = None
  | _ => True
  end.

Section Page.
Context {host : Host}.
Variable ui : UI.View.

Definition lower (v : option value) : outcome string :=
  s <~ asString v ;; Done (toLowerCase s).

(** *** The memoised views *)

Definition employers (opportunities : value) : outcome (list (option value)) :=
  ops <~ items opportunities ;;
  es <~ mapM (fun o => prop o "employer") ops ;;
  Done (Some (JStr "All") :: uniq [] es).

Definition uniqueContacts (activities contacts : value)
  : outcome (list value) :=
  acts <~ items activities ;;
  ids <~ mapM (fun a => prop a "contactIds") acts ;;
  let activeContactIds := uniq [] (flat ids) in
  cs <~ items contacts ;;
  active <~ filterM (fun c =>
                       id <~ prop c "id" ;;
                       Done (existsb (sameValueZero id) activeContactIds))
              cs ;;
  sort (fun a b =>
          an <~ prop a "name" ;;
          ensure asString an ;;
          bn <~ prop b "name" ;;
          ToString bn) active.

(** [opportunities.find(o => o.id === act.opportunityId)]. *)
Definition opportunityOf (opportunities act : value)
  : outcome (option value) :=
  ops <~ items opportunities ;;
  findM (fun o =>
           id <~ prop o "id" ;;
           oid <~ prop act "opportunityId" ;;
           Done (strictEq id oid)) ops.

(** The predicate of [filteredActivities]. *)
Definition matches (opportunities act : value) : outcome bool :=
  found <~ opportunityOf opportunities act ;;
  match found with
  | None => Done false
  | Some op =>
      if negb (truthy op) then Done false
      else
        let q := toLowerCase (UI.filterText ui) in
        title <~ prop act "title" ;;
        t <~ lower title ;;
        matchesText <~
          (if Views.includes t q then Done true
           else
             employer <~ prop op "employer" ;;
             e <~ lower employer ;;
             if Views.includes e q then Done true
             else
               description <~ prop act "description" ;;
               d <~ lower description ;;
               Done (Views.includes d q)) ;;
        employer <~ prop op "employer" ;;
        let matchesEmployer :=
          (UI.selectedEmployer ui =? "All")
          || strictEq employer (Some (JStr (UI.selectedEmployer ui))) in
        matchesContact <~
          (if UI.selectedContact ui =? "All" then Done true
           else
             contactIds <~ prop act "contactIds" ;;
             includes contactIds (Some (JStr (UI.selectedContact ui)))) ;;
        Done (matchesText && matchesEmployer && matchesContact)
  end.

Definition filteredActivities (opportunities activities : value)
  : outcome (list value) :=
  acts <~ items activities ;;
  kept <~ filterM (matches opportunities) acts ;;
  sort newestFirst kept.

(** The predicate of [filteredOpportunities]. *)
Definition listed (op : value) : outcome bool :=
  let q := toLowerCase (UI.filterText ui) in
  let cf := UI.columnFilters ui in
  employer <~ prop op "employer" ;;
  e <~ lower employer ;;
  matchesText <~
    (if Views.includes e q then Done true
     else
       position <~ prop op "position" ;;
       p <~ lower position ;;
       Done (Views.includes p q)) ;;
  let matchesEmployer :=
    (UI.selectedEmployer ui =? "All")
    || strictEq employer (Some (JStr (UI.selectedEmployer ui))) in
  let matchesColEmployer :=
    Views.includes e (toLowerCase (RosterView.cf_employer cf)) in
  role <~ prop op "role" ;;
  r <~ lower role ;;
  let matchesColRole :=
    Views.includes r (toLowerCase (RosterView.cf_role cf)) in
  status <~ prop op "status" ;;
  let matchesColStatus :=
    (RosterView.cf_status cf =? "")
    || strictEq status (Some (JStr (RosterView.cf_status cf))) in
  Done (matchesText && matchesEmployer && matchesColEmployer
        && matchesColRole && matchesColStatus).

(** [sorted[0]?.date || '0000'] handed to [k]. *)
Definition lastActivity (activities o : value)
  (k : option value -> outcome unit) : outcome unit :=
  own <~ activitiesOf activities o ;;
  sorted <~ sort newestFirst own ;;
  first sorted
    (fun x =>
       match x with
       | None | Some JNull => k (Some (JStr "0000"))
       | Some a =>
           d <~ prop a "date" ;;
           k (if truthy_opt d then d else Some (JStr "0000"))
       end).

(** The comparator of the roster sort. *)
Definition rosterCompare (activities a b : value) : outcome unit :=
  match Roster.key (UI.sortConfig ui) with
  | Roster.lastActivity =>
      lastActivity activities a
        (fun lastActA =>
           lastActivity activities b
             (fun lastActB =>
                match Roster.direction (UI.sortConfig ui) with
                | Roster.asc => ensure asString lastActA ;; ToString lastActB
                | Roster.desc => ensure asString lastActB ;; ToString lastActA
                end))
  | k =>
      valA <~ prop a (keyName k) ;;
      ensure ToString (if truthy_opt valA then valA else Some (JStr "")) ;;
      valB <~ prop b (keyName k) ;;
      ToString (if truthy_opt valB then valB else Some (JStr ""))
  end.

Definition filteredOpportunities (opportunities activities : value)
  : outcome (list value) :=
  ops <~ items opportunities ;;
  filtered <~ filterM listed ops ;;
  sort (rosterCompare activities) filtered.

Definition focusedOpportunity (opportunities : value)
  : outcome (option value) :=
  let focused :=
    match UI.focusedOpportunityId ui with
    | Some id => JStr id
    | None => JNull
    end in
  ops <~ items opportunities ;;
  findM (fun o => id <~ prop o "id" ;; Done (strictEq id (Some focused))) ops.

Definition focusedActivities (focusedOpportunity : option value)
  (activities : value) : outcome (list value) :=
  match focusedOpportunity with
  | Some o =>
      if truthy o then
        own <~ activitiesOf activities o ;; sort newestFirst own
      else Done []
  | None => Done []
  end.

(** *** The page *)

(** The component [ActivityCard]. *)
Definition ActivityCard (activity : value) (opportunity : option value)
  (showOppContext : bool) (contacts : value) : outcome unit :=
  cs <~ items contacts ;;
  activityContacts <~
    filterM (fun c =>
               contactIds <~ prop activity "contactIds" ;;
               id <~ prop c "id" ;;
               includes contactIds id) cs ;;
  date <~ prop activity "date" ;;
  ensure isoDate date ;;
  ensure childProp activity "title" ;;
  ensure childProp activity "type" ;;
  ensure (if showOppContext then
            match opportunity with
            | Some o =>
                if truthy o then
                  ensure childProp o "employer" ;; childProp o "position"
                else Done tt
            | None => Done tt
            end
          else Done tt) ;;
  ensure childProp activity "description" ;;
  ensure forEach (fun contact =>
                    ensure keyProp contact ;;
                    name <~ prop contact "name" ;;
                    ensure ToString name ;;
                    role <~ prop contact "role" ;;
                    ensure ToString role ;;
                    ensure asString name ;;
                    Done tt) activityContacts ;;
  followUpDate <~ prop activity "followUpDate" ;;
  if truthy_opt followUpDate then isoDate followUpDate else Done tt.

(** [{x.length}]. *)
Definition count (s : shown) : outcome unit :=
  match s with
  | ShownValue v => child v
  | _ => Done tt
  end.

(** The sidebar: the two counts. *)
Definition sidebar (opportunities contacts : value) : outcome unit :=
  ensure count (length_of opportunities) ;;
  count (length_of contacts).

(** The two facet selects of the timeline. *)
Definition facets (employers : list (option value))
  (uniqueContacts : list value) : outcome unit :=
  ensure forEach (fun emp => ensure ToString emp ;; child emp) employers ;;
  forEach (fun c => ensure keyProp c ;; childProp c "name") uniqueContacts.

Definition timelinePane (filteredActivities : list value)
  (opportunities contacts : value) : outcome unit :=
  forEach (fun activity =>
             opportunity <~ opportunityOf opportunities activity ;;
             ensure keyProp activity ;;
             ensure prop activity "type" ;;
             ActivityCard activity opportunity true contacts)
    filteredActivities.

(** A row of the roster table. *)
Definition tableRow (activities op : value) : outcome unit :=
  own <~ activitiesOf activities op ;;
  sorted <~ sort newestFirst own ;;
  ensure keyProp op ;;
  ensure childProp op "employer" ;;
  ensure childProp op "role" ;;
  ensure childProp op "status" ;;
  first sorted
    (fun lastAct =>
       match lastAct with
       | Some a =>
           if truthy a then
             d <~ prop a "date" ;; ensure asString d ;; Done tt
           else Done tt
       | None => Done tt
       end).

(** A card of the roster grid; its activities are ordered by
    [new Date(b.date).getTime() - new Date(a.date).getTime()]. *)
Definition gridCard (activities op : value) : outcome unit :=
  own <~ activitiesOf activities op ;;
  opActivities <~
    sort (fun a b =>
            bd <~ prop b "date" ;;
            ensure ToString bd ;;
            ad <~ prop a "date" ;;
            ToString ad) own ;;
  ensure keyProp op ;;
  ensure childProp op "employer" ;;
  ensure childProp op "role" ;;
  ensure childProp op "position" ;;
  ensure childProp op "status" ;;
  ensure childProp op "description" ;;
  first opActivities
    (fun latest =>
       match latest with
       | Some a =>
           d <~ prop a "date" ;;
           ensure asString d ;;
           childProp a "title"
       | None => Done tt
       end).

Definition rosterPane (filteredOpportunities : list value)
  (activities : value) : outcome unit :=
  match UI.opLayout ui with
  | UI.list => forEach (tableRow activities) filteredOpportunities
  | UI.grid => forEach (gridCard activities) filteredOpportunities
  end.

Definition detailPane (focusedOpportunity : value)
  (focusedActivities : list value) (contacts : value) : outcome unit :=
  ensure childProp focusedOpportunity "employer" ;;
  ensure childProp focusedOpportunity "role" ;;
  ensure childProp focusedOpportunity "position" ;;
  ensure childProp focusedOpportunity "createdAt" ;;
  ensure childProp focusedOpportunity "status" ;;
  ensure childProp focusedOpportunity "description" ;;
  forEach (fun act =>
             ensure keyProp act ;;
             ActivityCard act None false contacts) focusedActivities.

Definition focusedTruthy : bool :=
  match UI.focusedOpportunityId ui with
  | Some id => negb (id =? "")
  | None => false
  end.

(** The body of [App] up to the modals. *)
Definition page (opportunities activities contacts : value) : outcome unit :=
  emps <~ employers opportunities ;;
  ucs <~ uniqueContacts activities contacts ;;
  fas <~ filteredActivities opportunities activities ;;
  fos <~ filteredOpportunities opportunities activities ;;
  fo <~ focusedOpportunity opportunities ;;
  facts <~ focusedActivities fo activities ;;
  ensure sidebar opportunities contacts ;;
  match UI.viewMode ui with
  | UI.timeline =>
      ensure facets emps ucs ;;
      timelinePane fas opportunities contacts
  | UI.opportunities =>
      ensure (if focusedTruthy then Done tt else rosterPane fos activities) ;;
      match fo with
      | Some o => if truthy o then detailPane o facts contacts else Done tt
      | None => Done tt
      end
  end.

(** The two counts of one side of the conflict prompt. *)
Definition displayed (stats : shown * shown) : outcome unit :=
  ensure count (fst stats) ;; count (snd stats).

(** The component [ConflictModal]. *)
Definition ConflictModal (localStats fileStats : shown * shown)
  : outcome unit :=
  ensure displayed localStats ;; displayed fileStats.

(** The conflict prompt, rendered while [conflictData] is truthy. *)
Definition prompt (st : State) : outcome unit :=
  match conflictModal st with
  | Some (localStats, fileStats) => ConflictModal localStats fileStats
  | None => Done tt
  end.

Definition render (st : State) : outcome unit :=
  ensure page (opportunities st) (activities st) (contacts st) ;;
  prompt st.

(** *** Commits that are rendered *)

(** A batch of updates is committed and rendered; the effects run after a
    render that completed, and what they set is rendered in turn. *)
Definition present (st : State) (us : list update) : outcome State :=
  let (st1, t) := apply_updates st us in
  ensure render st1 ;;
  us' <~ lift (unsavedEffect t st1) ;;
  let st2 := fst (apply_updates (autoSaveEffect t st1) us') in
  ensure render st2 ;;
  Done st2.

(** An event of the sync engine on the mounted application: [Done] is the
    state it is left mounted with, [Thrown] that a render threw and the
    application is gone.  What a handler itself throws is logged, in
    [handleConnectFile], or escapes the callback; either way nothing was
    set and the application stays as it was. *)
Definition step (st : State) (e : event) : outcome State :=
  match e with
  | ConnectFile text handle =>
      match processFileContent st text (Some handle) with
      | Ok us => present st us
      | Throw _ => Done st
      end
  | ManualImport text =>
      match processFileContent st text None with
      | Ok us => present st us
      | Throw _ => Done st
      end
  | KeepLocal => present st (handleKeepLocal st)
  | ImportFile =>
      match handleImportFile st with
      | Ok us => present st us
      | Throw _ => Done st
      end
  | Cancel => present st (handleCancel st)
  | TimerFired ok =>
      let st' := saveData st ok in
      ensure render st' ;; Done st'
  end.

End Page.

End Render.

(** ** Sample records as a file holds them *)

Module RenderSamples.
Import App Samples.

(** Records that carry the fields of their interfaces. *)
Definition acmeRecord : value :=
  JObj [("id", JStr "o1"); ("position", JStr "Engineer");
        ("role", JStr "Software Engineer"); ("employer", JStr "Acme");
        ("status", JStr "Applied"); ("createdAt", JStr "2025-01-02");
        ("updatedAt", JStr "2025-01-02")].

Definition callRecord : value :=
  JObj [("id", JStr "a1"); ("opportunityId", JStr "o1");
        ("title", JStr "Screening call"); ("type", JStr "Interview");
        ("date", JStr "2025-01-10"); ("contactIds", JArr [JStr "c1"]);
        ("description", JStr "Spoke with the recruiter")].

Definition sarahRecord : value :=
  JObj [("id", JStr "c1"); ("name", JStr "Sarah");
        ("role", JStr "Recruiter"); ("company", JStr "Acme")].

(** A store with one opportunity, one activity on it and its contact. *)
Definition tracked : State := store [acmeRecord] [callRecord] [sarahRecord].

(** A file whose activities are an object whose length is an object. *)
Definition uncountable : string :=
  RefHost.print 0
    (JObj [("opportunities", JArr []);
           ("activities", JObj [("length", JObj [])])]).

End RenderSamples.

(** * Properties *)

(** ** Roster sorting *)

Module RosterFacts.
Import Roster.

Lemma SortKey_eqb_eq (a b : SortKey) : SortKey_eqb a b = true <-> a = b.
Proof. destruct a, b; simpl; split; congruence. Qed.

Lemma SortKey_eqb_refl (a : SortKey) : SortKey_eqb a a = true.
Proof. now apply SortKey_eqb_eq. Qed.

Lemma SortKey_eqb_neq (a b : SortKey) : a <> b -> SortKey_eqb a b = false.
Proof.
  intros H. destruct (SortKey_eqb a b) eqn:E; [|reflexivity].
  apply SortKey_eqb_eq in E. contradiction.
Qed.

(** C10. Requesting the key that is currently selected flips the direction
    (ascending becomes descending, descending becomes ascending);
    requesting any other key selects it with direction ascending. *)
Theorem requestSort_toggle (cfg : SortConfig) (k : SortKey) :
  (key cfg = k ->
   requestSort cfg k = {| key := k; direction := flip (direction cfg) |})
  /\ (key cfg <> k ->
      requestSort cfg k = {| key := k; direction := asc |}).
Proof.
  unfold requestSort. split; intros H.
  - rewrite H, SortKey_eqb_refl. now destruct (direction cfg).
  - now rewrite (SortKey_eqb_neq _ _ H).
Qed.

Lemma requestSort_toggle_witness :
  requestSort initialSortConfig lastActivity
  = {| key := lastActivity; direction := asc |}
  /\ requestSort initialSortConfig employer
     = {| key := employer; direction := asc |}.
Proof.
  split.
  - apply (proj1 (requestSort_toggle initialSortConfig lastActivity)).
    reflexivity.
  - apply (proj2 (requestSort_toggle initialSortConfig employer)).
    discriminate.
Defined.

End RosterFacts.

(** ** File sync *)

Section AppFacts.
Context {host : Host}.
Import App.

Lemma processFileContent_local (st : State) (text : string)
  (handle : option FileSystemFileHandle) (o : value) (os : list value)
  (b : bool) :
  opportunities st = JArr (o :: os) ->
  fileHasData (parseFileText text) = Ok b ->
  processFileContent st text handle
  = Ok ([ setConflictData (Some (parseFileText text)) ]
        ++ connected handle [ setFileHandle handle ])%list.
Proof.
  intros Hst Hfile. unfold processFileContent.
  rewrite Hfile, Hst. reflexivity.
Qed.

Lemma processFileContent_throws (st : State) (text : string)
  (handle : option FileSystemFileHandle) (e : exn) :
  fileHasData (parseFileText text) = Throw e ->
  processFileContent st text handle = Throw e.
Proof.
  intros Hfile. unfold processFileContent. now rewrite Hfile.
Qed.

Lemma commit_conflict (st : State) (handle : option FileSystemFileHandle)
  (d : value) :
  exists st',
    commit st ([ setConflictData (Some d) ]
               ++ connected handle [ setFileHandle handle ])%list = Ok st'
    /\ conflictData st' = Some d
    /\ collections st' = collections st
    /\ written st' = written st
    /\ hasUnsavedChanges st' = hasUnsavedChanges st
    /\ (truthy d = true -> handle <> None -> saveTimer st' = false).
Proof.
  destruct handle as [h|]; unfold commit; simpl.
  - eexists. split; [reflexivity|].
    unfold autoSaveEffect, conflict_truthy; simpl.
    destruct (truthy d) eqn:Ht; simpl; repeat split; try reflexivity;
      intros; congruence.
  - eexists. split; [reflexivity|].
    unfold autoSaveEffect; simpl.
    destruct (changed_opt (conflictData st) (Some d)); simpl;
      [destruct (fileHandle st); [unfold conflict_truthy; simpl;
                                  destruct (truthy d)|]|];
      simpl; repeat split; try reflexivity; intros; congruence.
Qed.

Lemma parseFileText_empty (text : string) :
  text = "" \/ JSON_parse text = None -> parseFileText text = emptyFileData.
Proof.
  unfold parseFileText. intros [-> | H]; [reflexivity|].
  rewrite H. now destruct (negb (text =? "")).
Qed.

Lemma parseFileText_parsed (text : string) (v : value) :
  JSON_parse text = Some v -> parseFileText text = v.
Proof.
  intros H. unfold parseFileText.
  destruct (text =? "") eqn:E; simpl.
  - apply String.eqb_eq in E. subst. rewrite JSON_parse_empty in H.
    discriminate.
  - now rewrite H.
Qed.

Lemma has_items_array_or_absent (m : option value) :
  array_or_absent m ->
  has_items m = Ok match m with
                   | Some (JArr (_ :: _)) => true
                   | _ => false
                   end.
Proof.
  destruct m as [[| | | |[|x l]|]|]; simpl; intros H;
    try contradiction; reflexivity.
Qed.

Lemma readable_object (fields : list (string * value)) :
  array_or_absent (lookup "opportunities" fields) ->
  array_or_absent (lookup "ops" fields) ->
  readable (JObj fields).
Proof.
  intros H1 H2. split; [reflexivity|].
  unfold fileHasData; simpl.
  rewrite (has_items_array_or_absent _ H1); simpl.
  destruct (lookup "opportunities" fields) as [[| | | |[|x l]|]|];
    simpl; eauto; rewrite (has_items_array_or_absent _ H2); eauto.
Qed.

Lemma readable_emptyFileData : readable emptyFileData.
Proof. now apply readable_object. Qed.

Lemma conflictModal_shown (st st' : State) (d : value) :
  conflictData st' = Some d -> truthy d = true ->
  collections st' = collections st ->
  conflictModal st' = Some (localStats st, fileStats d)
  /\ syncState st' = AwaitingUserChoice.
Proof.
  intros Hd Ht Hc. unfold syncState, conflictModal. rewrite Hd, Ht.
  unfold collections in Hc. unfold localStats.
  injection Hc as -> -> _. split; reflexivity.
Qed.

Lemma dispatch_connect (st : State) (text : string)
  (handle : option FileSystemFileHandle) (us : list update) :
  processFileContent st text handle = Ok us ->
  dispatch st (connect text handle) = commit st us.
Proof.
  intros H. destruct handle; simpl; now rewrite H.
Qed.

Lemma processFileContent_adopts (st : State) (text : string)
  (handle : option FileSystemFileHandle) (fields : list (string * value))
  (o : value) (os : list value) :
  opportunities st = JArr [] ->
  parseFileText text = JObj fields ->
  lookup "opportunities" fields = Some (JArr (o :: os)) ->
  processFileContent st text handle
  = Ok (adoption (JArr (o :: os))
          (or_empty (or_else (lookup "activities" fields)
                       (lookup "acts" fields)))
          (or_empty (lookup "contacts" fields)) handle).
Proof.
  intros Hst Hp Ho. unfold processFileContent, fileHasData.
  rewrite Hp, Hst. simpl. rewrite Ho. reflexivity.
Qed.

Lemma commit_adoption (st : State) (handle : option FileSystemFileHandle)
  (o : value) (os : list value) (v2 v3 : value) :
  opportunities st = JArr [] ->
  exists st',
    commit st (adoption (JArr (o :: os)) v2 v3 handle) = Ok st'
    /\ collections st' = (JArr (o :: os), v2, v3)
    /\ hasUnsavedChanges st' = true
    /\ conflictData st' = conflictData st
    /\ written st' = written st
    /\ match handle with
       | Some h =>
           fileHandle st' = Some h /\ syncStatus st' = saved
           /\ saveTimer st' = negb (conflict_truthy (conflictData st))
       | None =>
           fileHandle st' = fileHandle st /\ syncStatus st' = syncStatus st
       end.
Proof.
  intros Hst. destruct st as [so sa sc sh ss su sd stm sw].
  simpl in Hst. subst so.
  destruct handle as [h|]; unfold commit, adoption; simpl.
  - eexists. split; [reflexivity|].
    unfold autoSaveEffect; simpl.
    destruct (conflict_truthy sd); simpl; repeat split; reflexivity.
  - eexists. split; [reflexivity|].
    unfold autoSaveEffect; simpl.
    destruct sh; [destruct (conflict_truthy sd)|]; simpl;
      repeat split; reflexivity.
Qed.


Lemma processFileContent_both_empty (st : State) (text : string)
  (handle : option FileSystemFileHandle) :
  opportunities st = JArr [] ->
  fileHasData (parseFileText text) = Ok false ->
  processFileContent st text handle
  = Ok (connected handle
          [ setFileHandle handle; setSyncStatus saved;
            setHasUnsavedChanges false ]).
Proof.
  intros Hst Hf. unfold processFileContent. rewrite Hf, Hst. reflexivity.
Qed.

Lemma commit_both_empty (st : State) (handle : option FileSystemFileHandle) :
  exists st',
    commit st (connected handle
                 [ setFileHandle handle; setSyncStatus saved;
                   setHasUnsavedChanges false ]) = Ok st'
    /\ collections st' = collections st
    /\ conflictData st' = conflictData st
    /\ written st' = written st
    /\ match handle with
       | Some h =>
           fileHandle st' = Some h /\ syncStatus st' = saved
           /\ hasUnsavedChanges st' = false
           /\ saveTimer st' = negb (conflict_truthy (conflictData st))
       | None => st' = st
       end.
Proof.
  destruct st as [so sa sc sh ss su sd stm sw].
  destruct handle as [h|]; unfold commit; simpl.
  - eexists. split; [reflexivity|].
    unfold autoSaveEffect; simpl.
    destruct (conflict_truthy sd); simpl; repeat split; reflexivity.
  - eexists. split; [reflexivity|]. repeat split; reflexivity.
Qed.

Lemma fileHasData_emptyFileData : fileHasData emptyFileData = Ok false.
Proof. reflexivity. Qed.

Lemma saveData_idle (st : State) (ok : bool) :
  saveTimer st = false -> saveData st ok = st.
Proof. intros H. unfold saveData. now rewrite H. Qed.

Lemma saveData_disarms (st : State) (ok : bool) :
  saveTimer (saveData st ok) = false.
Proof.
  unfold saveData. destruct (saveTimer st) eqn:E; [|exact E].
  now destruct ok.
Qed.

(** C4, as the code has it. Connecting a file whose content, like the store, holds
    no opportunity converges and by itself arms one debounced save; when
    it fires, the serialized in-memory snapshot is written to the file
    although no collection changed.  After a save has fired nothing is
    armed, and a firing with nothing armed writes nothing and changes
    nothing. *)
Theorem connect_arms_one_save (st : State) (text : string)
  (h : FileSystemFileHandle) :
  opportunities st = JArr [] ->
  conflictData st = None ->
  fileHasData (parseFileText text) = Ok false ->
  exists st',
    dispatch st (ConnectFile text h) = Ok st'
    /\ syncState st' = Converged
    /\ collections st' = collections st
    /\ saveTimer st' = true
    /\ written (saveData st' true)
       = JSON_stringify (snapshot st) :: written st
    /\ collections (saveData st' true) = collections st
    /\ forall ok ok',
         dispatch (saveData st' ok) (TimerFired ok') = Ok (saveData st' ok).
Proof.
  intros Hst Hd Hf.
  pose proof (processFileContent_both_empty st text (Some h) Hst Hf) as H.
  pose proof (dispatch_connect st text (Some h) _ H) as Hdis.
  simpl connect in Hdis. rewrite Hdis.
  destruct (commit_both_empty st (Some h))
    as (st' & Hc & Hcol & Hcd & Hw & Hh & Hs & Hu & Ht).
  rewrite Hc.
  rewrite Hd in *. simpl in Ht.
  exists st'. split; [reflexivity|].
  assert (Hsnap : snapshot st' = snapshot st).
  { unfold snapshot. unfold collections in Hcol. now injection Hcol as -> -> ->. }
  repeat split.
  - unfold syncState, conflictModal. now rewrite Hcd, Hh.
  - exact Hcol.
  - exact Ht.
  - unfold saveData. rewrite Ht. simpl. now rewrite Hsnap, Hw.
  - unfold saveData. rewrite Ht. exact Hcol.
  - intros ok ok'. simpl. f_equal.
    apply saveData_idle, saveData_disarms.
Qed.

(** Adoption in general: a store without opportunities takes over the
    file's collections, shows no prompt of its own, and ends marked dirty
    by the effect that tracks unsaved changes. *)
Lemma connect_adopts_file (st : State) (text : string)
  (handle : option FileSystemFileHandle) (fields : list (string * value))
  (o : value) (os : list value) :
  opportunities st = JArr [] ->
  parseFileText text = JObj fields ->
  lookup "opportunities" fields = Some (JArr (o :: os)) ->
  exists st',
    dispatch st (connect text handle) = Ok st'
    /\ collections st'
       = (JArr (o :: os),
          or_empty (or_else (lookup "activities" fields)
                      (lookup "acts" fields)),
          or_empty (lookup "contacts" fields))
    /\ conflictData st' = conflictData st
    /\ hasUnsavedChanges st' = true
    /\ (forall h, handle = Some h ->
                   fileHandle st' = Some h /\ syncStatus st' = saved).
Proof.
  intros Hst Hp Ho.
  rewrite (dispatch_connect _ _ _ _
             (processFileContent_adopts st text handle fields o os Hst Hp Ho)).
  destruct (commit_adoption st handle o os
              (or_empty (or_else (lookup "activities" fields)
                           (lookup "acts" fields)))
              (or_empty (lookup "contacts" fields)) Hst)
    as (st' & Hc & Hcol & Hu & Hd & _ & Hh).
  exists st'. split; [exact Hc|]. split; [exact Hcol|].
  split; [exact Hd|]. split; [exact Hu|].
  intros h ->. tauto.
Qed.

(** Keeping the local data while a file is connected arms a save of it. *)
Lemma keepLocal_arms_save (st : State) (h : FileSystemFileHandle) (d : value) :
  fileHandle st = Some h -> conflictData st = Some d ->
  exists st',
    dispatch st KeepLocal = Ok st'
    /\ collections st' = collections st
    /\ conflictData st' = None
    /\ saveTimer st' = true.
Proof.
  intros Hh Hd. destruct st as [so sa sc sh ss su sd stm sw].
  simpl in Hh, Hd. subst. unfold dispatch, commit. simpl.
  eexists. split; [reflexivity|]. repeat split.
Qed.

End AppFacts.

(** ** File sync on the reference host *)

Module AppExamples.
Import App Samples.
#[local] Existing Instance RefHost.host.



Lemma connect_arms_one_save_witness :
  exists st',
    dispatch (store [] [] []) (ConnectFile "" handle) = Ok st'
    /\ syncState st' = Converged
    /\ collections st' = collections (store [] [] [])
    /\ saveTimer st' = true
    /\ written (saveData st' true)
       = JSON_stringify (snapshot (store [] [] []))
         :: written (store [] [] [])
    /\ collections (saveData st' true) = collections (store [] [] [])
    /\ forall ok ok',
         dispatch (saveData st' ok) (TimerFired ok') = Ok (saveData st' ok).
Proof.
  apply (connect_arms_one_save (store [] [] []) "" handle
           eq_refl eq_refl eq_refl).
Defined.

(** Connecting an empty file to an empty store, then letting the debounce
    elapse: a write is produced with no in-memory change. *)
Lemma connect_arms_one_save_counterexample :
  ~ (forall (host : Host) (st st' st'' : State) (text : string)
       (h : FileSystemFileHandle),
        conflictData st = None -> saveTimer st = false ->
        dispatch st (ConnectFile text h) = Ok st' ->
        syncState st' = Converged ->
        collections st' = collections st ->
        dispatch st' (TimerFired true) = Ok st'' ->
        written st'' = written st).
Proof.
  intros H.
  pose proof (H RefHost.host (store [] [] []) _ _ "" handle
                eq_refl eq_refl eq_refl eq_refl eq_refl eq_refl) as Hw.
  vm_compute in Hw. discriminate.
Qed.

End AppExamples.

(** ** Smart entry *)

Section ModalFacts.
Context {host : Host}.
Import ActivityModal.

(** C7. When the mandatory-field check fails, [handleSave] returns without
    calling [onSave], so pressing save leaves the three collections as
    they were. *)
Theorem save_rejected (uuidv4 : nat -> string) (today : string)
  (props : Props) (s : State) (st : Store) :
  mandatory_check_fails props s ->
  handleSave uuidv4 today props s = None
  /\ save uuidv4 today props s st = st.
Proof.
  intros H.
  assert (Hn : handleSave uuidv4 today props s = None).
  { unfold handleSave.
    destruct H as [H | [H | ([Hn | Hs] & [He | He] & Hl)]].
    - now rewrite H.
    - rewrite H. now rewrite orb_true_r.
    - congruence.
    - rewrite Hn, He, Hl. simpl.
      now destruct (negb _ || negb _).
    - rewrite Hs, He, Hl. simpl.
      destruct (negb _ || negb _); [reflexivity|].
      now destruct (isNewOp s).
    - rewrite Hs, He, Hl. simpl.
      destruct (negb _ || negb _); [reflexivity|].
      now destruct (isNewOp s).
  }
  split; [exact Hn|]. unfold save. now rewrite Hn.
Qed.

Lemma locked_truthy (props : Props) (o : string) :
  locked props o -> truthy_str (opportunityId props) = true.
Proof.
  intros [H Hne]. rewrite H. simpl.
  destruct (o =? "") eqn:E; [|reflexivity].
  apply String.eqb_eq in E. contradiction.
Qed.

Lemma or_lit_some (x d : string) : x <> "" -> or_lit (Some x) d = x.
Proof.
  intros H. simpl. destruct (x =? "") eqn:E; [|reflexivity].
  apply String.eqb_eq in E. contradiction.
Qed.

Lemma opportunityLogic_locked (props : Props) (o : string)
  (r : ParsedActivity) (s : State) :
  locked props o -> opportunityLogic props r s = s.
Proof.
  intros H. unfold opportunityLogic. now rewrite (locked_truthy _ _ H).
Qed.

Lemma contactLogic_selection (props : Props) (r : ParsedActivity) (s : State) :
  isNewOp (contactLogic props r s) = isNewOp s
  /\ selectedOpId (contactLogic props r s) = selectedOpId s
  /\ newOpData (contactLogic props r s) = newOpData s.
Proof.
  unfold contactLogic.
  destruct (contacts r) as [[|c cs]|]; auto.
  destruct (sortContacts _ _ _ _) as [[ids staged]|]; auto.
Qed.

Lemma handleAutoFill_locked (today : string) (props : Props) (o : string)
  (response : option ParsedActivity) (s s' : State) :
  locked props o ->
  handleAutoFill today props response s = Ok s' ->
  isNewOp s' = isNewOp s /\ selectedOpId s' = selectedOpId s
  /\ newOpData s' = newOpData s.
Proof.
  intros Hl H. unfold handleAutoFill in H.
  destruct (Activity.p_description (formData s)) as [d|];
    [|injection H as <-; auto].
  destruct (trim d =? ""); [injection H as <-; auto|].
  destruct response as [r|]; [|injection H as <-; auto].
  rewrite (opportunityLogic_locked _ _ _ _ Hl) in H.
  destruct (activityData r) as [a|]; [|discriminate].
  injection H as <-.
  exact (contactLogic_selection props r
           (with_formData s (activityLogic today a (formData s)))).
Qed.

Lemma handleSave_locked (uuidv4 : nat -> string) (today : string)
  (props : Props) (o : string) (s : State) (p : SavePayload) :
  locked props o ->
  handleSave uuidv4 today props s = Some p ->
  Activity.opportunityId (activity p) = o /\ newOpportunity p = None.
Proof.
  intros Hl H. unfold handleSave in H.
  rewrite (locked_truthy _ _ Hl) in H. simpl in H.
  rewrite !andb_false_r in H. simpl in H.
  destruct (negb _ || negb _); [discriminate|].
  destruct (isNewOp s && _); [discriminate|].
  injection H as <-. simpl.
  destruct Hl as [-> Hne]. split; [|reflexivity].
  now apply or_lit_some.
Qed.

(** C6. While the context is locked to an opportunity, auto-fill leaves
    the new-opportunity flag, the selection and the staged opportunity as
    they were, whatever the extraction suggests; and every activity that
    finalization then produces references the locked opportunity and
    comes with no new opportunity.  On a form opened for a new activity,
    finalization does produce one as soon as title and date are set. *)
Theorem lock_wins (uuidv4 : nat -> string) (today : string) (props : Props)
  (o : string) (response : option ParsedActivity) (s s' : State) :
  locked props o ->
  handleAutoFill today props response s = Ok s' ->
  (isNewOp s' = isNewOp s /\ selectedOpId s' = selectedOpId s
   /\ newOpData s' = newOpData s)
  /\ (forall p, handleSave uuidv4 today props s' = Some p ->
                 Activity.opportunityId (activity p) = o
                 /\ newOpportunity p = None)
  /\ (isNewOp s = false ->
       truthy_str (Activity.p_title (formData s')) = true ->
       truthy_str (Activity.p_date (formData s')) = true ->
       exists p, handleSave uuidv4 today props s' = Some p).
Proof.
  intros Hl H.
  pose proof (handleAutoFill_locked _ _ _ _ _ _ Hl H) as (Hn & Hs & Hd).
  split; [auto|]. split.
  - intros p Hp. exact (handleSave_locked _ _ _ _ _ _ Hl Hp).
  - intros Hnew Ht Hdate. unfold handleSave.
    rewrite Ht, Hdate, Hn, Hnew, (locked_truthy _ _ Hl). simpl.
    rewrite andb_false_r. eauto.
Qed.

Lemma promote_length (uuidv4 : nat -> string) (company : string)
  (cs : list Contact.partial) (k : nat) :
  List.length (promote uuidv4 k company cs) = List.length cs.
Proof.
  revert k. induction cs as [|c cs IH]; intros k; simpl; [reflexivity|].
  now rewrite IH.
Qed.

Lemma promote_ids (uuidv4 : nat -> string) (company : string)
  (cs : list Contact.partial) (k : nat) :
  map Contact.id (promote uuidv4 k company cs)
  = map uuidv4 (seq k (List.length cs)).
Proof.
  revert k. induction cs as [|c cs IH]; intros k; simpl; [reflexivity|].
  now rewrite IH.
Qed.

Lemma promote_nth (uuidv4 : nat -> string) (company : string)
  (cs : list Contact.partial) (k i : nat) (c : Contact.partial) :
  nth_error cs i = Some c ->
  exists c',
    nth_error (promote uuidv4 k company cs) i = Some c'
    /\ Contact.id c' = uuidv4 (k + i)
    /\ Contact.name c' = or_lit (Contact.p_name c) "Unknown"
    /\ Contact.role c' = or_lit (Contact.p_role c) "Contact"
    /\ Contact.company c' = or_lit (Contact.p_company c) company
    /\ Contact.email c' = Contact.p_email c.
Proof.
  revert k i. induction cs as [|x cs IH]; intros k [|i] H; simpl in H;
    try discriminate.
  - injection H as ->. eexists. split; [reflexivity|]. simpl.
    rewrite Nat.add_0_r. repeat split.
  - destruct (IH (S k) i H) as (c' & Hn & Hid & Hrest).
    exists c'. split; [exact Hn|].
    rewrite Nat.add_succ_r. now split.
Qed.

Lemma handleSave_newContacts (uuidv4 : nat -> string) (today : string)
  (props : Props) (s : State) (p : SavePayload) :
  handleSave uuidv4 today props s = Some p ->
  newContacts p
  = promote uuidv4 (if creating props s then 1 else 0)
      (if creating props s then employer (newOpData s) else "Unknown")
      (stagedContacts s).
Proof.
  unfold handleSave, creating. intros H.
  destruct (negb _ || negb _); [discriminate|].
  destruct (negb (isNewOp s) && _ && _); [discriminate|].
  destruct (isNewOp s && (employer (newOpData s) =? "")); [discriminate|].
  now injection H as <-.
Qed.

(** C9, as the code has it. Every staged contact promoted at finalization takes the
    identifier returned by its own call of the generator, its name falls
    back to "Unknown", its role to "Contact", and its company to the
    employer of the opportunity created by the same save, or to "Unknown"
    when none is created; the promoted contacts are appended, in order, to
    the contact collection, whose identifiers stay pairwise distinct when
    the generated ones are distinct from each other and from those
    present. *)
Theorem staged_contacts_promoted (uuidv4 : nat -> string) (today : string)
  (props : Props) (s : State) (st : Store) (p : SavePayload) :
  handleSave uuidv4 today props s = Some p ->
  let k := if creating props s then 1 else 0 in
  let company :=
    if creating props s then employer (newOpData s) else "Unknown" in
  List.length (newContacts p) = List.length (stagedContacts s)
  /\ (forall i c, nth_error (stagedContacts s) i = Some c ->
       exists c',
         nth_error (newContacts p) i = Some c'
         /\ Contact.id c' = uuidv4 (k + i)
         /\ Contact.name c' = or_lit (Contact.p_name c) "Unknown"
         /\ Contact.role c' = or_lit (Contact.p_role c) "Contact"
         /\ Contact.company c' = or_lit (Contact.p_company c) company
         /\ Contact.email c' = Contact.p_email c)
  /\ storeContacts (save uuidv4 today props s st)
     = (storeContacts st ++ newContacts p)%list
  /\ (NoDup (map Contact.id (storeContacts st)
             ++ map uuidv4 (seq k (List.length (stagedContacts s))))%list ->
      NoDup (map Contact.id (storeContacts (save uuidv4 today props s st)))).
Proof.
  intros H k company.
  pose proof (handleSave_newContacts _ _ _ _ _ H) as Hn.
  fold k company in Hn.
  assert (Hsave : storeContacts (save uuidv4 today props s st)
                  = (storeContacts st ++ newContacts p)%list).
  { unfold save. rewrite H. reflexivity. }
  repeat split.
  - rewrite Hn. apply promote_length.
  - intros i c Hc. rewrite Hn. now apply promote_nth.
  - exact Hsave.
  - intros Hnd. rewrite Hsave, map_app, Hn, promote_ids. exact Hnd.
Qed.

Lemma existsb_eqb_In (x : string) (l : list string) :
  existsb (String.eqb x) l = true <-> In x l.
Proof.
  rewrite existsb_exists. split.
  - intros (y & Hy & E). apply String.eqb_eq in E. now subst.
  - intros H. exists x. split; [exact H|apply String.eqb_refl].
Qed.

Lemma uniq_from_In (x : string) (l seen : list string) :
  In x (uniq_from seen l) <-> In x l /\ ~ In x seen.
Proof.
  revert seen. induction l as [|y l IH]; intros seen; simpl.
  - tauto.
  - destruct (existsb (String.eqb y) seen) eqn:E.
    + apply existsb_eqb_In in E. rewrite IH. split.
      * tauto.
      * intros [[-> | H] Hn]; [contradiction|tauto].
    + assert (Hy : ~ In y seen).
      { intros H. apply existsb_eqb_In in H. congruence. }
      simpl. rewrite IH. simpl. split.
      * intros [-> | [H Hn]]; [tauto|]. split; [tauto|]. tauto.
      * intros [[-> | H] Hn]; [tauto|].
        destruct (string_dec y x) as [->|Hne]; [tauto|]. right.
        split; [exact H|]. intros [Heq|Hs]; [contradiction|tauto].
Qed.

Lemma uniq_from_NoDup (l seen : list string) : NoDup (uniq_from seen l).
Proof.
  revert seen. induction l as [|y l IH]; intros seen; simpl.
  - constructor.
  - destruct (existsb (String.eqb y) seen); [apply IH|].
    constructor; [|apply IH].
    rewrite uniq_from_In. simpl. tauto.
Qed.

Lemma uniq_In (x : string) (l : list string) : In x (uniq l) <-> In x l.
Proof. unfold uniq. rewrite uniq_from_In. simpl. tauto. Qed.

Lemma uniq_NoDup (l : list string) : NoDup (uniq l).
Proof. apply uniq_from_NoDup. Qed.

Lemma findMatch_named (existing : list Contact.t) (c : Contact.partial) :
  named c \/ existing = [] ->
  findMatch existing c = Ok (matchOf existing c).
Proof.
  unfold findMatch, matchOf, named. intros [H | ->].
  - destruct (Contact.p_name c); [|contradiction]. now destruct existing.
  - now destruct (Contact.p_name c).
Qed.

Lemma sortContacts_named (existing : list Contact.t)
  (cs : list Contact.partial) (ids : list string)
  (staged : list Contact.partial) :
  Forall named cs \/ existing = [] ->
  sortContacts existing cs ids staged
  = Ok ((ids ++ matchedIds existing cs)%list,
        (staged ++ unmatched existing cs)%list).
Proof.
  intros H. revert ids staged.
  induction cs as [|c cs IH]; intros ids staged; simpl.
  - now rewrite !app_nil_r.
  - assert (Hc : named c \/ existing = []).
    { destruct H as [H | H]; [left; now inversion H | now right]. }
    assert (Hcs : Forall named cs \/ existing = []).
    { destruct H as [H | H]; [left; now inversion H | now right]. }
    rewrite (findMatch_named _ _ Hc). simpl.
    unfold matchedIds, unmatched in *. simpl.
    destruct (matchOf existing c) as [e|]; rewrite (IH Hcs).
    + now rewrite <- app_assoc.
    + now rewrite <- app_assoc.
Qed.

Lemma matchOf_found (existing : list Contact.t) (c : Contact.partial)
  (n : string) (e : Contact.t) :
  Contact.p_name c = Some n -> In e existing ->
  toLowerCase (Contact.name e) = toLowerCase n ->
  exists e',
    matchOf existing c = Some e' /\ In e' existing
    /\ toLowerCase (Contact.name e') = toLowerCase n.
Proof.
  intros Hn Hin He. unfold matchOf. rewrite Hn.
  destruct (find _ existing) as [e'|] eqn:F.
  - apply find_some in F. destruct F as [Hin' E].
    apply String.eqb_eq in E. eauto.
  - pose proof (find_none _ _ F e Hin) as E. simpl in E.
    rewrite He, String.eqb_refl in E. discriminate.
Qed.

Lemma matchedIds_In (existing : list Contact.t) (cs : list Contact.partial)
  (c : Contact.partial) (e : Contact.t) :
  In c cs -> matchOf existing c = Some e ->
  In (Contact.id e) (matchedIds existing cs).
Proof.
  intros Hin Hm. unfold matchedIds. apply in_flat_map.
  exists c. split; [exact Hin|]. rewrite Hm. now left.
Qed.

Lemma unmatched_not_In (existing : list Contact.t)
  (cs : list Contact.partial) (c : Contact.partial) (e : Contact.t) :
  matchOf existing c = Some e -> ~ In c (unmatched existing cs).
Proof.
  intros Hm Hin. unfold unmatched in Hin. apply filter_In in Hin.
  destruct Hin as [_ H]. rewrite Hm in H. discriminate.
Qed.

(** When every candidate of the extraction carries a name (or no contact
    exists yet), a candidate whose name equals an existing contact's up to
    case is not staged, and the identifier of the first such contact is in
    the selected contacts, which hold no identifier twice. *)
Lemma named_candidate_selected (props : Props) (r : ParsedActivity)
  (s : State) (cs : list Contact.partial) (c : Contact.partial)
  (n : string) (e : Contact.t) :
  contacts r = Some cs ->
  Forall named cs \/ existingContacts props = [] ->
  In c cs -> Contact.p_name c = Some n ->
  In e (existingContacts props) ->
  toLowerCase (Contact.name e) = toLowerCase n ->
  exists e',
    matchOf (existingContacts props) c = Some e'
    /\ toLowerCase (Contact.name e') = toLowerCase n
    /\ In (Contact.id e')
         (or_nil (Activity.p_contactIds (formData (contactLogic props r s))))
    /\ NoDup
         (or_nil (Activity.p_contactIds (formData (contactLogic props r s))))
    /\ stagedContacts (contactLogic props r s)
       = (stagedContacts s ++ unmatched (existingContacts props) cs)%list
    /\ ~ In c (unmatched (existingContacts props) cs).
Proof.
  intros Hr Hnamed Hin Hn He Hlow.
  destruct (matchOf_found _ _ _ _ Hn He Hlow) as (e' & Hm & _ & Hlow').
  exists e'. split; [exact Hm|]. split; [exact Hlow'|].
  unfold contactLogic. rewrite Hr.
  destruct cs as [|c0 cs0]; [contradiction|].
  rewrite (sortContacts_named _ _ [] [] Hnamed).
  cbn [formData stagedContacts with_contactIds Activity.p_contactIds or_nil
       app].
  repeat split.
  - apply uniq_In, in_or_app. right.
    exact (matchedIds_In _ _ _ _ Hin Hm).
  - apply uniq_NoDup.
  - exact (unmatched_not_In _ _ _ _ Hm).
Qed.

End ModalFacts.

Module ModalExamples.
Import ActivityModal Samples.
#[local] Existing Instance RefHost.host.

Lemma save_rejected_witness :
  handleSave uuid today (props None []) (typed None []) = None
  /\ save uuid today (props None []) (typed None []) emptyStore = emptyStore.
Proof.
  apply (save_rejected uuid today (props None []) (typed None []) emptyStore).
  left. reflexivity.
Defined.

Lemma locked_o2 (cs : list Contact.t) : locked (props (Some "o2") cs) "o2".
Proof. split; [reflexivity|discriminate]. Qed.

(** The extraction says "not new, matches o1" while the context is locked
    to o2. *)
Lemma lock_wins_witness :
  exists s',
    handleAutoFill today (props (Some "o2") [])
      (Some (extraction false (Some "o1") [])) (typed (Some "o2") [])
    = Ok s'
    /\ (isNewOp s' = false /\ selectedOpId s' = "o2"
        /\ newOpData s' = emptyNewOpData)
    /\ (forall p, handleSave uuid today (props (Some "o2") []) s' = Some p ->
                   Activity.opportunityId (activity p) = "o2"
                   /\ newOpportunity p = None)
    /\ (isNewOp (typed (Some "o2") []) = false ->
         truthy_str (Activity.p_title (formData s')) = true ->
         truthy_str (Activity.p_date (formData s')) = true ->
         exists p, handleSave uuid today (props (Some "o2") []) s' = Some p).
Proof.
  eexists. split; [vm_compute; reflexivity|].
  exact (lock_wins uuid today (props (Some "o2") []) "o2"
           (Some (extraction false (Some "o1") [])) (typed (Some "o2") []) _
           (locked_o2 []) eq_refl).
Defined.

(** C8, where the code departs from it. The extraction lists "Sarah" twice and one
    candidate without a name, and a contact named "sarah" exists: the
    [forEach] throws on the nameless candidate, the handler catches it,
    and neither the selection nor the staged contacts change, so the
    identifier of the existing contact is not selected. *)
Theorem nameless_candidate_drops_matches :
  exists s',
    handleAutoFill today (props None [sarahContact])
      (Some (extraction false None
               [candidate (Some "Sarah") None; candidate (Some "Sarah") None;
                candidate None (Some "Recruiter")]))
      (typed None [sarahContact]) = Ok s'
    /\ Activity.p_contactIds (formData s') = Some []
    /\ stagedContacts s' = [].
Proof.
  eexists. split; [vm_compute; reflexivity|]. split; reflexivity.
Qed.

(** Without the nameless candidate the identifier is selected once. *)
Lemma named_candidates_select_once :
  exists s',
    handleAutoFill today (props None [sarahContact])
      (Some (extraction false None
               [candidate (Some "Sarah") None; candidate (Some "Sarah") None]))
      (typed None [sarahContact]) = Ok s'
    /\ Activity.p_contactIds (formData s') = Some ["c1"]
    /\ stagedContacts s' = [].
Proof.
  eexists. split; [vm_compute; reflexivity|]. split; reflexivity.
Qed.

(** And with no existing contact the nameless candidate is staged. *)
Lemma nameless_candidate_staged :
  exists s',
    handleAutoFill today (props None [])
      (Some (extraction false None [candidate None (Some "Recruiter")]))
      (typed None []) = Ok s'
    /\ stagedContacts s' = [candidate None (Some "Recruiter")].
Proof.
  eexists. split; [vm_compute; reflexivity|]. reflexivity.
Qed.

Lemma staged_contacts_promoted_witness :
  exists p,
    handleSave uuid today (props None [sarahContact]) stagedForm = Some p
    /\ List.length (newContacts p) = 2
    /\ (forall i c, nth_error (stagedContacts stagedForm) i = Some c ->
         exists c',
           nth_error (newContacts p) i = Some c'
           /\ Contact.id c' = uuid (1 + i)
           /\ Contact.name c' = or_lit (Contact.p_name c) "Unknown"
           /\ Contact.role c' = or_lit (Contact.p_role c) "Contact"
           /\ Contact.company c' = or_lit (Contact.p_company c) "Acme"
           /\ Contact.email c' = Contact.p_email c)
    /\ storeContacts
         (save uuid today (props None [sarahContact]) stagedForm emptyStore)
       = (storeContacts emptyStore ++ newContacts p)%list
    /\ (NoDup ["c1"; uuid 1; uuid 2] ->
        NoDup (map Contact.id
                 (storeContacts
                    (save uuid today (props None [sarahContact]) stagedForm
                       emptyStore)))).
Proof.
  eexists. split; [vm_compute; reflexivity|].
  exact (staged_contacts_promoted uuid today (props None [sarahContact])
           stagedForm emptyStore _ eq_refl).
Defined.

(** The second staged contact has no role: it is promoted with the role
    "Contact", and with the company of the opportunity being created. *)
Lemma staged_contacts_promoted_counterexample :
  ~ (forall (uuidv4 : nat -> string) (today : string) (props : Props)
       (s : State) (p : SavePayload) (i : nat) (c : Contact.partial)
       (c' : Contact.t),
        handleSave uuidv4 today props s = Some p ->
        nth_error (stagedContacts s) i = Some c ->
        nth_error (newContacts p) i = Some c' ->
        (Contact.p_role c = None -> Contact.role c' = "Unknown")
        /\ (Contact.p_company c = None -> Contact.company c' = "Unknown")).
Proof.
  intros H.
  destruct (H uuid today (props None [sarahContact]) stagedForm _ 1 _ _
              eq_refl eq_refl eq_refl) as [Hr _].
  specialize (Hr eq_refl). vm_compute in Hr. discriminate.
Qed.

End ModalExamples.

(** ** Resolving a conflict, legacy members, and runs of the engine *)

Section SyncFacts.
Context {host : Host}.
Import App Sync.



Lemma Object_is_array (old : value) (l : list value) :
  Object_is old (JArr l) = false.
Proof. now destruct old. Qed.





(** X2. Choosing "keep local" closes the prompt and leaves the collections,
    the connection and the file as they are; on a connected file it arms a
    save of the local data, without a connection nothing is armed. *)
Theorem keep_local_keeps_store (st : State) (d : value) :
  conflictData st = Some d ->
  exists st',
    dispatch st KeepLocal = Ok st'
    /\ collections st' = collections st
    /\ conflictModal st' = None
    /\ fileHandle st' = fileHandle st
    /\ hasUnsavedChanges st' = hasUnsavedChanges st
    /\ written st' = written st
    /\ saveTimer st' = match fileHandle st with
                       | Some _ => true
                       | None => false
                       end.
Proof.
  intros Hd. destruct st as [so sa sc sh ss su sd stm sw].
  simpl in Hd. subst sd. unfold dispatch, commit. simpl.
  eexists. split; [reflexivity|].
  unfold autoSaveEffect. simpl. destruct sh; simpl; repeat split.
Qed.

(** X3. Cancelling the prompt drops the file: the collections are untouched,
    the engine is Unconnected again, no save stays armed and nothing is
    written. *)
Theorem cancel_disconnects (st : State) (d : value) :
  conflictData st = Some d ->
  exists st',
    dispatch st Cancel = Ok st'
    /\ collections st' = collections st
    /\ syncState st' = Unconnected
    /\ fileHandle st' = None
    /\ hasUnsavedChanges st' = hasUnsavedChanges st
    /\ saveTimer st' = false
    /\ written st' = written st.
Proof.
  intros Hd. destruct st as [so sa sc sh ss su sd stm sw].
  simpl in Hd. subst sd. unfold dispatch, commit. simpl.
  eexists. split; [reflexivity|].
  unfold autoSaveEffect. simpl. rewrite orb_true_r. simpl.
  repeat split.
Qed.






Import SyncAux.

Lemma Object_is_truthy (a b : value) :
  Object_is a b = true -> truthy a = truthy b.
Proof.
  destruct a, b; simpl; try discriminate; intros H.
  - reflexivity.
  - apply Bool.eqb_prop in H. now subst.
  - apply orb_true_iff in H. destruct H as [H | H].
    + apply andb_true_iff in H. destruct H as [H _].
      apply Z.eqb_eq in H. now subst.
    + apply andb_true_iff in H. destruct H as [H1 H2].
      now rewrite H1, H2, !andb_false_r.
  - apply String.eqb_eq in H. now subst.
Qed.

Lemma changed_opt_truthy (old new : option value) :
  changed_opt old new = false ->
  conflict_truthy new = conflict_truthy old.
Proof.
  destruct old as [o|], new as [n|]; simpl; try discriminate; auto.
  intros H. apply negb_false_iff in H. symmetry.
  now apply Object_is_truthy.
Qed.

Lemma changed_handle_same (old new : option FileSystemFileHandle) :
  changed_handle old new = false -> new = old.
Proof. destruct old, new; simpl; congruence. Qed.

Lemma apply_update_tracks (st0 : State) (acc : State * Touched) (u : update) :
  tracks st0 acc -> tracks st0 (apply_update acc u).
Proof.
  destruct acc as [s t]. intros (Ht & Hw & Hh & Hc).
  simpl in Ht, Hw, Hh, Hc.
  destruct u; simpl; repeat split; auto.
  - intros H. apply orb_false_iff in H. destruct H as [H1 H2].
    simpl. rewrite (changed_handle_same _ _ H2). auto.
  - intros H. apply orb_false_iff in H. destruct H as [H1 H2].
    simpl. rewrite (changed_opt_truthy _ _ H2). auto.
Qed.

Lemma apply_updates_tracks_from (st0 : State) (us : list update)
  (acc : State * Touched) :
  tracks st0 acc -> tracks st0 (fold_left apply_update us acc).
Proof.
  revert acc. induction us as [|u us IH]; intros acc H; simpl; [exact H|].
  apply IH, apply_update_tracks, H.
Qed.

Lemma apply_updates_tracks (st : State) (us : list update) :
  tracks st (apply_updates st us).
Proof.
  apply apply_updates_tracks_from. repeat split; auto.
Qed.

Lemma unsavedEffect_shape (t : Touched) (st : State) (us : list update) :
  unsavedEffect t st = Ok us -> us = [] \/ us = [ setHasUnsavedChanges true ].
Proof.
  unfold unsavedEffect.
  destruct (t_opportunities t || t_activities t || t_contacts t);
    [|intros H; injection H as <-; auto].
  destruct (length_gt_zero (opportunities st)) as [[|]|]; simpl;
    try discriminate.
  - intros H; injection H as <-; auto.
  - destruct (length_gt_zero (activities st)) as [[|]|]; simpl;
      try discriminate; intros H; injection H as <-; auto.
Qed.

Lemma autoSaveEffect_armed_ok (t : Touched) (st0 st1 : State) :
  armed_ok st0 -> tracks st0 (st1, t) ->
  armed_ok (autoSaveEffect t st1)
  /\ written (autoSaveEffect t st1) = written st0.
Proof.
  intros H0 (Ht & Hw & Hh & Hc). simpl in Ht, Hw, Hh, Hc.
  unfold autoSaveEffect, armed_ok.
  destruct (t_opportunities t || t_activities t || t_contacts t
            || t_fileHandle t || t_conflictData t) eqn:E.
  - destruct (fileHandle st1) eqn:Eh; simpl.
    + destruct (conflict_truthy (conflictData st1)) eqn:Ec; simpl;
        split; auto; try discriminate.
      intros _. rewrite Eh. split; [discriminate|exact Ec].
    + split; [discriminate|exact Hw].
  - apply orb_false_iff in E. destruct E as [E Ecd].
    apply orb_false_iff in E. destruct E as [_ Efh].
    split; [|exact Hw].
    rewrite Ht, (Hh Efh), (Hc Ecd). exact H0.
Qed.

Lemma commit_armed_ok (st : State) (us : list update) (st' : State) :
  armed_ok st -> commit st us = Ok st' ->
  armed_ok st' /\ written st' = written st.
Proof.
  intros H0. unfold commit.
  pose proof (apply_updates_tracks st us) as Htr.
  destruct (apply_updates st us) as [st1 t].
  destruct (unsavedEffect t st1) as [us'|] eqn:Eu; simpl; [|discriminate].
  intros H. injection H as <-.
  destruct (autoSaveEffect_armed_ok t st st1 H0 Htr) as [Ha Hw].
  destruct (unsavedEffect_shape _ _ _ Eu) as [-> | ->]; simpl; auto.
Qed.

Lemma saveData_armed_ok (st : State) (ok : bool) : armed_ok (saveData st ok).
Proof.
  unfold armed_ok. rewrite saveData_disarms. discriminate.
Qed.

Lemma dispatch_armed_ok (st : State) (e : event) (st' : State) :
  armed_ok st -> dispatch st e = Ok st' -> armed_ok st'.
Proof.
  intros H0. destruct e as [text h|text| | | |ok]; simpl.
  - destruct (processFileContent st text (Some h)) as [us|];
      [|intros H; injection H as <-; exact H0].
    intros H. exact (proj1 (commit_armed_ok _ _ _ H0 H)).
  - destruct (processFileContent st text None) as [us|]; simpl;
      [|discriminate].
    intros H. exact (proj1 (commit_armed_ok _ _ _ H0 H)).
  - intros H. exact (proj1 (commit_armed_ok _ _ _ H0 H)).
  - destruct (handleImportFile st) as [us|]; simpl; [|discriminate].
    intros H. exact (proj1 (commit_armed_ok _ _ _ H0 H)).
  - intros H. exact (proj1 (commit_armed_ok _ _ _ H0 H)).
  - intros H. injection H as <-. apply saveData_armed_ok.
Qed.

(** X7. Throughout a session a save is armed only while a file is connected
    and no conflict is pending. *)
Theorem armed_only_when_converged (st : State) (es : list event)
  (st' : State) :
  armed_ok st -> run st es = Ok st' -> armed_ok st'.
Proof.
  revert st. induction es as [|e es IH]; intros st H0; simpl.
  - intros H. now injection H as <-.
  - destruct (dispatch st e) as [st1|] eqn:E; simpl; [|discriminate].
    apply IH. exact (dispatch_armed_ok _ _ _ H0 E).
Qed.

(** X8. The connected file is written by nothing but the debounced save: an
    event that changes what has been written is the firing of an armed
    save that the file accepted, on a connected file with no conflict
    pending, and what it writes is the serialized current snapshot. *)
Theorem only_the_save_writes (st : State) (e : event) (st' : State) :
  armed_ok st ->
  dispatch st e = Ok st' ->
  written st' <> written st ->
  e = TimerFired true
  /\ fileHandle st <> None
  /\ conflict_truthy (conflictData st) = false
  /\ written st' = JSON_stringify (snapshot st) :: written st
  /\ collections st' = collections st.
Proof.
  intros H0 Hd Hw. destruct e as [text h|text| | | |ok]; simpl in Hd.
  - destruct (processFileContent st text (Some h)) as [us|];
      [|injection Hd as <-; contradiction].
    destruct (commit_armed_ok _ _ _ H0 Hd). contradiction.
  - destruct (processFileContent st text None) as [us|]; simpl in Hd;
      [|discriminate].
    destruct (commit_armed_ok _ _ _ H0 Hd). contradiction.
  - destruct (commit_armed_ok _ _ _ H0 Hd). contradiction.
  - destruct (handleImportFile st) as [us|]; simpl in Hd; [|discriminate].
    destruct (commit_armed_ok _ _ _ H0 Hd). contradiction.
  - destruct (commit_armed_ok _ _ _ H0 Hd). contradiction.
  - injection Hd as <-. unfold saveData in *.
    destruct (saveTimer st) eqn:Et; [|contradiction].
    destruct ok; simpl in Hw; [|contradiction].
    destruct (H0 Et) as [Hh Hc]. simpl. repeat split; auto.
Qed.

Lemma processFileContent_manual (st : State) (text : string)
  (us : list update) :
  processFileContent st text None = Ok us -> existsb connects us = false.
Proof.
  unfold processFileContent.
  destruct (fileHasData (parseFileText text)) as [b|]; simpl;
    [|discriminate].
  destruct (length_gt_zero (opportunities st)) as [l|]; simpl;
    [|discriminate].
  destruct (negb l && b).
  - repeat match goal with
           | |- context [get ?v ?k] => destruct (get v k); simpl;
                                       [|discriminate]
           end.
    intros H. now injection H as <-.
  - destruct l; intros H; now injection H as <-.
Qed.

Lemma handleImportFile_no_connect (st : State) (us : list update) :
  handleImportFile st = Ok us -> existsb connects us = false.
Proof.
  unfold handleImportFile.
  destruct (conflictData st) as [d|]; [|intros H; now injection H as <-].
  destruct (truthy d); [|intros H; now injection H as <-].
  repeat match goal with
         | |- context [get ?v ?k] => destruct (get v k); simpl;
                                     [|discriminate]
         end.
  intros H. now injection H as <-.
Qed.

Lemma apply_updates_offline (us : list update) (acc : State * Touched) :
  existsb connects us = false ->
  fileHandle (fst acc) = None ->
  fileHandle (fst (fold_left apply_update us acc)) = None.
Proof.
  revert acc. induction us as [|u us IH]; intros acc Hus H; simpl; [exact H|].
  simpl in Hus. apply orb_false_iff in Hus. destruct Hus as [Hu Hus].
  apply IH; [exact Hus|].
  destruct acc as [s t]. simpl in H.
  destruct u as [| | |[h|]| | |]; simpl; auto; discriminate.
Qed.

Lemma commit_offline (st : State) (us : list update) (st' : State) :
  offline st -> existsb connects us = false ->
  commit st us = Ok st' ->
  offline st' /\ written st' = written st.
Proof.
  intros [Hh Ht] Hus. unfold commit.
  pose proof (apply_updates_tracks st us) as (Htm & Hw & _ & _).
  pose proof (apply_updates_offline us (st, untouched) Hus Hh) as Hh1.
  fold (apply_updates st us) in Hh1.
  destruct (apply_updates st us) as [st1 t]. simpl in Htm, Hw, Hh1.
  destruct (unsavedEffect t st1) as [us'|] eqn:Eu; simpl; [|discriminate].
  intros H. injection H as <-.
  assert (Ha : offline (autoSaveEffect t st1)
               /\ written (autoSaveEffect t st1) = written st).
  { unfold autoSaveEffect, offline.
    destruct (t_opportunities t || t_activities t || t_contacts t
              || t_fileHandle t || t_conflictData t).
    - rewrite Hh1. simpl. auto.
    - rewrite Hh1, Htm. auto. }
  destruct (unsavedEffect_shape _ _ _ Eu) as [-> | ->]; simpl; auto.
Qed.

Lemma dispatch_offline (st : State) (e : event) (st' : State) :
  offline st -> is_connect e = false ->
  dispatch st e = Ok st' ->
  offline st' /\ written st' = written st.
Proof.
  intros H0 He. destruct e as [text h|text| | | |ok]; simpl;
    try discriminate.
  - destruct (processFileContent st text None) as [us|] eqn:E; simpl;
      [|discriminate].
    apply commit_offline; [exact H0|].
    exact (processFileContent_manual _ _ _ E).
  - apply commit_offline; [exact H0|reflexivity].
  - destruct (handleImportFile st) as [us|] eqn:E; simpl; [|discriminate].
    apply commit_offline; [exact H0|].
    exact (handleImportFile_no_connect _ _ E).
  - apply commit_offline; [exact H0|reflexivity].
  - intros H. injection H as <-. destruct H0 as [Hh Ht].
    rewrite (saveData_idle _ _ Ht). unfold offline. auto.
Qed.

(** X9. A session that never connects a file through the picker stays without
    a handle, never arms a save and never writes: importing through the
    file input, however the conflict is resolved, is a one-shot read. *)
Theorem manual_sessions_never_write (st : State) (es : list event)
  (st' : State) :
  offline st ->
  existsb is_connect es = false ->
  run st es = Ok st' ->
  offline st' /\ written st' = written st.
Proof.
  revert st. induction es as [|e es IH]; intros st H0 Hes; simpl.
  - intros H. injection H as <-. auto.
  - simpl in Hes. apply orb_false_iff in Hes. destruct Hes as [He Hes].
    destruct (dispatch st e) as [st1|] eqn:E; simpl; [|discriminate].
    destruct (dispatch_offline _ _ _ H0 He E) as [H1 Hw].
    intros H. destruct (IH st1 H1 Hes H) as [H2 Hw2].
    split; [exact H2|congruence].
Qed.

Lemma fileStat_array_shaped (fields : list (string * value))
  (legacy modern : string) :
  array_or_absent (lookup legacy fields) ->
  array_or_absent (lookup modern fields) ->
  fileStat (JObj fields) legacy modern
  = ShownCount (List.length (first_present (lookup legacy fields)
                               (lookup modern fields))).
Proof.
  unfold fileStat.
  destruct (lookup legacy fields) as [[| | | |la|]|]; simpl;
    try contradiction; intros _; [reflexivity|].
  destruct (lookup modern fields) as [[| | | |lb|]|]; simpl;
    try contradiction; reflexivity.
Qed.


(** X10. A save the file refuses reports an error and loses nothing: the
    collections, the dirty mark and the file stay as they are; the engine
    does not retry by itself, and the next change of a collection arms a
    save again. *)
Theorem failed_save_is_not_sticky (st : State) (h : FileSystemFileHandle)
  (ops acts : list value) :
  saveTimer st = true ->
  fileHandle st = Some h ->
  conflict_truthy (conflictData st) = false ->
  opportunities st = JArr ops ->
  syncStatus (saveData st false) = error
  /\ collections (saveData st false) = collections st
  /\ hasUnsavedChanges (saveData st false) = hasUnsavedChanges st
  /\ written (saveData st false) = written st
  /\ saveTimer (saveData st false) = false
  /\ exists st',
       commit (saveData st false) [ setActivities (JArr acts) ] = Ok st'
       /\ saveTimer st' = true
       /\ written (saveData st' true)
          = JSON_stringify (snapshot st') :: written st.
Proof.
  intros Ht Hh Hc Ho. destruct st as [so sa sc sh ss su sd stm sw].
  simpl in Ht, Hh, Hc, Ho. subst. unfold saveData. simpl.
  repeat split.
  unfold commit. simpl. rewrite Object_is_array. simpl.
  destruct ops as [|o ops]; destruct acts as [|a acts]; simpl;
    (eexists; split; [reflexivity|]);
    unfold autoSaveEffect; simpl; rewrite Hc; simpl; split; reflexivity.
Qed.

End SyncFacts.

Module SyncExamples.
Import App Sync Samples SyncSamples.
#[local] Existing Instance RefHost.host.




Lemma keep_local_keeps_store_witness :
  exists st',
    dispatch (conflicted None globexFile) KeepLocal = Ok st'
    /\ collections st' = collections (conflicted None globexFile)
    /\ saveTimer st' = false.
Proof.
  destruct (keep_local_keeps_store (conflicted None globexFile) _ eq_refl)
    as (st' & H & Hc & _ & _ & _ & _ & Ht).
  exists st'. repeat split; assumption.
Defined.

Lemma cancel_disconnects_witness :
  exists st',
    dispatch (conflicted (Some handle) globexFile) Cancel = Ok st'
    /\ syncState st' = Unconnected
    /\ saveTimer st' = false.
Proof.
  destruct (cancel_disconnects (conflicted (Some handle) globexFile) _
              eq_refl)
    as (st' & H & _ & Hs & _ & _ & Ht & _).
  exists st'. repeat split; assumption.
Defined.




Lemma armed_ok_store (ops acts cs : list value) : armed_ok (store ops acts cs).
Proof. unfold armed_ok. simpl. discriminate. Qed.

Lemma armed_only_when_converged_witness :
  exists st',
    run (store [acme] [] [])
      [ ConnectFile (fileOf (store [acme] [] [])) handle; KeepLocal;
        TimerFired true ] = Ok st'
    /\ armed_ok st'.
Proof.
  eexists. split; [vm_compute; reflexivity|].
  apply (armed_only_when_converged (store [acme] [] [])
           [ ConnectFile (fileOf (store [acme] [] [])) handle; KeepLocal;
             TimerFired true ] _ (armed_ok_store _ _ _)).
  vm_compute. reflexivity.
Defined.

Lemma armed_ok_armed : armed_ok armed.
Proof. intros _. split; [discriminate|reflexivity]. Qed.

Lemma only_the_save_writes_witness :
  TimerFired true = TimerFired true
  /\ fileHandle armed <> None
  /\ conflict_truthy (conflictData armed) = false
  /\ written (saveData armed true)
     = JSON_stringify (snapshot armed) :: written armed
  /\ collections (saveData armed true) = collections armed.
Proof.
  apply (only_the_save_writes armed (TimerFired true) (saveData armed true)
           armed_ok_armed eq_refl).
  vm_compute. discriminate.
Defined.

Lemma offline_store (ops acts cs : list value) : offline (store ops acts cs).
Proof. split; reflexivity. Qed.

Lemma manual_sessions_never_write_witness :
  exists st',
    run (store [acme] [] [])
      [ ManualImport (RefHost.print 0 (JObj globexFile)); ImportFile;
        TimerFired true ] = Ok st'
    /\ offline st' /\ written st' = [].
Proof.
  eexists. split; [vm_compute; reflexivity|].
  apply (manual_sessions_never_write (store [acme] [] [])
           [ ManualImport (RefHost.print 0 (JObj globexFile)); ImportFile;
             TimerFired true ] _ (offline_store _ _ _) eq_refl).
  vm_compute. reflexivity.
Defined.

Lemma failed_save_is_not_sticky_witness :
  syncStatus (saveData armed false) = error
  /\ collections (saveData armed false) = collections armed
  /\ hasUnsavedChanges (saveData armed false) = hasUnsavedChanges armed
  /\ written (saveData armed false) = written armed
  /\ saveTimer (saveData armed false) = false
  /\ exists st',
       commit (saveData armed false) [ setActivities (JArr [call]) ] = Ok st'
       /\ saveTimer st' = true
       /\ written (saveData st' true)
          = JSON_stringify (snapshot st') :: written armed.
Proof.
  exact (failed_save_is_not_sticky armed handle [acme] [call]
           eq_refl eq_refl eq_refl eq_refl).
Defined.

End SyncExamples.

Section LegacyFacts.
Context {host : Host}.
Import App Sync.


End LegacyFacts.

Module LegacyExamples.
Import App Sync Samples SyncSamples.
#[local] Existing Instance RefHost.host.


End LegacyExamples.

(** ** The mounted application: commits that are rendered *)

Section RenderFacts.
Context {host : Host}.
Import App Sync Render.

Lemma andThen_done {A B : Type} (m : outcome A) (k : A -> outcome B) (b : B) :
  andThen m k = Done b -> exists a, m = Done a /\ k a = Done b.
Proof. destruct m; simpl; try discriminate. eauto. Qed.

Lemma ensure_twice {A : Type} (r : outcome unit) (a : A) :
  (ensure r ;; ensure r ;; Done a) = (ensure r ;; Done a).
Proof. now destruct r. Qed.

(** A render reads the three collections and the conflict data. *)
Lemma render_reads (ui : UI.View) (st st' : State) :
  collections st' = collections st ->
  conflictData st' = conflictData st ->
  render ui st' = render ui st.
Proof.
  intros Hc Hd. unfold collections in Hc. injection Hc as Ho Ha Hcs.
  unfold render, prompt, conflictModal, localStats.
  now rewrite Ho, Ha, Hcs, Hd.
Qed.

(** A page that rendered was built from three arrays. *)
Lemma page_arrays (ui : UI.View) (opportunities activities contacts : value) :
  page ui opportunities activities contacts = Done tt ->
  (exists l, opportunities = JArr l) /\ (exists l, activities = JArr l)
  /\ exists l, contacts = JArr l.
Proof.
  unfold page. intros H.
  apply andThen_done in H. destruct H as (emps & He & H).
  apply andThen_done in H. destruct H as (ucs & Hu & _).
  split; [|split].
  - destruct opportunities; try discriminate. eauto.
  - destruct activities; try discriminate. eauto.
  - unfold uniqueContacts in Hu.
    apply andThen_done in Hu. destruct Hu as (acts & _ & Hu).
    apply andThen_done in Hu. destruct Hu as (ids & _ & Hu).
    apply andThen_done in Hu. destruct Hu as (cs & Hc & _).
    destruct contacts; try discriminate. eauto.
Qed.

Lemma autoSaveEffect_reads (t : Touched) (st : State) :
  collections (autoSaveEffect t st) = collections st
  /\ conflictData (autoSaveEffect t st) = conflictData st.
Proof.
  unfold autoSaveEffect.
  destruct (t_opportunities t || t_activities t || t_contacts t
            || t_fileHandle t || t_conflictData t); [|auto].
  destruct (fileHandle st); [destruct (conflict_truthy (conflictData st))|];
    auto.
Qed.

(** The effects leave alone what a render reads. *)
Lemma commit_reads (st : State) (us : list update) (st' : State) :
  commit st us = Ok st' ->
  collections st' = collections (fst (apply_updates st us))
  /\ conflictData st' = conflictData (fst (apply_updates st us)).
Proof.
  unfold commit. destruct (apply_updates st us) as [st1 t]. simpl.
  destruct (unsavedEffect t st1) as [us'|] eqn:E; simpl; [|discriminate].
  intros H. injection H as <-.
  destruct (autoSaveEffect_reads t st1) as [Hc Hd].
  destruct (unsavedEffect_shape _ _ _ E) as [-> | ->]; simpl; auto.
Qed.

(** A commit that is rendered: the state is the one of [commit], if the
    render of it completes. *)
Lemma present_commit (ui : UI.View) (st : State) (us : list update)
  (st' : State) :
  commit st us = Ok st' ->
  present ui st us = (ensure render ui st' ;; Done st').
Proof.
  intros H. destruct (commit_reads _ _ _ H) as [Hc Hd].
  unfold present. unfold commit in H.
  destruct (apply_updates st us) as [st1 t]. simpl in Hc, Hd.
  destruct (unsavedEffect t st1) as [us'|]; simpl in H; [|discriminate].
  injection H as H. cbn [lift andThen]. rewrite H.
  rewrite <- (render_reads ui st1 st' Hc Hd).
  apply ensure_twice.
Qed.

Lemma present_done (ui : UI.View) (st : State) (us : list update)
  (st' : State) :
  present ui st us = Done st' -> commit st us = Ok st'.
Proof.
  unfold present, commit. destruct (apply_updates st us) as [st1 t].
  intros H. apply andThen_done in H. destruct H as (_ & _ & H).
  destruct (unsavedEffect t st1) as [us'|]; simpl in *; [|discriminate].
  apply andThen_done in H. destruct H as (_ & _ & H). congruence.
Qed.

Lemma step_connect (ui : UI.View) (st : State) (text : string)
  (handle : option FileSystemFileHandle) (us : list update) :
  processFileContent st text handle = Ok us ->
  step ui st (connect text handle) = present ui st us.
Proof. intros H. destruct handle; simpl; now rewrite H. Qed.

Lemma step_connect_throws (ui : UI.View) (st : State) (text : string)
  (handle : option FileSystemFileHandle) (e : exn) :
  processFileContent st text handle = Throw e ->
  step ui st (connect text handle) = Done st.
Proof. intros H. destruct handle; simpl; now rewrite H. Qed.

(** Every run of the engine whose states render is a run of the mounted
    application. *)
Lemma step_dispatch (ui : UI.View) (st : State) (e : event) (st' : State) :
  render ui st = Done tt ->
  dispatch st e = Ok st' ->
  step ui st e = (ensure render ui st' ;; Done st').
Proof.
  intros Hr. destruct e; simpl.
  - destruct (processFileContent st text (Some handle)).
    + apply present_commit.
    + intros H. injection H as <-. now rewrite Hr.
  - destruct (processFileContent st text None); simpl; [|discriminate].
    apply present_commit.
  - apply present_commit.
  - destruct (handleImportFile st); simpl; [|discriminate].
    apply present_commit.
  - apply present_commit.
  - intros H. now injection H as <-.
Qed.


(** The counts of the store's side are numbers once the page rendered. *)
Lemma displayed_localStats (ui : UI.View) (st : State) :
  render ui st = Done tt -> displayed (localStats st) = Done tt.
Proof.
  unfold render. intros H. apply andThen_done in H.
  destruct H as (u & H & _). destruct u.
  destruct (page_arrays _ _ _ _ H) as ((lo & Ho) & (la & Ha) & _).
  unfold localStats. now rewrite Ho, Ha.
Qed.

Lemma render_page (ui : UI.View) (st : State) :
  render ui st = Done tt ->
  page ui (opportunities st) (activities st) (contacts st) = Done tt.
Proof.
  unfold render. intros H. apply andThen_done in H.
  destruct H as (u & H & _). now destruct u.
Qed.

(** The render of a state in which the prompt for [d] has been opened. *)
Lemma render_prompt (ui : UI.View) (st st' : State) (d : value) :
  render ui st = Done tt ->
  conflictData st' = Some d -> truthy d = true ->
  collections st' = collections st ->
  render ui st' = displayed (fileStats d).
Proof.
  intros Hr Hd Ht Hc.
  pose proof (render_page _ _ Hr) as Hp.
  pose proof (displayed_localStats _ _ Hr) as Hl.
  destruct (conflictModal_shown st st' d Hd Ht Hc) as [Hm _].
  unfold render, prompt. rewrite Hm.
  unfold collections in Hc. injection Hc as -> -> ->.
  rewrite Hp. simpl. unfold ConflictModal. now rewrite Hl.
Qed.

Lemma fileStats_emptyFileData :
  fileStats emptyFileData = (ShownCount 0, ShownCount 0).
Proof. reflexivity. Qed.

Lemma fileStats_array_shaped (fields : list (string * value)) :
  array_shaped fields ->
  displayed (fileStats (JObj fields)) = Done tt.
Proof.
  intros (H1 & H2 & H3 & H4 & _). unfold fileStats.
  now rewrite !fileStat_array_shaped.
Qed.

(** C1, as the code has it.  The application is on screen in state [st],
    whose store holds at least one opportunity.  Reconciling a selected
    file never changes the three collections, whatever the file holds.
    Whenever the file data is readable (the text is empty, is not JSON, or
    parses to a truthy value whose opportunity members can be measured)
    and its two counts can be displayed, the engine ends in
    AwaitingUserChoice: the conflict prompt is shown with the counts of
    both sides, nothing is written, and no save is armed on the connected
    file.  If one of the two counts is an object the render of the prompt
    throws and the application is gone.  A text that is empty or not JSON,
    and an object whose collections, where present, are arrays, are
    readable and their counts can be displayed. *)
Theorem reconcile_nonempty_store (ui : UI.View) (st : State) (text : string)
  (handle : option FileSystemFileHandle) (o : value) (os : list value) :
  opportunities st = JArr (o :: os) ->
  render ui st = Done tt ->
  (forall st', step ui st (connect text handle) = Done st' ->
               collections st' = collections st)
  /\ (readable (parseFileText text) ->
      (displayed (fileStats (parseFileText text)) = Done tt ->
       exists st',
         step ui st (connect text handle) = Done st'
         /\ syncState st' = AwaitingUserChoice
         /\ conflictModal st'
            = Some (localStats st, fileStats (parseFileText text))
         /\ collections st' = collections st
         /\ written st' = written st
         /\ (handle <> None -> saveTimer st' = false))
      /\ (displayed (fileStats (parseFileText text)) = Thrown ->
          step ui st (connect text handle) = Thrown))
  /\ (text = "" \/ JSON_parse text = None
      \/ (exists fields,
            JSON_parse text = Some (JObj fields) /\ array_shaped fields) ->
      readable (parseFileText text)
      /\ displayed (fileStats (parseFileText text)) = Done tt).
Proof.
  intros Hst Hr. split; [|split].
  - intros st' H.
    destruct (fileHasData (parseFileText text)) as [b|e] eqn:Hf.
    + rewrite (step_connect _ _ _ _ _
                 (processFileContent_local st text handle o os b Hst Hf)) in H.
      apply present_done in H.
      destruct (commit_conflict st handle (parseFileText text))
        as (st2 & Hc & _ & Hcol & _).
      congruence.
    + rewrite (step_connect_throws _ _ _ _ _
                 (processFileContent_throws st text handle e Hf)) in H.
      congruence.
  - intros [Ht [b Hf]].
    destruct (commit_conflict st handle (parseFileText text))
      as (st2 & Hc & Hd & Hcol & Hw & _ & Htimer).
    rewrite (step_connect _ _ _ _ _
               (processFileContent_local st text handle o os b Hst Hf)).
    rewrite (present_commit _ _ _ _ Hc).
    rewrite (render_prompt ui st st2 _ Hr Hd Ht Hcol).
    split; intros Hshow; rewrite Hshow; simpl; [|reflexivity].
    exists st2.
    destruct (conflictModal_shown st st2 _ Hd Ht Hcol) as [Hm Hs].
    repeat split; auto.
  - intros [Htext | [Htext | (fields & Hp & Hs)]].
    + rewrite (parseFileText_empty text (or_introl Htext)).
      split; [apply readable_emptyFileData | reflexivity].
    + rewrite (parseFileText_empty text (or_intror Htext)).
      split; [apply readable_emptyFileData | reflexivity].
    + rewrite (parseFileText_parsed _ _ Hp). split.
      * destruct Hs as (H1 & H2 & _). now apply readable_object.
      * now apply fileStats_array_shaped.
Qed.


(** The render of a state whose conflict data is falsy: no prompt. *)
Lemma render_no_prompt (ui : UI.View) (st st' : State) (d : value) :
  render ui st = Done tt ->
  conflictData st' = Some d -> truthy d = false ->
  collections st' = collections st ->
  render ui st' = Done tt.
Proof.
  intros Hr Hd Ht Hc. pose proof (render_page _ _ Hr) as Hp.
  unfold render, prompt, conflictModal. rewrite Hd, Ht.
  unfold collections in Hc. injection Hc as -> -> ->.
  now rewrite Hp.
Qed.

Lemma memberless_no_data (v : value) :
  memberless v ->
  fileHasData v = Ok false /\ fileStats v = (ShownCount 0, ShownCount 0).
Proof.
  destruct v as [| | | | |fields]; simpl; try contradiction;
    try (intros _; split; reflexivity).
  intros (H1 & H2 & H3 & H4).
  unfold fileHasData, fileStats, fileStat; simpl.
  now rewrite H1, H2, H3, H4.
Qed.

(** C5, as the code has it.  The application is on screen in state [st].
    A text that is absent, empty or not valid JSON is read as three empty
    collections.  Such a text, and valid JSON other than [null] without
    the members the reconciliation counts, is a file in which no
    opportunity is found, with counts 0 and 0.  For every text in which
    no opportunity is found, reconciliation raises nothing, the
    application stays mounted provided the counts of a prompt can be
    displayed, nothing is written, and the three in-memory collections
    are left exactly as they were: a store holding opportunities gets the
    file data as pending conflict data, shown in the prompt when truthy,
    and a store holding none keeps its pending conflict data untouched. *)
Theorem unparseable_file_tolerated (ui : UI.View) (st : State)
  (text : string) (handle : option FileSystemFileHandle) (l : list value) :
  opportunities st = JArr l ->
  render ui st = Done tt ->
  (text = "" \/ JSON_parse text = None -> parseFileText text = emptyFileData)
  /\ (text = "" \/ JSON_parse text = None
      \/ (exists v, JSON_parse text = Some v /\ memberless v) ->
      fileHasData (parseFileText text) = Ok false
      /\ fileStats (parseFileText text) = (ShownCount 0, ShownCount 0))
  /\ (fileHasData (parseFileText text) = Ok false ->
      l = [] \/ displayed (fileStats (parseFileText text)) = Done tt ->
      exists us st',
        processFileContent st text handle = Ok us
        /\ step ui st (connect text handle) = Done st'
        /\ collections st' = collections st
        /\ written st' = written st
        /\ match l with
           | [] => conflictData st' = conflictData st
           | _ :: _ =>
               conflictData st' = Some (parseFileText text)
               /\ (truthy (parseFileText text) = true ->
                   conflictModal st'
                   = Some (localStats st, fileStats (parseFileText text)))
           end).
Proof.
  intros Hst Hr. split; [apply parseFileText_empty|]. split.
  - intros [Htext | [Htext | (v & Hp & Hv)]].
    + rewrite (parseFileText_empty text (or_introl Htext)).
      split; reflexivity.
    + rewrite (parseFileText_empty text (or_intror Htext)).
      split; reflexivity.
    + rewrite (parseFileText_parsed _ _ Hp). now apply memberless_no_data.
  - intros Hf Hshow. destruct l as [|o os].
    + pose proof (processFileContent_both_empty st text handle Hst Hf) as H.
      destruct (commit_both_empty st handle)
        as (st' & Hc & Hcol & Hd & Hw & _).
      eexists _, st'. split; [exact H|].
      rewrite (step_connect _ _ _ _ _ H), (present_commit _ _ _ _ Hc).
      rewrite (render_reads ui st st' Hcol Hd), Hr. auto.
    + pose proof (processFileContent_local st text handle o os false Hst Hf)
        as H.
      destruct (commit_conflict st handle (parseFileText text))
        as (st' & Hc & Hd & Hcol & Hw & _).
      eexists _, st'. split; [exact H|].
      rewrite (step_connect _ _ _ _ _ H), (present_commit _ _ _ _ Hc).
      destruct Hshow as [Hl | Hshow]; [discriminate|].
      destruct (truthy (parseFileText text)) eqn:Ht.
      * rewrite (render_prompt ui st st' _ Hr Hd Ht Hcol), Hshow.
        repeat split; auto. intros _.
        now destruct (conflictModal_shown st st' _ Hd Ht Hcol).
      * rewrite (render_no_prompt ui st st' _ Hr Hd Ht Hcol).
        repeat split; auto. discriminate.
Qed.

(** Adoption, rendered: a store without opportunities takes over the
    file's collections, and if they render the application ends with no
    prompt of its own and marked dirty by the effect that tracks unsaved
    changes; if they do not, the application is gone. *)
Lemma adoption_rendered (ui : UI.View) (st : State) (text : string)
  (handle : option FileSystemFileHandle) (fields : list (string * value))
  (o : value) (os : list value) :
  opportunities st = JArr [] ->
  parseFileText text = JObj fields ->
  lookup "opportunities" fields = Some (JArr (o :: os)) ->
  exists st',
    step ui st (connect text handle) = (ensure render ui st' ;; Done st')
    /\ collections st'
       = (JArr (o :: os),
          or_empty (or_else (lookup "activities" fields)
                      (lookup "acts" fields)),
          or_empty (lookup "contacts" fields))
    /\ conflictData st' = conflictData st
    /\ hasUnsavedChanges st' = true.
Proof.
  intros Hst Hp Ho.
  pose proof (processFileContent_adopts st text handle fields o os Hst Hp Ho)
    as H.
  destruct (commit_adoption st handle o os
              (or_empty (or_else (lookup "activities" fields)
                           (lookup "acts" fields)))
              (or_empty (lookup "contacts" fields)) Hst)
    as (st' & Hc & Hcol & Hu & Hd & _).
  exists st'.
  rewrite (step_connect _ _ _ _ _ H), (present_commit _ _ _ _ Hc). auto.
Qed.

End RenderFacts.

(** ** The mounted application on the reference host *)

Module RenderExamples.
Import App Samples RenderSamples Render.
#[local] Existing Instance RefHost.host.

Lemma reconcile_nonempty_store_witness :
  exists st',
    step UI.initial tracked (connect (fileOf tracked) (Some handle)) = Done st'
    /\ syncState st' = AwaitingUserChoice
    /\ conflictModal st'
       = Some (localStats tracked, fileStats (parseFileText (fileOf tracked)))
    /\ collections st' = collections tracked
    /\ written st' = written tracked
    /\ (Some handle <> None -> saveTimer st' = false).
Proof.
  refine (proj1 (proj1 (proj2 (reconcile_nonempty_store UI.initial tracked
                          (fileOf tracked) (Some handle) acmeRecord []
                          eq_refl _)) _) _).
  - vm_compute. reflexivity.
  - split; [vm_compute; reflexivity | exists true; vm_compute; reflexivity].
  - vm_compute. reflexivity.
Defined.

(** A file holding the JSON value [false] against a store with one
    opportunity: no prompt appears and a save of the local data is armed
    on the file. *)
Lemma reconcile_nonempty_store_counterexample :
  ~ (forall (host : Host) (ui : UI.View) (st : State) (text : string)
       (h : option FileSystemFileHandle),
        (exists o os, opportunities st = JArr (o :: os)) ->
        render ui st = Done tt ->
        exists st',
          step ui st (connect text h) = Done st'
          /\ syncState st' = AwaitingUserChoice).
Proof.
  intros H.
  destruct (H RefHost.host UI.initial tracked "false" (Some handle))
    as (st' & Hd & Hs).
  - exists acmeRecord, []. reflexivity.
  - vm_compute. reflexivity.
  - vm_compute in Hd. injection Hd as <-. vm_compute in Hs. discriminate.
Qed.

(** A file whose activity count is an object against the same store: the
    render of the prompt throws. *)
Lemma prompt_takes_application_down :
  readable (parseFileText uncountable)
  /\ step UI.initial tracked (connect uncountable (Some handle)) = Thrown.
Proof.
  split.
  - split; [vm_compute; reflexivity | exists false; vm_compute; reflexivity].
  - vm_compute. reflexivity.
Qed.

(** C2, where the code departs from it.  An empty store connects, with a
    live handle, a file that holds one opportunity: the file is adopted
    wholesale, the page renders, the engine converges and no prompt is
    shown, but the effect tracking unsaved changes runs on the adopted
    collections and the store ends marked dirty, until the armed save has
    fired. *)
Theorem connect_leaves_store_dirty :
  exists st',
    step UI.initial (store [] [] [])
      (ConnectFile (fileOf (store [acmeRecord] [] [])) handle) = Done st'
    /\ collections st' = (JArr [acmeRecord], JArr [], JArr [])
    /\ syncState st' = Converged
    /\ conflictModal st' = None
    /\ syncStatus st' = saved
    /\ hasUnsavedChanges st' = true
    /\ hasUnsavedChanges (saveData st' true) = false.
Proof.
  eexists. split; [vm_compute; reflexivity|]. repeat split.
Qed.

(** The same through the file input, which grants no handle: the store is
    left unconnected and marked dirty. *)
Lemma import_leaves_store_dirty :
  exists st',
    step UI.initial (store [] [] [])
      (ManualImport (fileOf (store [acmeRecord] [] []))) = Done st'
    /\ collections st' = (JArr [acmeRecord], JArr [], JArr [])
    /\ syncState st' = Unconnected
    /\ hasUnsavedChanges st' = true.
Proof.
  eexists. split; [vm_compute; reflexivity|]. repeat split.
Qed.

(** A record without its [role] is adopted too, and the render that
    follows throws in [filteredOpportunities]. *)
Lemma incomplete_record_takes_application_down :
  step UI.initial (store [] [] [])
    (ConnectFile (fileOf (store [acme] [] [])) handle) = Thrown.
Proof. vm_compute. reflexivity. Qed.

Lemma unparseable_file_tolerated_witness :
  exists us st',
    processFileContent tracked "{oops" None = Ok us
    /\ step UI.initial tracked (connect "{oops" None) = Done st'
    /\ collections st' = collections tracked
    /\ written st' = written tracked
    /\ conflictData st' = Some (parseFileText "{oops")
    /\ (truthy (parseFileText "{oops") = true ->
        conflictModal st'
        = Some (localStats tracked, fileStats (parseFileText "{oops"))).
Proof.
  refine (proj2 (proj2 (unparseable_file_tolerated UI.initial tracked "{oops"
                          None [acmeRecord] eq_refl _)) _ _).
  - vm_compute. reflexivity.
  - vm_compute. reflexivity.
  - right. vm_compute. reflexivity.
Defined.

(** Texts that are JSON but not the expected object.  The text [null]
    makes reconciliation throw.  A file whose [opportunities] member is a
    string is adopted by a store without opportunities, and the render
    that follows throws: the application is gone. *)
Lemma unparseable_file_tolerated_counterexample :
  render UI.initial (store [] [] [sarahRecord]) = Done tt
  /\ processFileContent (store [] [] [sarahRecord]) "null" None
     = Throw TypeError
  /\ step UI.initial (store [] [] [sarahRecord]) (ManualImport misshapen)
     = Thrown.
Proof. repeat split; vm_compute; reflexivity. Qed.

End RenderExamples.

(** ** Edits of the collections *)

Module AppDataFacts.
Import ActivityModal AppData.

Lemma find_id_none (id : string) (l : list Contact.t) :
  find (fun c => Contact.id c =? id) l = None <->
  ~ In id (map Contact.id l).
Proof.
  induction l as [|x l IH]; simpl; [tauto|].
  destruct (Contact.id x =? id) eqn:E.
  - apply String.eqb_eq in E. split; [discriminate|]. intros H. exfalso. auto.
  - apply String.eqb_neq in E. rewrite IH. tauto.
Qed.

Lemma map_replace_ids (c : Contact.t) (l : list Contact.t) :
  map Contact.id
    (map (fun x => if Contact.id x =? Contact.id c then c else x) l)
  = map Contact.id l.
Proof.
  induction l as [|x l IH]; simpl; [reflexivity|]. rewrite IH. f_equal.
  destruct (Contact.id x =? Contact.id c) eqn:E; [|reflexivity].
  apply String.eqb_eq in E. congruence.
Qed.

(** X11. Saving a contact keeps one entry per identifier: a contact whose
    identifier is present replaces every entry carrying it, in place, and
    the identifiers and their order stay as they were; any other contact
    is appended.  Contacts with another identifier are untouched. *)
Theorem save_contact_upserts (c : Contact.t) (prev : list Contact.t) :
  map Contact.id (handleSaveContact c prev)
  = (if existsb (String.eqb (Contact.id c)) (map Contact.id prev)
     then map Contact.id prev
     else map Contact.id prev ++ [Contact.id c])%list
  /\ In c (handleSaveContact c prev)
  /\ (forall x, In x (handleSaveContact c prev) ->
                Contact.id x = Contact.id c -> x = c)
  /\ (forall x, Contact.id x <> Contact.id c ->
                (In x (handleSaveContact c prev) <-> In x prev)).
Proof.
  unfold handleSaveContact.
  destruct (find _ prev) as [e|] eqn:F.
  - pose proof (find_some _ _ F) as [Hin He].
    apply String.eqb_eq in He.
    assert (Hex : existsb (String.eqb (Contact.id c)) (map Contact.id prev)
                  = true).
    { apply existsb_exists. exists (Contact.id e). split.
      - now apply in_map.
      - rewrite He. apply String.eqb_refl. }
    rewrite Hex, map_replace_ids. repeat split.
    + apply in_map_iff. exists e. split; [|exact Hin].
      rewrite He. now rewrite String.eqb_refl.
    + intros x Hx Hid. apply in_map_iff in Hx.
      destruct Hx as (y & Hy & _).
      destruct (Contact.id y =? Contact.id c) eqn:E; [congruence|].
      subst y. apply String.eqb_neq in E. contradiction.
    + intros Hx. apply in_map_iff in Hx. destruct Hx as (y & Hy & Hiny).
      destruct (Contact.id y =? Contact.id c); [|now subst].
      subst. contradiction.
    + intros Hx. apply in_map_iff. exists x. split; [|exact Hx].
      apply String.eqb_neq in H. now rewrite H.
  - pose proof (proj1 (find_id_none _ _) F) as Hn.
    assert (Hex : existsb (String.eqb (Contact.id c)) (map Contact.id prev)
                  = false).
    { destruct (existsb _ _) eqn:E; [|reflexivity].
      apply existsb_exists in E. destruct E as (y & Hy & E).
      apply String.eqb_eq in E. subst y. contradiction. }
    rewrite Hex, map_app. simpl. repeat split.
    + apply in_or_app. right. now left.
    + intros x Hx Hid. apply in_app_or in Hx. destruct Hx as [Hx | [Hx | []]].
      * exfalso. apply Hn. rewrite <- Hid. now apply in_map.
      * now subst.
    + intros Hx. apply in_app_or in Hx. destruct Hx as [Hx | [Hx | []]].
      * exact Hx.
      * subst. contradiction.
    + intros Hx. apply in_or_app. now left.
Qed.

(** X12. Deleting a contact removes every entry with that identifier and
    nothing else, and does not cascade: opportunities and activities are
    untouched, so an activity that referred to the contact still does.
    Declining the confirmation changes nothing. *)
Theorem delete_contact_does_not_cascade (id : string) (st : Store) :
  (forall c, In c (storeContacts (deleteContact true id st)) <->
             In c (storeContacts st) /\ Contact.id c <> id)
  /\ storeActivities (deleteContact true id st) = storeActivities st
  /\ storeOpportunities (deleteContact true id st) = storeOpportunities st
  /\ (forall a, In a (storeActivities st) -> refersTo id a ->
                 In a (storeActivities (deleteContact true id st))
                 /\ refersTo id a)
  /\ deleteContact false id st = st.
Proof.
  repeat split; simpl; auto.
  - apply filter_In in H. tauto.
  - apply filter_In in H. destruct H as [_ H].
    apply negb_true_iff, String.eqb_neq in H. exact H.
  - intros [H Hn]. apply filter_In. split; [exact H|].
    now apply negb_true_iff, String.eqb_neq.
  - now destruct st.
Qed.

(** Deleting an activity removes every entry with that identifier, keeps
    the others in their order, and touches neither opportunities nor
    contacts. *)
Theorem delete_activity_removes_by_id (id : string) (st : Store) :
  storeActivities (deleteActivity true id st)
  = filter (fun a => negb (Activity.id a =? id)) (storeActivities st)
  /\ ~ In id (map Activity.id (storeActivities (deleteActivity true id st)))
  /\ (forall a, Activity.id a <> id ->
                 (In a (storeActivities (deleteActivity true id st)) <->
                  In a (storeActivities st)))
  /\ storeOpportunities (deleteActivity true id st) = storeOpportunities st
  /\ storeContacts (deleteActivity true id st) = storeContacts st
  /\ deleteActivity false id st = st.
Proof.
  repeat split; simpl; auto.
  - intros H. apply in_map_iff in H. destruct H as (a & Ha & H).
    apply filter_In in H. destruct H as [_ H].
    apply negb_true_iff, String.eqb_neq in H. contradiction.
  - intros Hin. apply filter_In in Hin. tauto.
  - intros Hin. apply filter_In. split; [exact Hin|].
    now apply negb_true_iff, String.eqb_neq.
  - now destruct st.
Qed.

End AppDataFacts.

(** ** Finalization and the collections *)

Module SaveFacts.
Import ActivityModal.

Lemma truthy_str_or_lit (a : option string) (d : string) :
  truthy_str a = true -> or_lit a d <> "" /\ a = Some (or_lit a d).
Proof.
  destruct a as [x|]; simpl; [|discriminate].
  destruct (x =? "") eqn:E; simpl; [discriminate|].
  apply String.eqb_neq in E. auto.
Qed.

(** What a successful [handleSave] checked and produced. *)
Lemma handleSave_some (uuidv4 : nat -> string) (today : string)
  (props : Props) (s : State) (p : SavePayload) :
  handleSave uuidv4 today props s = Some p ->
  truthy_str (Activity.p_title (formData s)) = true
  /\ truthy_str (Activity.p_date (formData s)) = true
  /\ (isNewOp s = false ->
      selectedOpId s <> "" \/ truthy_str (opportunityId props) = true)
  /\ (isNewOp s = true -> employer (newOpData s) <> "")
  /\ Activity.opportunityId (activity p)
     = (if creating props s then uuidv4 0
        else or_lit (opportunityId props) (selectedOpId s))
  /\ newOpportunity p
     = (if creating props s
        then Some {| Opportunity.id := uuidv4 0;
                     Opportunity.position := position (newOpData s);
                     Opportunity.role := role (newOpData s);
                     Opportunity.employer := employer (newOpData s);
                     Opportunity.description := Some "Created via Smart Log";
                     Opportunity.status := status (newOpData s);
                     Opportunity.createdAt := today;
                     Opportunity.updatedAt := today |}
        else None)
  /\ Activity.contactIds (activity p)
     = (or_nil (Activity.p_contactIds (formData s))
        ++ map Contact.id (newContacts p))%list
  /\ Activity.id (activity p)
     = match initialActivity props with
       | Some a =>
           if Activity.id a =? ""
           then uuidv4 ((if creating props s then 1 else 0)
                        + List.length (stagedContacts s))
           else Activity.id a
       | None => uuidv4 ((if creating props s then 1 else 0)
                         + List.length (stagedContacts s))
       end
  /\ Activity.title (activity p) = or_lit (Activity.p_title (formData s)) ""
  /\ Activity.date (activity p) = or_lit (Activity.p_date (formData s)) "".
Proof.
  unfold handleSave, creating. intros H.
  destruct (truthy_str (Activity.p_title (formData s))) eqn:Et;
    [|discriminate].
  destruct (truthy_str (Activity.p_date (formData s))) eqn:Ed;
    [|discriminate].
  simpl in H.
  destruct (negb (isNewOp s) && (selectedOpId s =? "")
            && negb (truthy_str (opportunityId props))) eqn:E1;
    [discriminate|].
  destruct (isNewOp s && (employer (newOpData s) =? "")) eqn:E2;
    [discriminate|].
  injection H as <-. simpl.
  split; [reflexivity|]. split; [reflexivity|]. split.
  { intros Hn. rewrite Hn in E1. simpl in E1.
    destruct (selectedOpId s =? "") eqn:Es.
    - simpl in E1. apply negb_false_iff in E1. now right.
    - apply String.eqb_neq in Es. now left. }
  split.
  { intros Hn. rewrite Hn in E2. simpl in E2.
    now apply String.eqb_neq in E2. }
  repeat split.
  now destruct (isNewOp s && negb (truthy_str (opportunityId props))).
Qed.

(** X14. What the opportunity reference of a saved activity resolves
    to.  When the save creates an opportunity, it is appended to the
    collection under the identifier the activity carries.  Otherwise the
    opportunities are untouched and the activity carries the locked or
    the selected identifier, which is not empty but is checked against
    nothing.  So the reference names a stored opportunity exactly when
    the save created it or the identifier was stored before: a selected
    identifier that names no stored opportunity is saved as it is.  Every
    promoted contact is in the contact collection and among the
    activity's contacts. *)
Theorem saved_reference_resolves (uuidv4 : nat -> string) (today : string)
  (props : Props) (s : State) (st : Store) (p : SavePayload) :
  handleSave uuidv4 today props s = Some p ->
  (creating props s = true ->
   exists o,
     storeOpportunities (save uuidv4 today props s st)
     = (storeOpportunities st ++ [o])%list
     /\ Opportunity.id o = Activity.opportunityId (activity p)
     /\ Opportunity.employer o = employer (newOpData s)
     /\ Opportunity.employer o <> "")
  /\ (creating props s = false ->
      storeOpportunities (save uuidv4 today props s st)
      = storeOpportunities st
      /\ Activity.opportunityId (activity p)
         = or_lit (opportunityId props) (selectedOpId s)
      /\ Activity.opportunityId (activity p) <> "")
  /\ (In (Activity.opportunityId (activity p))
        (map Opportunity.id
           (storeOpportunities (save uuidv4 today props s st))) <->
      creating props s = true
      \/ In (or_lit (opportunityId props) (selectedOpId s))
           (map Opportunity.id (storeOpportunities st)))
  /\ (forall c, In c (newContacts p) ->
                In c (storeContacts (save uuidv4 today props s st))
                /\ In (Contact.id c) (Activity.contactIds (activity p))).
Proof.
  intros H.
  destruct (handleSave_some _ _ _ _ _ H)
    as (Ht & Hd & Hsel & Hemp & Hop & Hnew & Hids & _).
  assert (Hsave : save uuidv4 today props s st
                  = handleSaveActivity (initialActivity props) p st).
  { unfold save. now rewrite H. }
  assert (Hstored : storeOpportunities (save uuidv4 today props s st)
                    = match newOpportunity p with
                      | Some o => (storeOpportunities st ++ [o])%list
                      | None => storeOpportunities st
                      end).
  { rewrite Hsave. unfold handleSaveActivity; simpl.
    now destruct (newOpportunity p). }
  split; [|split; [|split]].
  - intros Ec. rewrite Ec in Hop, Hnew. eexists.
    rewrite Hstored, Hnew. split; [reflexivity|]. simpl. rewrite Hop.
    split; [reflexivity|]. split; [reflexivity|].
    apply Hemp. unfold creating in Ec. now apply andb_true_iff in Ec.
  - intros Ec. rewrite Ec in Hop, Hnew.
    rewrite Hstored, Hnew.
    split; [reflexivity|]. split; [exact Hop|]. rewrite Hop.
    unfold creating in Ec.
    destruct (truthy_str (opportunityId props)) eqn:El.
    + exact (proj1 (truthy_str_or_lit _ (selectedOpId s) El)).
    + rewrite andb_true_r in Ec.
      destruct (Hsel Ec) as [Hs | Hs]; [|discriminate].
      destruct (opportunityId props) as [x|]; simpl in *; [|exact Hs].
      destruct (x =? ""); [exact Hs|discriminate].
  - rewrite Hstored, Hnew, Hop.
    destruct (creating props s); simpl.
    + split; [auto|]. intros _. rewrite map_app. apply in_or_app.
      right. simpl. auto.
    + split; [auto|]. intros [Hc | Hin]; [discriminate | exact Hin].
  - intros c Hc. split.
    + rewrite Hsave. simpl. apply in_or_app. now right.
    + rewrite Hids. apply in_or_app. right. now apply in_map.
Qed.

(** X13. [handleSave] reaches [onSave] exactly when the title and the date are
    set and the opportunity is determined: in "existing" mode an
    opportunity is selected or the context is locked, in "new" mode the
    employer is given. *)
Theorem save_accepted_iff (uuidv4 : nat -> string) (today : string)
  (props : Props) (s : State) :
  (exists p, handleSave uuidv4 today props s = Some p) <->
  truthy_str (Activity.p_title (formData s)) = true
  /\ truthy_str (Activity.p_date (formData s)) = true
  /\ (isNewOp s = false ->
      selectedOpId s <> "" \/ truthy_str (opportunityId props) = true)
  /\ (isNewOp s = true -> employer (newOpData s) <> "").
Proof.
  split.
  - intros [p H].
    destruct (handleSave_some _ _ _ _ _ H) as (Ht & Hd & Hsel & Hemp & _).
    auto.
  - intros (Ht & Hd & Hsel & Hemp). unfold handleSave.
    rewrite Ht, Hd. simpl.
    destruct (isNewOp s) eqn:En; simpl.
    + specialize (Hemp eq_refl). apply String.eqb_neq in Hemp.
      rewrite Hemp. eauto.
    + destruct (Hsel eq_refl) as [Hs | Hl].
      * apply String.eqb_neq in Hs. rewrite Hs. simpl. eauto.
      * rewrite Hl, andb_false_r. eauto.
Qed.

Lemma map_replace_activity_ids (x : Activity.t) (l : list Activity.t) :
  map Activity.id
    (map (fun a => if Activity.id a =? Activity.id x then x else a) l)
  = map Activity.id l.
Proof.
  induction l as [|a l IH]; simpl; [reflexivity|]. rewrite IH. f_equal.
  destruct (Activity.id a =? Activity.id x) eqn:E; [|reflexivity].
  apply String.eqb_eq in E. congruence.
Qed.

Lemma map_replace_absent (x : Activity.t) (l : list Activity.t) :
  ~ In (Activity.id x) (map Activity.id l) ->
  map (fun a => if Activity.id a =? Activity.id x then x else a) l = l.
Proof.
  induction l as [|a l IH]; simpl; intros H; [reflexivity|].
  destruct (Activity.id a =? Activity.id x) eqn:E.
  - apply String.eqb_eq in E. exfalso. auto.
  - rewrite IH; auto.
Qed.

(** X15. Saving an edited activity keeps its identifier and replaces, in
    place, every stored activity carrying it: the identifiers of the
    collection and their order do not change.  If no stored activity
    carries the identifier, the edit is dropped: nothing is appended. *)
Theorem edit_replaces_in_place (uuidv4 : nat -> string) (today : string)
  (props : Props) (s : State) (st : Store) (p : SavePayload)
  (a : Activity.t) :
  initialActivity props = Some a ->
  Activity.id a <> "" ->
  handleSave uuidv4 today props s = Some p ->
  Activity.id (activity p) = Activity.id a
  /\ map Activity.id (storeActivities (save uuidv4 today props s st))
     = map Activity.id (storeActivities st)
  /\ (forall x, In x (storeActivities (save uuidv4 today props s st)) ->
                Activity.id x = Activity.id a -> x = activity p)
  /\ (forall x, Activity.id x <> Activity.id a ->
                (In x (storeActivities (save uuidv4 today props s st)) <->
                 In x (storeActivities st)))
  /\ (~ In (Activity.id a) (map Activity.id (storeActivities st)) ->
      storeActivities (save uuidv4 today props s st) = storeActivities st).
Proof.
  intros Hi Hne H.
  destruct (handleSave_some _ _ _ _ _ H) as (_ & _ & _ & _ & _ & _ & _ & Hid & _).
  rewrite Hi in Hid. apply String.eqb_neq in Hne. rewrite Hne in Hid.
  assert (Hsave : storeActivities (save uuidv4 today props s st)
                  = map (fun x => if Activity.id x =? Activity.id (activity p)
                                  then activity p else x)
                      (storeActivities st)).
  { unfold save. rewrite H. unfold handleSaveActivity. simpl. now rewrite Hi. }
  rewrite Hsave. split; [exact Hid|]. split; [apply map_replace_activity_ids|].
  rewrite <- Hid. repeat split.
  - intros x Hx Hxid. apply in_map_iff in Hx. destruct Hx as (y & Hy & _).
    destruct (Activity.id y =? Activity.id (activity p)) eqn:E; [congruence|].
    subst y. apply String.eqb_neq in E. contradiction.
  - intros Hx. apply in_map_iff in Hx. destruct Hx as (y & Hy & Hin).
    destruct (Activity.id y =? Activity.id (activity p)); [|now subst].
    subst. contradiction.
  - intros Hx. apply in_map_iff. exists x. split; [|exact Hx].
    apply String.eqb_neq in H0. now rewrite H0.
  - apply map_replace_absent.
Qed.

(** Saving a new activity appends it, under the identifier of the last
    generator call of the save, and leaves the stored activities as they
    were. *)
Theorem new_activity_is_appended (uuidv4 : nat -> string) (today : string)
  (props : Props) (s : State) (st : Store) (p : SavePayload) :
  initialActivity props = None ->
  handleSave uuidv4 today props s = Some p ->
  storeActivities (save uuidv4 today props s st)
  = (storeActivities st ++ [activity p])%list
  /\ Activity.id (activity p)
     = uuidv4 ((if creating props s then 1 else 0)
               + List.length (stagedContacts s))
  /\ Activity.title (activity p) <> ""
  /\ Activity.date (activity p) <> "".
Proof.
  intros Hi H.
  destruct (handleSave_some _ _ _ _ _ H)
    as (Ht & Hd & _ & _ & _ & _ & _ & Hid & Htitle & Hdate).
  rewrite Hi in Hid. repeat split.
  - unfold save. rewrite H. unfold handleSaveActivity. simpl. now rewrite Hi.
  - exact Hid.
  - rewrite Htitle. exact (proj1 (truthy_str_or_lit _ "" Ht)).
  - rewrite Hdate. exact (proj1 (truthy_str_or_lit _ "" Hd)).
Qed.

End SaveFacts.

From Stdlib Require Import Lia.

(** ** Form edits *)

Module ModalEditFacts.
Import ActivityModal ModalEdits.

Lemma existsb_eqb_iff (x : string) (l : list string) :
  existsb (String.eqb x) l = true <-> In x l.
Proof.
  rewrite existsb_exists. split.
  - intros (y & Hy & E). apply String.eqb_eq in E. now subst.
  - intros H. exists x. split; [exact H|apply String.eqb_refl].
Qed.

Lemma filter_other (x y : string) (l : list string) :
  y <> x -> (In y (filter (fun id => negb (id =? x)) l) <-> In y l).
Proof.
  intros Hne. rewrite filter_In. split; [tauto|].
  intros H. split; [exact H|].
  now apply negb_true_iff, String.eqb_neq.
Qed.

Lemma filter_self (x : string) (l : list string) :
  ~ In x (filter (fun id => negb (id =? x)) l).
Proof.
  rewrite filter_In. intros [_ H].
  rewrite String.eqb_refl in H. discriminate.
Qed.

Lemma filter_absent (x : string) (l : list string) :
  ~ In x l -> filter (fun id => negb (id =? x)) l = l.
Proof.
  induction l as [|y l IH]; simpl; intros H; [reflexivity|].
  destruct (y =? x) eqn:E.
  - apply String.eqb_eq in E. exfalso. auto.
  - simpl. rewrite IH; auto.
Qed.

Lemma filter_app_last (x : string) (l : list string) :
  ~ In x l -> filter (fun id => negb (id =? x)) (l ++ [x]) = l.
Proof.
  intros H. rewrite filter_app, (filter_absent _ _ H). simpl.
  rewrite String.eqb_refl. simpl. apply app_nil_r.
Qed.

(** X19. Toggling a contact flips its membership among the activity's
    contacts and leaves every other identifier where it was: a contact
    that is absent is added last, one that is present is removed wherever
    it occurs.  Toggling an absent contact twice restores the list. *)
Theorem toggle_flips_membership (x : string) (prev : Activity.partial) :
  let before := or_nil (Activity.p_contactIds prev) in
  let after := or_nil (Activity.p_contactIds (toggleContact x prev)) in
  (In x after <-> ~ In x before)
  /\ (forall y, y <> x -> (In y after <-> In y before))
  /\ (~ In x before ->
      after = (before ++ [x])%list
      /\ or_nil (Activity.p_contactIds (toggleContact x (toggleContact x prev)))
         = before).
Proof.
  intros before after. subst after. unfold toggleContact. fold before.
  destruct (existsb (String.eqb x) before) eqn:E.
  - apply existsb_eqb_iff in E. simpl. split; [|split].
    + split; [intros H; now apply filter_self in H|contradiction].
    + intros y Hy. now apply filter_other.
    + contradiction.
  - assert (Hn : ~ In x before).
    { intros H. apply existsb_eqb_iff in H. congruence. }
    simpl. split; [|split].
    + split; [auto|]. intros _. apply in_or_app. right. now left.
    + intros y Hy. rewrite in_app_iff. simpl. split; [|tauto].
      intros [H | [H | []]]; [exact H|]. subst. contradiction.
    + intros _. split; [reflexivity|].
      assert (Ex : existsb (String.eqb x) (before ++ [x]) = true).
      { apply existsb_eqb_iff, in_or_app. right. now left. }
      rewrite Ex. simpl. now apply filter_app_last.
Qed.

Lemma filter_index_above {A : Type} (j k : nat) (l : list A) :
  (j < k)%nat -> filter_index (fun n => negb (n =? j)%nat) k l = l.
Proof.
  revert k. induction l as [|x l IH]; intros k Hlt; simpl; [reflexivity|].
  assert (E : (k =? j)%nat = false) by (apply Nat.eqb_neq; lia).
  rewrite E. simpl. f_equal. apply IH. lia.
Qed.

Lemma filter_index_split {A : Type} (idx i : nat) (l : list A) :
  filter_index (fun k => negb (k =? i + idx)%nat) i l
  = (firstn idx l ++ skipn (S idx) l)%list.
Proof.
  revert i idx. induction l as [|x l IH]; intros i idx; simpl.
  - now destruct idx.
  - destruct idx as [|idx].
    + rewrite Nat.add_0_r, Nat.eqb_refl. simpl.
      apply filter_index_above. lia.
    + assert (E : (i =? i + S idx)%nat = false) by (apply Nat.eqb_neq; lia).
      rewrite E. cbn [negb firstn app]. f_equal.
      change (skipn (S (S idx)) (x :: l)) with (skipn (S idx) l).
      rewrite <- (IH (S i) idx).
      replace (S i + idx)%nat with (i + S idx)%nat by lia. reflexivity.
Qed.

(** Removing the staged contact at a position drops that entry and keeps
    the others in order; a position past the end removes nothing. *)
Theorem remove_staged_at (idx : nat) (prev : list Contact.partial) :
  removeStagedContact idx prev
  = (firstn idx prev ++ skipn (S idx) prev)%list
  /\ ((idx < List.length prev)%nat ->
      S (List.length (removeStagedContact idx prev)) = List.length prev)
  /\ ((List.length prev <= idx)%nat -> removeStagedContact idx prev = prev).
Proof.
  assert (H : removeStagedContact idx prev
              = (firstn idx prev ++ skipn (S idx) prev)%list).
  { unfold removeStagedContact. exact (filter_index_split idx 0 prev). }
  rewrite H. split; [reflexivity|]. split.
  - intros Hlt. rewrite length_app, length_firstn, length_skipn. lia.
  - intros Hle. rewrite firstn_all2 by exact Hle.
    rewrite skipn_all2 by lia. apply app_nil_r.
Qed.

End ModalEditFacts.

(** ** The editing form and the auto-fill of activity fields *)

Module EditFacts.
Import ActivityModal ModalEdits.

Lemma beforeT_noT (s : string) : hasT s = false -> beforeT s = s.
Proof.
  unfold hasT. intros H. apply negb_false_iff, Nat.eqb_eq in H.
  induction s as [|c s IH]; simpl in *; [reflexivity|].
  destruct (nat_of_ascii c =? 84)%nat; simpl in H; [discriminate|].
  f_equal. apply IH. now injection H.
Qed.

Lemma or_lit_self (x : string) : or_lit (Some x) "" = x.
Proof.
  simpl. destruct (x =? "") eqn:E; [|reflexivity].
  apply String.eqb_eq in E. now subst.
Qed.

Lemma truthy_some (x : string) : x <> "" -> truthy_str (Some x) = true.
Proof. intros H. simpl. apply String.eqb_neq in H. now rewrite H. Qed.

(** X16. Opening an activity for editing and saving without a change gives the
    activity back, its date cut to the day part before a [T]; an activity
    whose date has no time part is saved exactly as it was, with no new
    opportunity and no new contact. *)
Theorem edit_then_save_roundtrip (uuidv4 : nat -> string) (today : string)
  (a : Activity.t) (cs : list Contact.t) (ops : list Opportunity.t) :
  Activity.id a <> "" ->
  Activity.opportunityId a <> "" ->
  Activity.title a <> "" ->
  beforeT (Activity.date a) <> "" ->
  handleSave uuidv4 today (editProps a cs ops) (initEdit a (mounted today))
  = Some {| activity := redated a; newOpportunity := None;
            newContacts := [] |}
  /\ (hasT (Activity.date a) = false -> redated a = a).
Proof.
  intros Hid Hop Ht Hd. split.
  - assert (Hdate : (if hasT (Activity.date a) then beforeT (Activity.date a)
                     else Activity.date a) = beforeT (Activity.date a)).
    { destruct (hasT (Activity.date a)) eqn:E; [reflexivity|].
      symmetry. now apply beforeT_noT. }
    unfold handleSave, initEdit, editProps. simpl formData.
    cbn [Activity.p_title Activity.p_date isNewOp selectedOpId newOpData
         stagedContacts opportunityId initialActivity].
    rewrite Hdate, (truthy_some _ Ht), (truthy_some _ Hd),
      (truthy_some _ Hop).
    cbn [negb orb andb]. rewrite andb_false_r.
    apply String.eqb_neq in Hid. rewrite Hid.
    cbn [promote map Activity.p_contactIds or_nil Activity.p_type
         Activity.p_description Activity.p_followUpAction
         Activity.p_followUpDate].
    rewrite app_nil_r, !or_lit_self.
    unfold redated. repeat f_equal.
    now apply or_lit_some.
  - intros H. unfold redated. rewrite (beforeT_noT _ H). now destruct a.
Qed.

(** X17. Auto-fill never overwrites what the caller entered: a title or a
    follow-up that is set, a type other than "Other" and a date other
    than today stay as they are, and the description and the selected
    contacts are never touched.  Filling twice from the same extraction
    changes nothing more. *)
Theorem fill_keeps_entered_values (today : string)
  (a prev : Activity.partial) :
  (truthy_str (Activity.p_title prev) = true ->
   Activity.p_title (activityLogic today a prev) = Activity.p_title prev)
  /\ (Activity.p_type prev <> Some ActivityType.OTHER ->
      Activity.p_type (activityLogic today a prev) = Activity.p_type prev)
  /\ (Activity.p_date prev <> Some today ->
      Activity.p_date (activityLogic today a prev) = Activity.p_date prev)
  /\ (truthy_str (Activity.p_followUpAction prev) = true ->
      Activity.p_followUpAction (activityLogic today a prev)
      = Activity.p_followUpAction prev)
  /\ (truthy_str (Activity.p_followUpDate prev) = true ->
      Activity.p_followUpDate (activityLogic today a prev)
      = Activity.p_followUpDate prev)
  /\ Activity.p_description (activityLogic today a prev)
     = Activity.p_description prev
  /\ Activity.p_contactIds (activityLogic today a prev)
     = Activity.p_contactIds prev
  /\ activityLogic today a (activityLogic today a prev)
     = activityLogic today a prev.
Proof.
  assert (Hkeep : forall x y, truthy_str x = true ->
                              Some (or_lit (or_str x y) "") = x).
  { intros x y H. unfold or_str. rewrite H.
    symmetry. exact (proj2 (SaveFacts.truthy_str_or_lit x "" H)). }
  assert (Hidem : forall x y,
             Some (or_lit (or_str (Some (or_lit (or_str x y) "")) y) "")
             = Some (or_lit (or_str x y) "")).
  { intros x y. f_equal. unfold or_str.
    destruct x as [x|], y as [y|]; simpl;
      try destruct (x =? "") eqn:Ex; try destruct (y =? "") eqn:Ey;
      simpl; rewrite ?Ex, ?Ey; simpl; rewrite ?Ex, ?Ey; reflexivity. }
  repeat split.
  - intros H. simpl. now apply Hkeep.
  - intros H. simpl. destruct (Activity.p_type prev) as [t|]; [|reflexivity].
    destruct (t =? ActivityType.OTHER) eqn:E; [|reflexivity].
    apply String.eqb_eq in E. subst. contradiction.
  - intros H. simpl. destruct (Activity.p_date prev) as [d|]; [|reflexivity].
    destruct (d =? today) eqn:E; [|reflexivity].
    apply String.eqb_eq in E. subst. contradiction.
  - intros H. simpl. now apply Hkeep.
  - intros H. simpl. now apply Hkeep.
  - unfold activityLogic.
    cbn [Activity.p_title Activity.p_type Activity.p_date
         Activity.p_contactIds Activity.p_description
         Activity.p_followUpAction Activity.p_followUpDate].
    f_equal; try apply Hidem.
    + destruct (Activity.p_type prev) as [t|]; [|reflexivity].
      destruct ((t =? ActivityType.OTHER) && truthy_str (Activity.p_type a))
        eqn:E.
      * apply andb_true_iff in E. destruct E as [_ E].
        destruct (Activity.p_type a) as [t'|]; [|discriminate].
        now destruct ((t' =? ActivityType.OTHER) && truthy_str (Some t')).
      * now rewrite E.
    + destruct (Activity.p_date prev) as [d|]; [|reflexivity].
      destruct ((d =? today) && truthy_str (Activity.p_date a)) eqn:E.
      * apply andb_true_iff in E. destruct E as [_ E].
        destruct (Activity.p_date a) as [d'|]; [|discriminate].
        now destruct ((d' =? today) && truthy_str (Some d')).
      * now rewrite E.
Qed.

End EditFacts.

(** ** Following the extraction's opportunity suggestion *)

Section SuggestionFacts.
Context {host : Host}.
Import ActivityModal ModalEdits.

Lemma handleAutoFill_applied (today : string) (props : Props)
  (r : ParsedActivity) (s s' : State) (d : string) :
  Activity.p_description (formData s) = Some d ->
  trim d <> "" ->
  handleAutoFill today props (Some r) s = Ok s' ->
  isNewOp s' = isNewOp (opportunityLogic props r s)
  /\ selectedOpId s' = selectedOpId (opportunityLogic props r s)
  /\ newOpData s' = newOpData (opportunityLogic props r s).
Proof.
  intros Hd Ht H. unfold handleAutoFill in H. rewrite Hd in H.
  apply String.eqb_neq in Ht. rewrite Ht in H.
  destruct (activityData r) as [a|]; [|discriminate].
  injection H as <-.
  exact (contactLogic_selection props r
           (with_formData (opportunityLogic props r s)
              (activityLogic today a
                 (formData (opportunityLogic props r s))))).
Qed.

(** X18. Outside a locked context the extraction's suggestion decides the
    opportunity of the activity.  A "new" suggestion stages an opportunity
    from the extracted fields (position "Unknown Position" and status
    "Identified" when absent) and clears the selection, and finalization
    then creates that opportunity and points the activity at it; a match
    selects the matched opportunity, and finalization points the activity
    at it and creates none; no suggestion leaves the choice as it was. *)
Theorem suggestion_decides_opportunity (uuidv4 : nat -> string)
  (today : string) (props : Props) (r : ParsedActivity) (s s' : State)
  (d : string) :
  truthy_str (opportunityId props) = false ->
  Activity.p_description (formData s) = Some d ->
  trim d <> "" ->
  handleAutoFill today props (Some r) s = Ok s' ->
  (isNewOpportunity r = true ->
   isNewOp s' = true /\ selectedOpId s' = ""
   /\ employer (newOpData s') = or_lit (extracted r Opportunity.p_employer) ""
   /\ position (newOpData s')
      = or_lit (extracted r Opportunity.p_position) "Unknown Position"
   /\ status (newOpData s')
      = or_lit (extracted r Opportunity.p_status) OpportunityStatus.IDENTIFIED
   /\ forall p, handleSave uuidv4 today props s' = Some p ->
        exists o,
          newOpportunity p = Some o
          /\ Opportunity.id o = Activity.opportunityId (activity p)
          /\ Opportunity.employer o
             = or_lit (extracted r Opportunity.p_employer) "")
  /\ (isNewOpportunity r = false ->
      forall m, opportunityMatchId r = Some m -> m <> "" ->
        isNewOp s' = false /\ selectedOpId s' = m
        /\ newOpData s' = newOpData s
        /\ forall p, handleSave uuidv4 today props s' = Some p ->
             Activity.opportunityId (activity p) = m
             /\ newOpportunity p = None)
  /\ (isNewOpportunity r = false ->
      truthy_str (opportunityMatchId r) = false ->
      isNewOp s' = isNewOp s /\ selectedOpId s' = selectedOpId s
      /\ newOpData s' = newOpData s).
Proof.
  intros Hl Hd Ht H.
  destruct (handleAutoFill_applied _ _ _ _ _ _ Hd Ht H) as (Hn & Hs & Ho).
  unfold opportunityLogic in Hn, Hs, Ho. rewrite Hl in Hn, Hs, Ho.
  split; [|split].
  - intros Hnew. rewrite Hnew in Hn, Hs, Ho. simpl in Hn, Hs, Ho.
    rewrite Ho. unfold extracted. simpl.
    repeat (split; [assumption || reflexivity|]).
    intros p Hp.
    destruct (SaveFacts.handleSave_some _ _ _ _ _ Hp)
      as (_ & _ & _ & _ & Hop & Hnewop & _).
    unfold creating in Hop, Hnewop. rewrite Hn, Hl in Hop, Hnewop.
    simpl in Hop, Hnewop. eexists. split; [exact Hnewop|]. simpl.
    rewrite Hop, Ho. simpl. split; reflexivity.
  - intros Hnew m Hm Hne. rewrite Hnew, Hm in Hn, Hs, Ho.
    simpl in Hn, Hs, Ho. apply String.eqb_neq in Hne.
    rewrite Hne in Hn, Hs, Ho. simpl in Hn, Hs, Ho.
    repeat (split; [assumption|]).
    intros p Hp.
    destruct (SaveFacts.handleSave_some _ _ _ _ _ Hp)
      as (_ & _ & _ & _ & Hop & Hnewop & _).
    unfold creating in Hop, Hnewop. rewrite Hn in Hop, Hnewop.
    simpl in Hop, Hnewop. split; [|exact Hnewop].
    rewrite Hop, Hs. destruct (opportunityId props) as [x|]; simpl in *;
      [|reflexivity].
    destruct (x =? ""); [reflexivity|discriminate].
  - intros Hnew Hm. rewrite Hnew, Hm in Hn, Hs, Ho. auto.
Qed.

End SuggestionFacts.

(** ** The contacts form *)

Module ContactsModalFacts.
Import ContactsModal.

(** X21. The contacts form saves only with a name and a company.  A new
    contact takes a generated identifier and the role "Contact" unless one
    is typed; an edited contact keeps its identifier. *)
Theorem contact_form_saves_iff (uuidv4 : nat -> string) (f : Form) :
  ((exists c, handleSave uuidv4 f = Some c) <->
   ActivityModal.truthy_str (f_name f) = true
   /\ ActivityModal.truthy_str (f_company f) = true)
  /\ (forall c, handleSave uuidv4 f = Some c ->
        Some (Contact.name c) = f_name f
        /\ Some (Contact.company c) = f_company f
        /\ Contact.name c <> "" /\ Contact.company c <> ""
        /\ Contact.id c = ActivityModal.or_lit (f_id f) (uuidv4 0)
        /\ Contact.role c = ActivityModal.or_lit (f_role f) "Contact"
        /\ Contact.phone c = None).
Proof.
  unfold handleSave. split.
  - split.
    + intros [c H].
      destruct (ActivityModal.truthy_str (f_name f)); [|discriminate].
      destruct (ActivityModal.truthy_str (f_company f)); [|discriminate].
      auto.
    + intros [-> ->]. simpl. eauto.
  - intros c H.
    destruct (ActivityModal.truthy_str (f_name f)) eqn:En; [|discriminate].
    destruct (ActivityModal.truthy_str (f_company f)) eqn:Ec;
      [|discriminate].
    injection H as <-. simpl.
    destruct (SaveFacts.truthy_str_or_lit _ "" En) as [Hn1 Hn2].
    destruct (SaveFacts.truthy_str_or_lit _ "" Ec) as [Hc1 Hc2].
    repeat split; auto.
Qed.

(** X22. Editing a stored contact and saving without a change keeps the
    contact collection as it is, entry for entry, except that the edited
    contact loses its phone and an empty role becomes "Contact". *)
Theorem contact_edit_roundtrip (uuidv4 : nat -> string) (c : Contact.t)
  (contacts : list Contact.t) :
  Contact.id c <> "" -> Contact.name c <> "" -> Contact.company c <> "" ->
  In c contacts ->
  handleSave uuidv4 (handleEdit c) = Some (resaved c)
  /\ save uuidv4 (handleEdit c) contacts
     = map (fun x => if Contact.id x =? Contact.id c then resaved c else x)
         contacts
  /\ map Contact.id (save uuidv4 (handleEdit c) contacts)
     = map Contact.id contacts.
Proof.
  intros Hid Hn Hc Hin.
  assert (H : handleSave uuidv4 (handleEdit c) = Some (resaved c)).
  { unfold handleSave, handleEdit. simpl.
    apply String.eqb_neq in Hid, Hn, Hc. rewrite Hid, Hn, Hc. simpl.
    reflexivity. }
  assert (Hs : save uuidv4 (handleEdit c) contacts
               = map (fun x => if Contact.id x =? Contact.id c
                               then resaved c else x) contacts).
  { unfold save. rewrite H. unfold AppData.handleSaveContact. simpl.
    destruct (find _ contacts) eqn:F; [reflexivity|].
    apply AppDataFacts.find_id_none in F. exfalso. apply F.
    now apply in_map. }
  split; [exact H|]. split; [exact Hs|].
  rewrite Hs. exact (AppDataFacts.map_replace_ids (resaved c) contacts).
Qed.

End ContactsModalFacts.

From Stdlib Require Import Sorted Permutation.

(** ** The derived views *)

Module SortFacts.
Import Views.

Section Sorting.
Context {A : Type}.
Variable cmp : A -> A -> Z.

#[local] Abbreviation before := (Views.before cmp).

Lemma insertBy_perm (x : A) (l : list A) :
  Permutation (insertBy cmp x l) (x :: l).
Proof.
  induction l as [|y l IH]; simpl; [reflexivity|].
  destruct (cmp x y <=? 0)%Z; [reflexivity|].
  rewrite IH. apply perm_swap.
Qed.

Lemma sortBy_perm (l : list A) : Permutation (sortBy cmp l) l.
Proof.
  induction l as [|x l IH]; simpl; [reflexivity|].
  unfold sortBy in *. simpl. rewrite insertBy_perm. now constructor.
Qed.

Lemma sortBy_In (x : A) (l : list A) : In x (sortBy cmp l) <-> In x l.
Proof.
  split; apply Permutation_in; [|symmetry]; apply sortBy_perm.
Qed.

Lemma sortBy_length (l : list A) :
  List.length (sortBy cmp l) = List.length l.
Proof. apply Permutation_length, sortBy_perm. Qed.

Lemma insertBy_sorted (x : A) (l : list A) :
  consistent cmp ->
  StronglySorted before l -> StronglySorted before (insertBy cmp x l).
Proof.
  intros [Htot Htr] Hs. induction Hs as [|y l Hs IH Hy]; simpl.
  - repeat constructor.
  - destruct (cmp x y <=? 0)%Z eqn:E.
    + apply Z.leb_le in E. constructor; [now constructor|].
      constructor; [exact E|].
      rewrite Forall_forall in *. intros z Hz.
      exact (Htr _ _ _ E (Hy z Hz)).
    + apply Z.leb_gt in E. constructor; [exact IH|].
      rewrite Forall_forall in *. intros z Hz.
      apply (Permutation_in _ (insertBy_perm x l)) in Hz.
      destruct Hz as [<- | Hz]; [|exact (Hy z Hz)].
      unfold before. destruct (Htot y x) as [H | H]; [exact H|].
      exfalso. exact (Z.lt_irrefl _ (Z.le_lt_trans _ _ _ H E)).
Qed.

Lemma sortBy_sorted (l : list A) :
  consistent cmp -> StronglySorted before (sortBy cmp l).
Proof.
  intros Hc. induction l as [|x l IH]; simpl; [constructor|].
  now apply insertBy_sorted.
Qed.

Lemma sortBy_keeps_sorted (l : list A) :
  StronglySorted before l -> sortBy cmp l = l.
Proof.
  intros Hs. induction Hs as [|x l Hs IH Hx]; [reflexivity|].
  unfold sortBy in *. simpl. rewrite IH.
  destruct l as [|y l]; [reflexivity|]. simpl.
  assert (E : (cmp x y <=? 0)%Z = true).
  { apply Z.leb_le. rewrite Forall_forall in Hx. apply Hx. now left. }
  now rewrite E.
Qed.

End Sorting.

End SortFacts.

Section ViewFacts.
Context {host : Host}.
Variable localeCompare : string -> string -> Z.
Import Views SortFacts.

Lemma newestFirst_consistent :
  consistent localeCompare -> consistent (newestFirst localeCompare).
Proof.
  intros [Htot Htr]. unfold newestFirst. split.
  - intros a b. destruct (Htot (Activity.date a) (Activity.date b)); auto.
  - intros a b c H1 H2. exact (Htr _ _ _ H2 H1).
Qed.

(** X23. The timeline shows exactly the activities that pass the filters, each
    once per occurrence; an activity whose opportunity is not in the
    collection is never shown, whatever the filters. *)
Theorem timeline_shows_matching (opportunities : list Opportunity.t)
  (activities : list Activity.t) (f : Filters) :
  Permutation (filteredActivities localeCompare opportunities activities f)
    (filter (shown opportunities f) activities)
  /\ (forall a,
        In a (filteredActivities localeCompare opportunities activities f)
        <-> In a activities /\ shown opportunities f a = true)
  /\ (forall a,
        opportunityOf opportunities a = None ->
        ~ In a (filteredActivities localeCompare opportunities activities f)).
Proof.
  unfold filteredActivities. split; [apply sortBy_perm|]. split.
  - intros a. rewrite sortBy_In. apply filter_In.
  - intros a Hn H. apply sortBy_In, filter_In in H. destruct H as [_ H].
    unfold shown in H. rewrite Hn in H. discriminate.
Qed.

(** X24. When the host compares dates consistently, the timeline runs from the
    newest date to the oldest: no activity comes before one with a later
    date.  Activities that are already in that order, equal dates
    included, are shown in the order they were entered. *)
Theorem timeline_newest_first (opportunities : list Opportunity.t)
  (activities : list Activity.t) (f : Filters) :
  consistent localeCompare ->
  StronglySorted
    (fun a b => (localeCompare (Activity.date b) (Activity.date a) <= 0)%Z)
    (filteredActivities localeCompare opportunities activities f)
  /\ (StronglySorted
        (fun a b => (localeCompare (Activity.date b) (Activity.date a) <= 0)%Z)
        (filter (shown opportunities f) activities) ->
      filteredActivities localeCompare opportunities activities f
      = filter (shown opportunities f) activities).
Proof.
  intros Hc. split.
  - exact (sortBy_sorted _ _ (newestFirst_consistent Hc)).
  - intros Hs. exact (sortBy_keeps_sorted (newestFirst localeCompare) _ Hs).
Qed.

(** X25. The detail view lists exactly the activities of the focused
    opportunity, and nothing when no opportunity carries the focused
    identifier, even if activities refer to it. *)
Theorem focus_lists_own_activities (opportunities : list Opportunity.t)
  (activities : list Activity.t) (focused : option string) :
  (forall o, focusedOpportunity opportunities focused = Some o ->
     In o opportunities /\ Some (Opportunity.id o) = focused
     /\ forall a,
          In a (focusedActivities localeCompare opportunities activities
                  focused)
          <-> In a activities /\ Activity.opportunityId a = Opportunity.id o)
  /\ (focusedOpportunity opportunities focused = None ->
      focusedActivities localeCompare opportunities activities focused = []).
Proof.
  unfold focusedActivities. split.
  - intros o Ho. rewrite Ho. unfold focusedOpportunity in Ho.
    destruct focused as [id|]; [|discriminate].
    apply find_some in Ho. destruct Ho as [Hin E].
    apply String.eqb_eq in E. subst id.
    split; [exact Hin|]. split; [reflexivity|].
    intros a. rewrite sortBy_In, filter_In, String.eqb_eq. tauto.
  - intros H. now rewrite H.
Qed.

(** X26. The employer facet offers "All" first and then every employer of the
    collection exactly once. *)
Theorem employers_facet (opportunities : list Opportunity.t) :
  exists rest,
    employers opportunities = "All" :: rest
    /\ NoDup rest
    /\ forall e, In e rest <->
                 exists o, In o opportunities /\ Opportunity.employer o = e.
Proof.
  eexists. split; [reflexivity|]. split; [apply uniq_NoDup|].
  intros e. rewrite uniq_In, in_map_iff. split.
  - intros (o & H1 & H2). eauto.
  - intros (o & H1 & H2). eauto.
Qed.

(** X20. The PDF log has one row per activity, orphans included: an activity
    whose opportunity is gone is listed under "General", the others under
    employer and position. *)
Theorem pdf_log_lists_every_activity (opportunities : list Opportunity.t)
  (activities : list Activity.t) (contacts : list Contact.t) :
  List.length (tableData localeCompare opportunities activities contacts)
  = List.length activities
  /\ forall a, In a activities ->
       exists r,
         In r (tableData localeCompare opportunities activities contacts)
         /\ r_title r = Activity.title a
         /\ r_date r = ModalEdits.beforeT (Activity.date a)
         /\ r_opportunity r
            = match opportunityOf opportunities a with
              | Some op =>
                  Opportunity.employer op ++ " - " ++ Opportunity.position op
              | None => "General"
              end.
Proof.
  unfold tableData. split.
  - now rewrite length_map, sortBy_length.
  - intros a Ha. eexists. split.
    + apply in_map_iff. exists a. split; [reflexivity|].
      now apply sortBy_In.
    + simpl. repeat split.
Qed.

End ViewFacts.

From Stdlib Require Import OrderedTypeEx.

Module StringOrder.

Lemma ltb_lt (a b : string) : String.ltb a b = true <-> String.compare a b = Lt.
Proof.
  unfold String.ltb. destruct (String.compare a b); split; congruence.
Qed.

Lemma ltb_asym (a b : string) :
  String.ltb a b = true -> String.ltb b a = false.
Proof.
  unfold String.ltb. rewrite (String.compare_antisym b a).
  now destruct (String.compare a b).
Qed.

Lemma leb_ltb (a b : string) : String.leb a b = negb (String.ltb b a).
Proof.
  unfold String.leb, String.ltb. rewrite (String.compare_antisym b a).
  now destruct (String.compare a b).
Qed.

Lemma compare_lt_trans (a b c : string) :
  String.compare a b = Lt -> String.compare b c = Lt ->
  String.compare a c = Lt.
Proof.
  intros H1 H2. apply String_as_OT.cmp_lt.
  apply String_as_OT.cmp_lt in H1, H2.
  exact (String_as_OT.lt_trans _ _ _ H1 H2).
Qed.

Lemma leb_trans (a b c : string) :
  String.leb a b = true -> String.leb b c = true -> String.leb a c = true.
Proof.
  unfold String.leb.
  destruct (String.compare a b) eqn:E1; try discriminate;
    destruct (String.compare b c) eqn:E2; try discriminate; intros _ _.
  - apply String_as_OT.cmp_eq in E1, E2. subst.
    pose proof (proj2 (String_as_OT.cmp_eq c c) eq_refl) as E.
    unfold String_as_OT.cmp in E. now rewrite E.
  - apply String_as_OT.cmp_eq in E1. subst. now rewrite E2.
  - apply String_as_OT.cmp_eq in E2. subst. now rewrite E1.
  - now rewrite (compare_lt_trans _ _ _ E1 E2).
Qed.

End StringOrder.

Section RosterViewFacts.
Context {host : Host}.
Variable localeCompare : string -> string -> Z.
Import Views RosterView Roster SortFacts StringOrder.

Lemma StronglySorted_weaken {A : Type} (R R' : A -> A -> Prop)
  (l : list A) :
  (forall a b, R a b -> R' a b) ->
  StronglySorted R l -> StronglySorted R' l.
Proof.
  intros H Hs. induction Hs as [|x l Hs IH Hx]; constructor; auto.
  rewrite Forall_forall in *. auto.
Qed.

Lemma includes_empty (s : string) : includes s "" = true.
Proof. now destruct s. Qed.

(** X28. The roster lists exactly the opportunities that pass the filters;
    with an empty search text, no employer selected and empty column
    filters it lists every opportunity. *)
Theorem roster_lists_matching (opportunities : list Opportunity.t)
  (activities : list Activity.t) (f : Filters) (cf : ColumnFilters)
  (cfg : SortConfig) :
  (forall o,
     In o (filteredOpportunities localeCompare opportunities activities
             f cf cfg)
     <-> In o opportunities /\ listed f cf o = true)
  /\ (toLowerCase "" = "" ->
      Permutation
        (filteredOpportunities localeCompare opportunities activities
           noFilters noColumnFilters cfg)
        opportunities).
Proof.
  unfold filteredOpportunities. split.
  - intros o. rewrite sortBy_In. apply filter_In.
  - intros H. rewrite sortBy_perm.
    assert (Hall : forall o, listed noFilters noColumnFilters o = true).
    { intros o. unfold listed. simpl. rewrite H, !includes_empty.
      reflexivity. }
    clear H. induction opportunities as [|o l IH]; simpl; [constructor|].
    rewrite Hall. now constructor.
Qed.

Lemma rosterCompare_field (activities : list Activity.t) (k : SortKey)
  (d : Direction) (a b : Opportunity.t) :
  k <> lastActivity ->
  rosterCompare localeCompare activities {| key := k; direction := d |} a b
  = directed d
      (match String.compare (toLowerCase (field k a))
               (toLowerCase (field k b)) with
       | Lt => -1
       | Eq => 0
       | Gt => 1
       end)%Z.
Proof.
  intros Hk. unfold rosterCompare. simpl.
  set (va := toLowerCase (field k a)). set (vb := toLowerCase (field k b)).
  assert (E : (if String.ltb va vb then directed d (-1)
               else if String.ltb vb va then directed d 1 else 0%Z)
              = directed d
                  (match String.compare va vb with
                   | Lt => -1 | Eq => 0 | Gt => 1
                   end)%Z).
  { unfold String.ltb. rewrite (String.compare_antisym va vb).
    destruct (String.compare vb va); simpl; now destruct d. }
  destruct k; try exact E. contradiction.
Qed.

(** X29. Sorting the roster on a column orders it by the lower-cased value of
    that column, ascending or descending as selected. *)
Theorem roster_sorted_by_column (opportunities : list Opportunity.t)
  (activities : list Activity.t) (f : Filters) (cf : ColumnFilters)
  (k : SortKey) :
  k <> lastActivity ->
  StronglySorted
    (fun a b => String.leb (toLowerCase (field k a))
                  (toLowerCase (field k b)) = true)
    (filteredOpportunities localeCompare opportunities activities f cf
       {| key := k; direction := asc |})
  /\ StronglySorted
       (fun a b => String.leb (toLowerCase (field k b))
                     (toLowerCase (field k a)) = true)
       (filteredOpportunities localeCompare opportunities activities f cf
          {| key := k; direction := desc |}).
Proof.
  intros Hk.
  assert (Hle : forall d a b,
            before (rosterCompare localeCompare activities
                      {| key := k; direction := d |}) a b
            <-> match d with
                | asc => String.leb (toLowerCase (field k a))
                           (toLowerCase (field k b)) = true
                | desc => String.leb (toLowerCase (field k b))
                            (toLowerCase (field k a)) = true
                end).
  { intros d a b. unfold before. rewrite (rosterCompare_field _ _ _ _ _ Hk).
    unfold String.leb.
    rewrite (String.compare_antisym (toLowerCase (field k a))
               (toLowerCase (field k b))).
    destruct (String.compare (toLowerCase (field k b))
                (toLowerCase (field k a))); destruct d; simpl;
      split; intros H; try reflexivity; try discriminate;
      try (exfalso; now apply H). }
  assert (Hc : forall d, consistent (rosterCompare localeCompare activities
                                       {| key := k; direction := d |})).
  { intros d. split.
    - intros a b. fold (before (rosterCompare localeCompare activities
                                  {| key := k; direction := d |}) a b).
      fold (before (rosterCompare localeCompare activities
                      {| key := k; direction := d |}) b a).
      rewrite !Hle. destruct d; apply String.leb_total.
    - intros a b c H1 H2.
      apply (Hle d) in H1. apply (Hle d) in H2. apply (Hle d).
      destruct d; eauto using leb_trans. }
  split.
  - apply (StronglySorted_weaken _ _ _ (fun a b => proj1 (Hle asc a b))).
    exact (sortBy_sorted _ _ (Hc asc)).
  - apply (StronglySorted_weaken _ _ _ (fun a b => proj1 (Hle desc a b))).
    exact (sortBy_sorted _ _ (Hc desc)).
Qed.

(** In every column, the last-activity one included, the descending
    comparison of two rows is the ascending comparison of the rows
    swapped. *)
Theorem descending_mirrors_ascending (activities : list Activity.t)
  (k : SortKey) (a b : Opportunity.t) :
  rosterCompare localeCompare activities {| key := k; direction := desc |} a b
  = rosterCompare localeCompare activities {| key := k; direction := asc |}
      b a.
Proof.
  unfold rosterCompare. simpl.
  assert (E : forall va vb,
            (if String.ltb va vb then 1
             else if String.ltb vb va then -1 else 0)%Z
            = (if String.ltb vb va then -1
               else if String.ltb va vb then 1 else 0)%Z).
  { intros va vb. destruct (String.ltb va vb) eqn:E1.
    - now rewrite (ltb_asym _ _ E1).
    - reflexivity. }
  destruct k; try apply E. reflexivity.
Qed.

End RosterViewFacts.

Section FacetFacts.
Context {host : Host}.
Variable localeCompare : string -> string -> Z.
Import Views SortFacts.

(** X30. The date the roster shows for an opportunity is ['0000'] when it has
    no activity; otherwise it is the date of one of its activities that
    no other of them is later than (['0000'] again if that date is
    empty). *)
Theorem last_activity_is_newest (activities : list Activity.t)
  (o : Opportunity.t) :
  consistent localeCompare ->
  ((forall a, In a activities ->
              Activity.opportunityId a <> Opportunity.id o) ->
   lastActivity localeCompare activities o = "0000")
  /\ (forall a0, In a0 activities ->
        Activity.opportunityId a0 = Opportunity.id o ->
        exists a,
          In a activities
          /\ Activity.opportunityId a = Opportunity.id o
          /\ (forall b, In b activities ->
                Activity.opportunityId b = Opportunity.id o ->
                (localeCompare (Activity.date b) (Activity.date a) <= 0)%Z)
          /\ lastActivity localeCompare activities o
             = if Activity.date a =? "" then "0000" else Activity.date a).
Proof.
  intros Hc. unfold lastActivity.
  set (own := filter (fun ac => Activity.opportunityId ac =? Opportunity.id o)
                activities).
  assert (Hown : forall a, In a own <->
                 In a activities
                 /\ Activity.opportunityId a = Opportunity.id o).
  { intros a. unfold own. now rewrite filter_In, String.eqb_eq. }
  pose proof (sortBy_sorted (newestFirst localeCompare) own
                (newestFirst_consistent localeCompare Hc)) as Hs.
  pose proof (sortBy_In (newestFirst localeCompare)) as Hin.
  split.
  - intros Hnone.
    destruct (sortBy (newestFirst localeCompare) own) as [|a l] eqn:E;
      [reflexivity|].
    assert (Ha : In a own) by (apply Hin; rewrite E; now left).
    apply Hown in Ha. destruct Ha as [Ha1 Ha2]. now apply Hnone in Ha1.
  - intros a0 H0 H0o.
    assert (Ha0 : In a0 (sortBy (newestFirst localeCompare) own)).
    { apply Hin, Hown. auto. }
    destruct (sortBy (newestFirst localeCompare) own) as [|a l] eqn:E;
      [contradiction|].
    assert (Ha : In a own) by (apply Hin; rewrite E; now left).
    apply Hown in Ha. destruct Ha as [Ha1 Ha2].
    exists a. split; [exact Ha1|]. split; [exact Ha2|].
    split; [|reflexivity].
    intros b Hb Hbo.
    assert (Hbl : In b (a :: l)).
    { rewrite <- E. apply Hin, Hown. auto. }
    inversion Hs as [|x l' Hl Hx]; subst.
    destruct Hbl as [<- | Hbl].
    + destruct Hc as [Htot _].
      destruct (Htot (Activity.date a) (Activity.date a)); assumption.
    + rewrite Forall_forall in Hx. exact (Hx b Hbl).
Qed.

(** X27. The contact facet offers exactly the contacts some activity refers
    to; a contact no activity refers to is not offered, and an identifier
    that resolves to no contact adds nothing. *)
Theorem contact_facet_lists_referenced (activities : list Activity.t)
  (contacts : list Contact.t) :
  forall c,
    In c (uniqueContacts localeCompare activities contacts)
    <-> In c contacts
        /\ exists a, In a activities
                     /\ In (Contact.id c) (Activity.contactIds a).
Proof.
  intros c. unfold uniqueContacts.
  rewrite sortBy_In, filter_In, existsb_exists.
  split.
  - intros (Hc & x & Hx & E). apply String.eqb_eq in E. subst x.
    apply in_flat_map in Hx. auto.
  - intros (Hc & a & Ha & Hid). split; [exact Hc|].
    exists (Contact.id c). split; [|apply String.eqb_refl].
    apply in_flat_map. eauto.
Qed.

End FacetFacts.

(** ** The properties on sample records *)

Module RecordExamples.
Import ActivityModal ModalEdits Samples RecordSamples Views RosterView.
Import SaveFacts EditFacts ContactsModalFacts.
#[local] Existing Instance RefHost.host.

Lemma byteCompare_consistent : consistent byteCompare.
Proof.
  unfold byteCompare. split.
  - intros a b. rewrite (String.compare_antisym a b).
    destruct (String.compare b a); simpl; [left|right|left];
      discriminate.
  - intros a b c.
    destruct (String.compare a b) eqn:E1; intros H1; try (now exfalso);
      destruct (String.compare b c) eqn:E2; intros H2; try (now exfalso).
    + apply String_as_OT.cmp_eq in E1, E2. subst.
      pose proof (proj2 (String_as_OT.cmp_eq c c) eq_refl) as E.
      unfold String_as_OT.cmp in E. rewrite E. discriminate.
    + apply String_as_OT.cmp_eq in E1. subst. rewrite E2. discriminate.
    + apply String_as_OT.cmp_eq in E2. subst. rewrite E1. discriminate.
    + rewrite (StringOrder.compare_lt_trans _ _ _ E1 E2). discriminate.
Qed.

Lemma saved_reference_resolves_witness :
  exists p,
    handleSave uuid today (props None [sarahContact]) (suggested "ghost")
    = Some p
    /\ Activity.opportunityId (activity p) = "ghost"
    /\ storeOpportunities
         (save uuid today (props None [sarahContact]) (suggested "ghost")
            sampleStore)
       = [acmeOpp]
    /\ ~ In (Activity.opportunityId (activity p))
           (map Opportunity.id
              (storeOpportunities
                 (save uuid today (props None [sarahContact])
                    (suggested "ghost") sampleStore))).
Proof.
  assert (E : exists p, handleSave uuid today (props None [sarahContact])
                          (suggested "ghost") = Some p)
    by (eexists; vm_compute; reflexivity).
  destruct E as [p E]. exists p. split; [exact E|].
  destruct (saved_reference_resolves uuid today (props None [sarahContact])
              (suggested "ghost") sampleStore p E) as (_ & Hn & Hr & _).
  destruct (Hn eq_refl) as (H1 & H2 & _).
  split; [exact H2|]. split; [exact H1|].
  intros Hin. apply Hr in Hin. destruct Hin as [Hc | Hin].
  - discriminate Hc.
  - vm_compute in Hin. intuition discriminate.
Defined.

Lemma edit_replaces_in_place_witness :
  exists p,
    handleSave uuid today (editProps screening [sarahContact] [acmeOpp])
      (initEdit screening (mounted today)) = Some p
    /\ Activity.id (activity p) = "a1"
    /\ map Activity.id
         (storeActivities
            (save uuid today (editProps screening [sarahContact] [acmeOpp])
               (initEdit screening (mounted today)) sampleStore))
       = ["a1"; "a2"].
Proof.
  assert (E : exists p,
            handleSave uuid today
              (editProps screening [sarahContact] [acmeOpp])
              (initEdit screening (mounted today)) = Some p)
    by (eexists; vm_compute; reflexivity).
  destruct E as [p E]. exists p. split; [exact E|].
  destruct (edit_replaces_in_place uuid today
              (editProps screening [sarahContact] [acmeOpp])
              (initEdit screening (mounted today)) sampleStore p screening
              eq_refl) as (H1 & H2 & _).
  - discriminate.
  - exact E.
  - split; assumption.
Defined.

Lemma new_activity_is_appended_witness :
  exists p,
    handleSave uuid today (props None [sarahContact]) selectedForm = Some p
    /\ storeActivities
         (save uuid today (props None [sarahContact]) selectedForm
            sampleStore)
       = [screening; interview; activity p]
    /\ Activity.id (activity p) = uuid 0.
Proof.
  assert (E : exists p, handleSave uuid today (props None [sarahContact])
                          selectedForm = Some p)
    by (eexists; vm_compute; reflexivity).
  destruct E as [p E]. exists p. split; [exact E|].
  destruct (new_activity_is_appended uuid today (props None [sarahContact])
              selectedForm sampleStore p eq_refl E) as (H1 & H2 & _).
  split; assumption.
Defined.

Lemma edit_then_save_roundtrip_witness :
  handleSave uuid today (editProps screening [sarahContact] [acmeOpp])
    (initEdit screening (mounted today))
  = Some {| activity := redated screening; newOpportunity := None;
            newContacts := [] |}
  /\ (hasT (Activity.date screening) = false -> redated screening = screening).
Proof.
  apply (edit_then_save_roundtrip uuid today screening [sarahContact]
           [acmeOpp]); discriminate.
Defined.

Lemma suggestion_decides_opportunity_witness :
  exists s',
    handleAutoFill today (props None [])
      (Some (extraction false (Some "o1") [])) (typed None []) = Ok s'
    /\ isNewOp s' = false /\ selectedOpId s' = "o1".
Proof.
  assert (E : exists s',
            handleAutoFill today (props None [])
              (Some (extraction false (Some "o1") [])) (typed None [])
            = Ok s')
    by (eexists; vm_compute; reflexivity).
  destruct E as [s' E]. exists s'. split; [exact E|].
  destruct (suggestion_decides_opportunity uuid today (props None [])
              (extraction false (Some "o1") []) (typed None []) s'
              "Screening call with Sarah" eq_refl eq_refl)
    as (_ & Hm & _).
  - vm_compute. discriminate.
  - exact E.
  - destruct (Hm eq_refl "o1" eq_refl) as (H1 & H2 & _); [discriminate|].
    split; assumption.
Defined.

Lemma contact_edit_roundtrip_witness :
  ContactsModal.handleSave uuid (ContactsModal.handleEdit withPhone)
  = Some (ContactsModal.resaved withPhone)
  /\ Contact.phone (ContactsModal.resaved withPhone) = None
  /\ Contact.role (ContactsModal.resaved withPhone) = "Contact".
Proof.
  destruct (contact_edit_roundtrip uuid withPhone [sarahContact; withPhone])
    as (H & _); try discriminate.
  - right. now left.
  - split; [exact H|]. split; reflexivity.
Defined.

Lemma timeline_newest_first_witness :
  StronglySorted
    (fun a b => (byteCompare (Activity.date b) (Activity.date a) <= 0)%Z)
    (filteredActivities byteCompare [acmeOpp]
       [screening; orphan; interview] noFilters).
Proof.
  exact (proj1 (timeline_newest_first byteCompare [acmeOpp]
                  [screening; orphan; interview] noFilters
                  byteCompare_consistent)).
Defined.

Lemma roster_sorted_by_column_witness :
  StronglySorted
    (fun a b => String.leb (toLowerCase (field Roster.employer a))
                  (toLowerCase (field Roster.employer b)) = true)
    (filteredOpportunities byteCompare [globexOpp; acmeOpp] []
       noFilters noColumnFilters
       {| Roster.key := Roster.employer; Roster.direction := Roster.asc |}).
Proof.
  apply (roster_sorted_by_column byteCompare [globexOpp; acmeOpp] []
           noFilters noColumnFilters Roster.employer).
  discriminate.
Defined.

Lemma last_activity_is_newest_witness :
  lastActivity byteCompare [screening; orphan; interview] globexOpp = "0000"
  /\ exists a,
       In a [screening; orphan; interview]
       /\ lastActivity byteCompare [screening; orphan; interview] acmeOpp
          = if Activity.date a =? "" then "0000" else Activity.date a.
Proof.
  split.
  - apply (proj1 (last_activity_is_newest byteCompare
                    [screening; orphan; interview] globexOpp
                    byteCompare_consistent)).
    intros a [<- | [<- | [<- | []]]]; discriminate.
  - destruct (proj2 (last_activity_is_newest byteCompare
                       [screening; orphan; interview] acmeOpp
                       byteCompare_consistent) screening)
      as (a & Ha & _ & _ & Hl).
    + now left.
    + reflexivity.
    + exists a. split; assumption.
Defined.

End RecordExamples.
